(** * Park CRUD front-end: validation rules, submit/delete flows, image
      resolution and the list's derived view.

    A shallow embedding of the logic-bearing parts of the React
    components (ParkForm.jsx, ParkEditForm.jsx, ParkCard.jsx,
    ParkList.jsx, Home.jsx, ParkDetail.jsx, DeleteConfirmationModal.jsx,
    hooks/useDeletePark.js). *)

From Stdlib Require Import NArith ZArith QArith Ascii String List Lia Permutation Sorted DecimalString.
From stdpp Require Import base option list gmap.

Local Open Scope N_scope.

(** ** JavaScript strings

    A JavaScript string is a sequence of UTF-16 code units; [length]
    counts code units, which is what [value.length] does. *)

Module JS.

Definition jsstring := list N.

(** String literals of the source are written as UTF-8 text and decoded
    to code units. Code points above the BMP become a surrogate pair. *)
Fixpoint utf8_decode (bs : list N) : jsstring :=
  match bs with
  | [] => []
  | b0 :: r0 =>
    if b0 <? 128 then b0 :: utf8_decode r0
    else match r0 with
    | [] => []
    | b1 :: r1 =>
      if b0 <? 224 then ((b0 - 192) * 64 + (b1 - 128)) :: utf8_decode r1
      else match r1 with
      | [] => []
      | b2 :: r2 =>
        if b0 <? 240
        then ((b0 - 224) * 4096 + (b1 - 128) * 64 + (b2 - 128)) :: utf8_decode r2
        else match r2 with
        | [] => []
        | b3 :: r3 =>
          let cp := (b0 - 240) * 262144 + (b1 - 128) * 4096
                    + (b2 - 128) * 64 + (b3 - 128) - 65536 in
          (55296 + cp / 1024) :: (56320 + cp mod 1024) :: utf8_decode r3
        end
      end
    end
  end.

Definition js (s : string) : jsstring :=
  utf8_decode (map N_of_ascii (list_ascii_of_string s)).

(** WhiteSpace and LineTerminator code units: the set stripped by
    [String.prototype.trim] and matched by [\s]. *)
Definition isWhiteSpace (c : N) : bool :=
  ((9 <=? c) && (c <=? 13)) || (c =? 32) || (c =? 160) || (c =? 5760)
  || ((8192 <=? c) && (c <=? 8202)) || (c =? 8232) || (c =? 8233)
  || (c =? 8239) || (c =? 8287) || (c =? 12288) || (c =? 65279).

(** LineTerminator: what [.] refuses to match. *)
Definition isLineTerminator (c : N) : bool :=
  (c =? 10) || (c =? 13) || (c =? 8232) || (c =? 8233).

Fixpoint trimStart (s : jsstring) : jsstring :=
  match s with
  | [] => []
  | c :: r => if isWhiteSpace c then trimStart r else s
  end.

Definition trimEnd (s : jsstring) : jsstring := rev (trimStart (rev s)).

Definition trim (s : jsstring) : jsstring := trimEnd (trimStart s).

(** Truthiness of a string: [!value] is true exactly on the empty
    string. *)
Definition truthy (s : jsstring) : bool :=
  match s with [] => false | _ => true end.

Definition jsstring_eqb (a b : jsstring) : bool := bool_decide (a = b).

(** [Array.prototype.includes] on an array of strings. *)
Definition includes (l : list jsstring) (v : jsstring) : bool :=
  existsb (jsstring_eqb v) l.

End JS.
Import JS.

(** ** Regular expressions

    The patterns of the validation rules use character classes,
    concatenation, alternation, [+], [?], [*] and a counted
    repetition, anchored on both sides; [RegExp.prototype.test] on such
    a pattern decides membership of the whole string in the pattern's
    language. The matcher is by derivatives. *)

Module Regex.

Inductive regex : Type :=
| RVoid
| REps
| RCls (p : N -> bool)
| RCat (r1 r2 : regex)
| RAlt (r1 r2 : regex)
| RStar (r : regex).

Definition RPlus (r : regex) : regex := RCat r (RStar r).
Definition ROpt (r : regex) : regex := RAlt r REps.
Fixpoint RRep (n : nat) (r : regex) : regex :=
  match n with O => REps | S k => RCat r (RRep k r) end.
Fixpoint RSeq (rs : list regex) : regex :=
  match rs with [] => REps | r :: rest => RCat r (RSeq rest) end.

Fixpoint nullable (r : regex) : bool :=
  match r with
  | RVoid => false
  | REps => true
  | RCls _ => false
  | RCat r1 r2 => nullable r1 && nullable r2
  | RAlt r1 r2 => nullable r1 || nullable r2
  | RStar _ => true
  end.

Fixpoint deriv (c : N) (r : regex) : regex :=
  match r with
  | RVoid => RVoid
  | REps => RVoid
  | RCls p => if p c then REps else RVoid
  | RCat r1 r2 =>
    if nullable r1
    then RAlt (RCat (deriv c r1) r2) (deriv c r2)
    else RCat (deriv c r1) r2
  | RAlt r1 r2 => RAlt (deriv c r1) (deriv c r2)
  | RStar r1 => RCat (deriv c r1) (RStar r1)
  end.

Fixpoint test (r : regex) (s : jsstring) : bool :=
  match s with
  | [] => nullable r
  | c :: rest => test (deriv c r) rest
  end.

(** The language of a pattern. *)
Inductive Lang : regex -> jsstring -> Prop :=
| LEps : Lang REps []
| LCls p c : p c = true -> Lang (RCls p) [c]
| LCat r1 r2 s1 s2 : Lang r1 s1 -> Lang r2 s2 -> Lang (RCat r1 r2) (s1 ++ s2)
| LAltL r1 r2 s : Lang r1 s -> Lang (RAlt r1 r2) s
| LAltR r1 r2 s : Lang r2 s -> Lang (RAlt r1 r2) s
| LStarNil r : Lang (RStar r) []
| LStarApp r s1 s2 : Lang r s1 -> Lang (RStar r) s2 -> Lang (RStar r) (s1 ++ s2).

End Regex.

(** ** JavaScript numbers

    A number is a double: a not-a-number value, an infinity, or a
    finite value, which is a rational. Comparisons with a NaN are
    false. *)

Module Num.

Inductive jsnum : Type :=
| NaN
| NegInf
| Fin (q : Q)
| PosInf.

Definition isNaN (x : jsnum) : bool :=
  match x with NaN => true | _ => false end.

(** [x < y] on numbers. *)
Definition lt (x y : jsnum) : bool :=
  match x, y with
  | NaN, _ | _, NaN => false
  | NegInf, NegInf => false
  | NegInf, _ => true
  | _, NegInf => false
  | PosInf, _ => false
  | Fin _, PosInf => true
  | Fin a, Fin b => negb (Qle_bool b a)
  end.

Definition gt (x y : jsnum) : bool := lt y x.

Definition isDigit (c : N) : bool := (48 <=? c) && (c <=? 57).

(** The value of a leading run of digits, and what follows it. *)
Fixpoint digits (acc : Z) (s : JS.jsstring) : option (Z * JS.jsstring) :=
  match s with
  | [] => Some (acc, [])
  | c :: r =>
    if isDigit c then digits (acc * 10 + Z.of_N (c - 48)) r
    else Some (acc, s)
  end.

(** A reader of plain decimal literals, [-]digits[.digits], giving the
    exact value; everything else but the empty string (which converts
    to 0) is not a number. It stands for the runtime's conversion of a
    string to a number where a concrete one is needed. *)
Definition decimal (s : JS.jsstring) : jsnum :=
  let '(neg, body) :=
    match s with
    | 45 :: r => (true, r)
    | _ => (false, s)
    end in
  let sign (q : Q) := if neg then Qopp q else q in
  match body with
  | [] => match s with [] => Fin 0 | _ => NaN end
  | c :: _ =>
    if isDigit c then
      match digits 0 body with
      | Some (i, []) => Fin (sign (inject_Z i))
      | Some (i, 46 :: frac) =>
        match frac, digits 0 frac with
        | _ :: _, Some (f, []) =>
          Fin (sign (Qmake (i * 10 ^ Z.of_nat (length frac) + f)
                           (Z.to_pos (10 ^ Z.of_nat (length frac)))))
        | _, _ => NaN
        end
      | _ => NaN
      end
    else NaN
  end.

End Num.

(** ** Validation rules (ParkForm.jsx and ParkEditForm.jsx,
    [useFormValidation]; the two copies are the same text) *)

Module Validation.
Import Regex.

(** The keys of the draft object [formData]. *)
Inductive field : Type :=
| park_name
| park_abbreviation
| park_img_url
| park_address
| park_city
| park_state
| park_zip_code
| park_latitude
| park_longitude.

#[export] Instance field_eq_dec : EqDecision field.
Proof. solve_decision. Defined.

Definition field_index (f : field) : nat :=
  match f with
  | park_name => 0 | park_abbreviation => 1 | park_img_url => 2
  | park_address => 3 | park_city => 4 | park_state => 5
  | park_zip_code => 6 | park_latitude => 7 | park_longitude => 8
  end%nat.

Definition field_of_index (n : nat) : option field :=
  match n with
  | 0 => Some park_name | 1 => Some park_abbreviation | 2 => Some park_img_url
  | 3 => Some park_address | 4 => Some park_city | 5 => Some park_state
  | 6 => Some park_zip_code | 7 => Some park_latitude | 8 => Some park_longitude
  | _ => None
  end%nat.

#[export] Instance field_countable : Countable field.
Proof.
  apply (inj_countable field_index field_of_index).
  intros []; reflexivity.
Defined.

(** *** Character classes and patterns *)

Definition in_range (lo hi : string) (c : N) : bool :=
  match js lo, js hi with
  | [l], [h] => (l <=? c) && (c <=? h)
  | _, _ => false
  end.

Definition one_of (chars : string) (c : N) : bool :=
  existsb (N.eqb c) (js chars).

(** [[a-zA-ZáéíóúÁÉÍÓÚñÑ]] *)
Definition letter (c : N) : bool :=
  in_range "a" "z" c || in_range "A" "Z" c || one_of "áéíóúÁÉÍÓÚñÑ" c.

(** [[a-zA-ZáéíóúÁÉÍÓÚñÑ\s]] *)
Definition letter_or_space (c : N) : bool :=
  letter c || isWhiteSpace c.

(** [\d] *)
Definition digit (c : N) : bool := in_range "0" "9" c.

(** [.]: any code unit but a line terminator. *)
Definition dot (c : N) : bool := negb (isLineTerminator c).

(** Under the [i] flag a pattern character and an input character
    match when their canonical forms agree. The pattern characters
    here are ASCII, and no code unit outside ASCII is canonicalized
    into ASCII, so only the two ASCII cases of a letter match it. *)
Definition asciiUpper (c : N) : N :=
  if (97 <=? c) && (c <=? 122) then c - 32 else c.

Definition chr (c : N) : regex := RCls (N.eqb c).
Definition chr_i (c : N) : regex := RCls (fun x => asciiUpper x =? asciiUpper c).

Definition lit (s : string) : regex := RSeq (map chr (js s)).
Definition lit_i (s : string) : regex := RSeq (map chr_i (js s)).

(** [/^[a-zA-ZáéíóúÁÉÍÓÚñÑ\s]+$/] *)
Definition name_re : regex := RPlus (RCls letter_or_space).

(** [/^[a-zA-ZáéíóúÁÉÍÓÚñÑ]+$/] *)
Definition abbreviation_re : regex := RPlus (RCls letter).

(** [/^https?:\/\/.+\.(jpg|jpeg|png|webp)(\?.* )?$/i] (written here with
    a space before the parenthesis that closes the last group) *)
Definition img_url_re : regex :=
  RSeq [ lit_i "http"; ROpt (lit_i "s"); lit "://";
         RPlus (RCls dot); lit ".";
         RAlt (lit_i "jpg") (RAlt (lit_i "jpeg") (RAlt (lit_i "png") (lit_i "webp")));
         ROpt (RCat (lit "?") (RStar (RCls dot))) ].

(** [/^4[4-5]\d{3}$/] *)
Definition zip_code_re : regex :=
  RSeq [ lit "4"; RCls (in_range "4" "5"); RRep 3 (RCls digit) ].

Definition validCities : list jsstring :=
  [ js "Zapopan"; js "Guadalajara"; js "San Pedro Tlaquepaque"; js "Tonalá" ].

(** *** Messages *)

Definition msg_name_required := js "El nombre es requerido".
Definition msg_min3 := js "Mínimo 3 caracteres".
Definition msg_max100 := js "Máximo 100 caracteres".
Definition msg_letters_spaces := js "Solo letras y espacios".
Definition msg_abbreviation_required := js "La abreviación es requerida".
Definition msg_min2 := js "Mínimo 2 caracteres".
Definition msg_max10 := js "Máximo 10 caracteres".
Definition msg_letters := js "Solo letras".
Definition msg_url_required := js "La URL es requerida".
Definition msg_url_invalid := js "URL inválida (.jpg, .jpeg, .png, .webp)".
Definition msg_address_required := js "La dirección es requerida".
Definition msg_min10 := js "Mínimo 10 caracteres".
Definition msg_max150 := js "Máximo 150 caracteres".
Definition msg_city_required := js "La ciudad es requerida".
Definition msg_city_invalid := js "Ciudad no válida".
Definition msg_zip_required := js "El código postal es requerido".
Definition msg_zip_invalid := js "Código inválido para Jalisco (44xxx o 45xxx)".
Definition msg_latitude_required := js "La latitud es requerida".
Definition msg_latitude_invalid := js "Latitud inválida para Jalisco (20-21.5)".
Definition msg_longitude_required := js "La longitud es requerida".
Definition msg_longitude_invalid := js "Longitud inválida para Jalisco (-105 a -102)".

(** The [errors] state object: a key may be present with the value
    [undefined], which is the inner [None]. *)
Abbreviation errors_t := (gmap field (option jsstring)).

Section Rules.

(** The runtime's conversion of a string to a number, used by
    [isNaN(value)] and by [value < 20] on a string [value]. *)
Variable ToNumber : jsstring -> Num.jsnum.

Definition rule_park_name (value : jsstring) : option jsstring :=
  if negb (truthy (trim value)) then Some msg_name_required
  else if (length value <? 3)%nat then Some msg_min3
  else if (100 <? length value)%nat then Some msg_max100
  else if negb (test name_re (trim value)) then Some msg_letters_spaces
  else None.

Definition rule_park_abbreviation (value : jsstring) : option jsstring :=
  if negb (truthy (trim value)) then Some msg_abbreviation_required
  else if (length value <? 2)%nat then Some msg_min2
  else if (10 <? length value)%nat then Some msg_max10
  else if negb (test abbreviation_re (trim value)) then Some msg_letters
  else None.

Definition rule_park_img_url (value : jsstring) : option jsstring :=
  if negb (truthy (trim value)) then Some msg_url_required
  else if negb (test img_url_re value) then Some msg_url_invalid
  else None.

Definition rule_park_address (value : jsstring) : option jsstring :=
  if negb (truthy (trim value)) then Some msg_address_required
  else if (length value <? 10)%nat then Some msg_min10
  else if (150 <? length value)%nat then Some msg_max150
  else None.

Definition rule_park_city (value : jsstring) : option jsstring :=
  if negb (truthy value) then Some msg_city_required
  else if negb (includes validCities value) then Some msg_city_invalid
  else None.

Definition rule_park_zip_code (value : jsstring) : option jsstring :=
  if negb (truthy value) then Some msg_zip_required
  else if negb (test zip_code_re value) then Some msg_zip_invalid
  else None.

Definition rule_park_latitude (value : jsstring) : option jsstring :=
  if negb (truthy value) then Some msg_latitude_required
  else if Num.isNaN (ToNumber value)
          || Num.lt (ToNumber value) (Num.Fin 20)
          || Num.gt (ToNumber value) (Num.Fin (43 # 2))
       then Some msg_latitude_invalid
  else None.

Definition rule_park_longitude (value : jsstring) : option jsstring :=
  if negb (truthy value) then Some msg_longitude_required
  else if Num.isNaN (ToNumber value)
          || Num.lt (ToNumber value) (Num.Fin (-105))
          || Num.gt (ToNumber value) (Num.Fin (-102))
       then Some msg_longitude_invalid
  else None.

(** [validationRules[key]]: the rule of a key, or nothing
    ([undefined]) for a key without one. *)
Definition validationRules (key : field) : option (jsstring -> option jsstring) :=
  match key with
  | park_name => Some rule_park_name
  | park_abbreviation => Some rule_park_abbreviation
  | park_img_url => Some rule_park_img_url
  | park_address => Some rule_park_address
  | park_city => Some rule_park_city
  | park_state => None
  | park_zip_code => Some rule_park_zip_code
  | park_latitude => Some rule_park_latitude
  | park_longitude => Some rule_park_longitude
  end.

(** [validationRules[key]?.(value)]: [null] and [undefined] are both
    [None]. *)
Definition apply_rule (key : field) (value : jsstring) : option jsstring :=
  match validationRules key with
  | Some rule => rule value
  | None => None
  end.

(** Truthiness of [error]: a non-empty string. *)
Definition is_error (error : option jsstring) : bool :=
  match error with Some m => truthy m | None => false end.

(** [validate(name, value)], on the [errors] state: the new state and
    the returned boolean. *)
Definition validate (name : field) (value : jsstring) (errors : errors_t)
  : errors_t * bool :=
  let error := apply_rule name value in
  (<[name := if is_error error then error else None]> errors,
   negb (is_error error)).

(** The draft. *)
Record formData_t : Type := mkFormData {
  fd_park_name : jsstring;
  fd_park_abbreviation : jsstring;
  fd_park_img_url : jsstring;
  fd_park_address : jsstring;
  fd_park_city : jsstring;
  fd_park_state : jsstring;
  fd_park_zip_code : jsstring;
  fd_park_latitude : jsstring;
  fd_park_longitude : jsstring
}.

(** [Object.keys(formData)], in insertion order. *)
Definition keys : list field :=
  [ park_name; park_abbreviation; park_img_url; park_address; park_city;
    park_state; park_zip_code; park_latitude; park_longitude ].

(** [formData[key]] *)
Definition get (formData : formData_t) (key : field) : jsstring :=
  match key with
  | park_name => fd_park_name formData
  | park_abbreviation => fd_park_abbreviation formData
  | park_img_url => fd_park_img_url formData
  | park_address => fd_park_address formData
  | park_city => fd_park_city formData
  | park_state => fd_park_state formData
  | park_zip_code => fd_park_zip_code formData
  | park_latitude => fd_park_latitude formData
  | park_longitude => fd_park_longitude formData
  end.

(** [{ ...prev, [name]: value }] *)
Definition set (name : field) (value : jsstring) (prev : formData_t) : formData_t :=
  match name with
  | park_name => mkFormData value (fd_park_abbreviation prev) (fd_park_img_url prev) (fd_park_address prev) (fd_park_city prev) (fd_park_state prev) (fd_park_zip_code prev) (fd_park_latitude prev) (fd_park_longitude prev)
  | park_abbreviation => mkFormData (fd_park_name prev) value (fd_park_img_url prev) (fd_park_address prev) (fd_park_city prev) (fd_park_state prev) (fd_park_zip_code prev) (fd_park_latitude prev) (fd_park_longitude prev)
  | park_img_url => mkFormData (fd_park_name prev) (fd_park_abbreviation prev) value (fd_park_address prev) (fd_park_city prev) (fd_park_state prev) (fd_park_zip_code prev) (fd_park_latitude prev) (fd_park_longitude prev)
  | park_address => mkFormData (fd_park_name prev) (fd_park_abbreviation prev) (fd_park_img_url prev) value (fd_park_city prev) (fd_park_state prev) (fd_park_zip_code prev) (fd_park_latitude prev) (fd_park_longitude prev)
  | park_city => mkFormData (fd_park_name prev) (fd_park_abbreviation prev) (fd_park_img_url prev) (fd_park_address prev) value (fd_park_state prev) (fd_park_zip_code prev) (fd_park_latitude prev) (fd_park_longitude prev)
  | park_state => mkFormData (fd_park_name prev) (fd_park_abbreviation prev) (fd_park_img_url prev) (fd_park_address prev) (fd_park_city prev) value (fd_park_zip_code prev) (fd_park_latitude prev) (fd_park_longitude prev)
  | park_zip_code => mkFormData (fd_park_name prev) (fd_park_abbreviation prev) (fd_park_img_url prev) (fd_park_address prev) (fd_park_city prev) (fd_park_state prev) value (fd_park_latitude prev) (fd_park_longitude prev)
  | park_latitude => mkFormData (fd_park_name prev) (fd_park_abbreviation prev) (fd_park_img_url prev) (fd_park_address prev) (fd_park_city prev) (fd_park_state prev) (fd_park_zip_code prev) value (fd_park_longitude prev)
  | park_longitude => mkFormData (fd_park_name prev) (fd_park_abbreviation prev) (fd_park_img_url prev) (fd_park_address prev) (fd_park_city prev) (fd_park_state prev) (fd_park_zip_code prev) (fd_park_latitude prev) value
  end.

(** One turn of the [forEach] of [validateAll]. *)
Definition validateAll_step (formData : formData_t)
    (acc : errors_t * bool) (key : field) : errors_t * bool :=
  let error := apply_rule key (get formData key) in
  if is_error error then (<[key := error]> (fst acc), false) else acc.

(** [validateAll(formData)]: the object passed to [setErrors] and the
    returned [isValid]. *)
Definition validateAll (formData : formData_t) : errors_t * bool :=
  foldl (validateAll_step formData) (∅, true) keys.

End Rules.

End Validation.

(** ** Effects of the handlers

    A handler run is described by the observable effects it performs,
    in order: the dialogs it opens, the HTTP calls it issues, the
    navigation and the callbacks it triggers. HTML bodies, colours and
    timers of the dialogs are presentation and are left out. *)

Module Flow.
Import Validation.

Definition decimal_of_nat (n : nat) : jsstring :=
  js (DecimalString.NilZero.string_of_uint (Nat.to_uint n)).

Definition decimal_of_Z (z : Z) : jsstring :=
  js (DecimalString.NilZero.string_of_int (Z.to_int z)).

Inductive icon : Type := warning | error | question | success | info.

(** The options of a [Swal.fire] call that matter here. *)
Record dialog : Type := mkDialog {
  d_icon : option icon;
  d_title : jsstring;
  d_text : option jsstring;
  d_showCancelButton : bool;
  d_confirmButtonText : option jsstring
}.

(** [showAlert(type, title, text)] without further options. *)
Definition showAlert (type : icon) (title text : jsstring) : dialog :=
  mkDialog (Some type) title (Some text) false None.

(** [{ showCancelButton: true, confirmButtonText: 'Reintentar',
       cancelButtonText: 'Cancelar' }] *)
Definition with_retry (d : dialog) : dialog :=
  mkDialog (d_icon d) (d_title d) (d_text d) true (Some (js "Reintentar")).

Definition offers_retry (d : dialog) : bool :=
  d_showCancelButton d && bool_decide (d_confirmButtonText d = Some (js "Reintentar")).

Inductive http_method : Type := GET | POST | PUT | DELETE.

(** An HTTP call through the shared client instance: the per-call
    [timeout] option is absent where the call site passes none. The
    draft is the one the request payload is computed from. *)
Record http_call : Type := mkCall {
  c_method : http_method;
  c_url : jsstring;
  c_timeout : option Z;
  c_draft : option formData_t
}.

Inductive event : Type :=
| Fire (d : dialog)
| Call (c : http_call)
| Navigate (path : jsstring) (refresh : bool)
| ParkDeleted (id : option Z)
| Reload.

(** The HTTP calls of a run, in order. *)
Fixpoint calls (t : list event) : list http_call :=
  match t with
  | [] => []
  | Call c :: r => c :: calls r
  | _ :: r => calls r
  end.

(** What a rejected call carries: [error.response?.status],
    [error.response?.data?.message], [error.response?.data?.error],
    [error.code] and [error.message]. *)
Record axios_error : Type := mkError {
  e_status : option Z;
  e_data_message : option jsstring;
  e_data_error : option jsstring;
  e_code : option jsstring;
  e_message : option jsstring
}.

Inductive outcome : Type :=
| Resolved (status : Z)
| Rejected (e : axios_error).

Definition status_is (e : axios_error) (n : Z) : bool :=
  bool_decide (e_status e = Some n).

Definition code_is (e : axios_error) (c : string) : bool :=
  bool_decide (e_code e = Some (js c)).

(** What the environment answers during one invocation of a handler:
    [navigator.onLine] at its start, the answer to the confirmation
    dialog, the outcome of the HTTP call, the answer to the retry
    dialog, and [navigator.onLine] when the failure is classified. *)
Record round : Type := mkRound {
  online : bool;
  confirmed : bool;
  result : outcome;
  retry : bool;
  online_after : bool
}.

End Flow.

(** ** The create form (ParkForm.jsx) *)

Module ParkForm.
Import Validation Flow.

Record state : Type := mkState {
  formData : formData_t;
  errors : errors_t;
  isSubmitting : bool
}.

Definition initial_formData : formData_t :=
  mkFormData [] [] [] [] [] (js "Jalisco") [] [] [].

Definition initial : state := mkState initial_formData ∅ false.

Section Handlers.
Variable ToNumber : jsstring -> Num.jsnum.

(** [handleChange] followed by its delayed [validate(name, value)]. *)
Definition handleChange (name : field) (value : jsstring) (st : state) : state :=
  mkState (set name value (formData st))
          (fst (validate ToNumber name value (errors st)))
          (isSubmitting st).

Definition offline_dialog : dialog :=
  showAlert warning (js "Sin conexión") (js "Verifica tu conexión a internet").

(** [`Corrige ${errorCount} campo(s) con errores`] *)
Definition incomplete_dialog (errorCount : nat) : dialog :=
  showAlert error (js "Formulario incompleto")
    (js "Corrige " ++ decimal_of_nat errorCount ++ js " campo(s) con errores").

Definition confirm_dialog (fd : formData_t) : dialog :=
  mkDialog (Some question) (js "¿Crear parque?")
    (Some (js "Nombre: " ++ fd_park_name fd ++ [10] ++ js "Ciudad: " ++ fd_park_city fd))
    true (Some (js "Crear")).

Definition progress_dialog : dialog :=
  mkDialog None (js "Creando parque...") None false None.

Definition success_dialog (fd : formData_t) : dialog :=
  showAlert success (js "¡Éxito!") (fd_park_name fd ++ js " creado correctamente").

(** The [catch] block's message. *)
Definition classify (e : axios_error) : jsstring :=
  if status_is e 422 then js "Datos inválidos"
  else if status_is e 409 then js "Parque duplicado"
  else if status_is e 500 then js "Error del servidor"
  else if code_is e "ECONNABORTED" then js "Tiempo agotado"
  else js "Error desconocido".

Definition failure_dialog (e : axios_error) : dialog :=
  with_retry (showAlert error (js "Error") (classify e)).

Definition post_call (fd : formData_t) : http_call :=
  mkCall POST (js "/parks") (Some 15000%Z) (Some fd).

(** [handleSubmit(e)]. The handler closes over the [formData] and
    [errors] of the render it was created in; the recursive call on
    retry is a call of the same closure, so it sees the same two
    values. [st] is the component state its setters act on. *)
Fixpoint handleSubmit (formData : formData_t) (errors : errors_t)
    (script : list round) (st : state) : list event * state :=
  match script with
  | [] => ([], st)
  | r :: rest =>
    if negb (online r) then ([Fire offline_dialog], st)
    else
      let '(newErrors, isValid) := validateAll ToNumber formData in
      let st1 := mkState (ParkForm.formData st) newErrors (isSubmitting st) in
      if negb isValid then
        let errorCount := size errors in
        ([Fire (incomplete_dialog errorCount)], st1)
      else if negb (confirmed r) then ([Fire (confirm_dialog formData)], st1)
      else
        let before := [Fire (confirm_dialog formData); Fire progress_dialog;
                       Call (post_call formData)] in
        match result r with
        | Resolved _ =>
          (before ++ [Fire (success_dialog formData); Navigate (js "/") true],
           mkState initial_formData ∅ false)
        | Rejected e =>
          let shown := before ++ [Fire (failure_dialog e)] in
          let st2 := mkState (ParkForm.formData st) newErrors false in
          if retry r then
            let '(more, st3) := handleSubmit formData errors rest st2 in
            (shown ++ more, st3)
          else (shown, st2)
        end
  end.

(** The submit button: the handler of the current render. *)
Definition submit (script : list round) (st : state) : list event * state :=
  handleSubmit (formData st) (errors st) script st.

End Handlers.

End ParkForm.

(** ** [JSON.stringify] on objects whose values are strings *)

Module JSON.

Definition hex (n : N) : N := if n <? 10 then 48 + n else 87 + n.

(** [\uXXXX], lower-case hexadecimal. *)
Definition unicode_escape (c : N) : jsstring :=
  js "\u" ++ [hex (c / 4096); hex ((c / 256) mod 16); hex ((c / 16) mod 16); hex (c mod 16)].

Definition isHighSurrogate (c : N) : bool := (55296 <=? c) && (c <=? 56319).
Definition isLowSurrogate (c : N) : bool := (56320 <=? c) && (c <=? 57343).

(** QuoteJSONString without the enclosing quotes: the two-character
    escapes, [\uXXXX] for the other control characters and for lone
    surrogates, everything else as it is. *)
Fixpoint escape (s : jsstring) : jsstring :=
  match s with
  | [] => []
  | c :: r =>
    if c =? 8 then js "\b" ++ escape r
    else if c =? 9 then js "\t" ++ escape r
    else if c =? 10 then js "\n" ++ escape r
    else if c =? 12 then js "\f" ++ escape r
    else if c =? 13 then js "\r" ++ escape r
    else if c =? 34 then [92; 34] ++ escape r
    else if c =? 92 then js "\\" ++ escape r
    else if c <? 32 then unicode_escape c ++ escape r
    else if isHighSurrogate c then
      match r with
      | d :: r' =>
        if isLowSurrogate d then c :: d :: escape r'
        else unicode_escape c ++ escape r
      | [] => unicode_escape c
      end
    else if isLowSurrogate c then unicode_escape c ++ escape r
    else c :: escape r
  end.

Definition quote (s : jsstring) : jsstring := [34] ++ escape s ++ [34].

Definition member (kv : jsstring * jsstring) : jsstring :=
  quote (fst kv) ++ js ":" ++ quote (snd kv).

Fixpoint join (sep : jsstring) (l : list jsstring) : jsstring :=
  match l with
  | [] => []
  | [x] => x
  | x :: r => x ++ sep ++ join sep r
  end.

(** [JSON.stringify] of an object given as its entries in insertion
    order. *)
Definition stringify (entries : list (jsstring * jsstring)) : jsstring :=
  js "{" ++ join (js ",") (map member entries) ++ js "}".

(** The text after the opening brace. *)
Definition body (entries : list (jsstring * jsstring)) : jsstring :=
  join (js ",") (map member entries) ++ js "}".

(** A reader of quoted strings, the inverse of [escape] up to the
    closing quote; it serves to show that [stringify] loses nothing. *)
Definition unhex (c : N) : option N :=
  if (48 <=? c) && (c <=? 57) then Some (c - 48)
  else if (97 <=? c) && (c <=? 102) then Some (c - 87)
  else None.

Definition unescape_char (e : N) : option N :=
  if e =? 98 then Some 8
  else if e =? 116 then Some 9
  else if e =? 110 then Some 10
  else if e =? 102 then Some 12
  else if e =? 114 then Some 13
  else if e =? 34 then Some 34
  else if e =? 92 then Some 92
  else None.

Fixpoint read_string (s : jsstring) : option (jsstring * jsstring) :=
  match s with
  | [] => None
  | c :: rest =>
    if c =? 34 then Some ([], rest)
    else if c =? 92 then
      match rest with
      | [] => None
      | e :: rest1 =>
        if e =? 117 then
          match rest1 with
          | a :: b :: c' :: d :: rest2 =>
            match unhex a, unhex b, unhex c', unhex d, read_string rest2 with
            | Some x3, Some x2, Some x1, Some x0, Some (str, after) =>
              Some ((x3 * 4096 + x2 * 256 + x1 * 16 + x0) :: str, after)
            | _, _, _, _, _ => None
            end
          | _ => None
          end
        else
          match unescape_char e, read_string rest1 with
          | Some ch, Some (str, after) => Some (ch :: str, after)
          | _, _ => None
          end
      end
    else
      match read_string rest with
      | Some (str, after) => Some (c :: str, after)
      | None => None
      end
  end.

End JSON.

(** ** Park records *)

Module Park.

(** A park as the server sends it; an absent or [null] property is
    [None]. The numeric properties are kept in their [toString()]
    form. *)
Record park : Type := mkPark {
  id : option Z;
  p_name : option jsstring;
  p_abbreviation : option jsstring;
  p_img_url : option jsstring;
  p_img_uri : option jsstring;
  p_address : option jsstring;
  p_city : option jsstring;
  p_state : option jsstring;
  p_zip_code : option jsstring;
  p_latitude : option jsstring;
  p_longitude : option jsstring
}.

(** [x || d] on an optional string. *)
Definition or_else (x : option jsstring) (d : jsstring) : jsstring :=
  match x with
  | Some s => if truthy s then s else d
  | None => d
  end.

End Park.

(** ** The edit form (ParkEditForm.jsx) *)

Module ParkEditForm.
Import Validation Flow Park.

(** The record [parkData] built by the load effect. *)
Definition parkData (p : park) : formData_t :=
  mkFormData (or_else (p_name p) []) (or_else (p_abbreviation p) [])
             (or_else (p_img_url p) []) (or_else (p_address p) [])
             (or_else (p_city p) []) (or_else (p_state p) (js "Jalisco"))
             (or_else (p_zip_code p) []) (or_else (p_latitude p) [])
             (or_else (p_longitude p) []).

(** [originalData] starts as the empty object and holds [parkData]
    once the park is loaded. *)
Record state : Type := mkState {
  formData : formData_t;
  originalData : option formData_t;
  errors : errors_t;
  isSubmitting : bool
}.

Definition initial : state :=
  mkState (mkFormData [] [] [] [] [] (js "Jalisco") [] [] []) None ∅ false.

(** The successful branch of the load effect: [setFormData(parkData)],
    [setOriginalData(parkData)]. *)
Definition loaded (p : park) (st : state) : state :=
  mkState (parkData p) (Some (parkData p)) (errors st) (isSubmitting st).

Definition get_call (id : jsstring) : http_call :=
  mkCall GET (js "/parks/" ++ id) (Some 10000%Z) None.

Definition field_name (f : field) : jsstring :=
  match f with
  | park_name => js "park_name"
  | park_abbreviation => js "park_abbreviation"
  | park_img_url => js "park_img_url"
  | park_address => js "park_address"
  | park_city => js "park_city"
  | park_state => js "park_state"
  | park_zip_code => js "park_zip_code"
  | park_latitude => js "park_latitude"
  | park_longitude => js "park_longitude"
  end.

Definition entries (fd : formData_t) : list (jsstring * jsstring) :=
  map (fun k => (field_name k, get fd k)) keys.

Definition stringify_formData (fd : formData_t) : jsstring :=
  JSON.stringify (entries fd).

Definition stringify_originalData (o : option formData_t) : jsstring :=
  match o with
  | Some fd => JSON.stringify (entries fd)
  | None => JSON.stringify []
  end.

(** [hasChanges()] *)
Definition hasChanges (formData : formData_t) (originalData : option formData_t) : bool :=
  negb (jsstring_eqb (stringify_formData formData) (stringify_originalData originalData)).

#[global] Arguments hasChanges : simpl never.

Section Handlers.
Variable ToNumber : jsstring -> Num.jsnum.

Definition handleChange (name : field) (value : jsstring) (st : state) : state :=
  mkState (set name value (formData st)) (originalData st)
          (fst (validate ToNumber name value (errors st)))
          (isSubmitting st).

Definition offline_dialog : dialog :=
  showAlert warning (js "Sin conexión") (js "Verifica tu conexión a internet").

Definition incomplete_dialog (errorCount : nat) : dialog :=
  showAlert error (js "Formulario incompleto")
    (js "Corrige " ++ decimal_of_nat errorCount ++ js " campo(s) con errores").

Definition no_changes_dialog : dialog :=
  showAlert info (js "Sin cambios") (js "No se detectaron modificaciones en el parque").

Definition confirm_dialog : dialog :=
  mkDialog (Some question) (js "¿Actualizar parque?") None true (Some (js "Sí, actualizar")).

Definition progress_dialog : dialog :=
  mkDialog None (js "Actualizando parque...")
    (Some (js "Por favor espera mientras guardamos los cambios")) false None.

Definition success_dialog (fd : formData_t) : dialog :=
  showAlert success (js "¡Parque actualizado!")
    (fd_park_name fd ++ js " se actualizó correctamente").

(** The [catch] block's title and message. *)
Definition classify (e : axios_error) : jsstring * jsstring :=
  if status_is e 422 then
    (js "Datos inválidos", js "Los datos enviados no son válidos. Revisa todos los campos.")
  else if status_is e 404 then
    (js "Parque no encontrado", js "El parque ya no existe o fue eliminado.")
  else if status_is e 409 then
    (js "Conflicto de datos", js "Ya existe otro parque con ese nombre o abreviación.")
  else if status_is e 500 then
    (js "Error del servidor", js "Problema en el servidor. Intenta más tarde.")
  else if code_is e "ECONNABORTED" then
    (js "Tiempo agotado", js "La actualización tardó demasiado tiempo.")
  else (js "Error de actualización", js "Error desconocido al actualizar").

Definition failure_dialog (e : axios_error) : dialog :=
  with_retry (showAlert error (fst (classify e)) (snd (classify e))).

Definition put_call (id : jsstring) (fd : formData_t) : http_call :=
  mkCall PUT (js "/parks/" ++ id) (Some 15000%Z) (Some fd).

(** [handleSubmit(e)], closing over the route's [id] and over the
    [formData], [originalData] and [errors] of its render. *)
Fixpoint handleSubmit (id : jsstring) (formData : formData_t)
    (originalData : option formData_t) (errors : errors_t)
    (script : list round) (st : state) : list event * state :=
  match script with
  | [] => ([], st)
  | r :: rest =>
    if negb (online r) then ([Fire offline_dialog], st)
    else
      let '(newErrors, isValid) := validateAll ToNumber formData in
      let st1 := mkState (ParkEditForm.formData st) (ParkEditForm.originalData st)
                         newErrors (isSubmitting st) in
      if negb isValid then
        let errorCount := size errors in
        ([Fire (incomplete_dialog errorCount)], st1)
      else if negb (hasChanges formData originalData) then
        ([Fire no_changes_dialog], st1)
      else if negb (confirmed r) then ([Fire confirm_dialog], st1)
      else
        let before := [Fire confirm_dialog; Fire progress_dialog;
                       Call (put_call id formData)] in
        let st2 := mkState (ParkEditForm.formData st) (ParkEditForm.originalData st)
                           newErrors false in
        match result r with
        | Resolved status =>
          if bool_decide (status = 200%Z) || bool_decide (status = 201%Z) then
            (before ++ [Fire (success_dialog formData); Navigate (js "/") true], st2)
          else (before, st2)
        | Rejected e =>
          let shown := before ++ [Fire (failure_dialog e)] in
          if retry r then
            let '(more, st3) := handleSubmit id formData originalData errors rest st2 in
            (shown ++ more, st3)
          else (shown, st2)
        end
  end.

Definition submit (id : jsstring) (script : list round) (st : state)
  : list event * state :=
  handleSubmit id (formData st) (originalData st) (errors st) script st.

End Handlers.

End ParkEditForm.

(** ** The park card (ParkCard.jsx) *)

Module ParkCard.
Import Flow Park.

Record state : Type := mkState {
  isDeleting : bool;
  imageLoaded : bool;
  imageError : bool
}.

Definition initial : state := mkState false false false.

(** Truthiness of an optional string property. *)
Definition present (x : option jsstring) : bool :=
  match x with Some s => truthy s | None => false end.

Definition storageBase : jsstring := js "https://azuritaa33.sg-host.com/storage".

Definition placeholder : jsstring :=
  js "https://images.unsplash.com/photo-1441974231531-c6227db76b6e?w=400&h=300&fit=crop&q=80".

(** [getImageUrl()], on the card's [park] and its [imageError] flag. *)
Definition getImageUrl (park : park) (imageError : bool) : jsstring :=
  if present (p_img_url park) && negb imageError then
    default [] (p_img_url park)
  else if present (p_img_uri park) && negb imageError then
    storageBase ++ js "/" ++ default [] (p_img_uri park)
  else placeholder.

(** What happens to the card's image element. *)
Inductive image_event : Type :=
| onLoad
| onError
| loadedTimer.

(** The handlers of the [img] element: [onLoad], [onError] and the
    timer [onError] starts. *)
Definition image_step (st : state) (ev : image_event) : state :=
  match ev with
  | onLoad => mkState (isDeleting st) true (imageError st)
  | onError =>
    if negb (imageError st) then mkState (isDeleting st) false true
    else st
  | loadedTimer => mkState (isDeleting st) true (imageError st)
  end.

Definition image_run (st : state) (evs : list image_event) : state :=
  foldl image_step st evs.

(** The [src] of the image on a render in state [st]. *)
Definition rendered_src (park : park) (st : state) : jsstring :=
  getImageUrl park (imageError st).

(** [`/parks/${park.id}`] *)
Definition id_text (id : option Z) : jsstring :=
  match id with Some z => decimal_of_Z z | None => js "undefined" end.

Definition delete_call (park : park) : http_call :=
  mkCall DELETE (js "/parks/" ++ id_text (id park)) (Some 15000%Z) None.

Definition offline_dialog : dialog :=
  mkDialog (Some warning) (js "Sin conexión")
    (Some (js "Verifica tu conexión a internet para eliminar el parque")) false None.

Definition confirm_dialog : dialog :=
  mkDialog (Some warning) (js "¿Eliminar parque?") None true
    (Some (js "Sí, eliminar permanentemente")).

Definition progress_dialog : dialog :=
  mkDialog None (js "Eliminando parque...") None false None.

Definition success_dialog : dialog :=
  mkDialog (Some success) (js "¡Parque eliminado exitosamente!") None false None.

(** The [catch] block's [errorConfig]: title and text. *)
Definition classify (e : axios_error) (online_now : bool) : jsstring * jsstring :=
  let title := js "Error al eliminar" in
  let text := js "No se pudo eliminar el parque" in
  if status_is e 404 then
    (js "Parque no encontrado", js "El parque ya no existe o fue eliminado previamente")
  else if status_is e 403 then
    (js "Sin permisos", js "No tienes permisos para eliminar este parque")
  else if status_is e 401 then
    (js "No autorizado", js "Tus credenciales han expirado. Actualiza la página")
  else if status_is e 500 then
    (js "Error del servidor", js "Hubo un problema en el servidor. Intenta más tarde")
  else if code_is e "ECONNABORTED" then
    (js "Tiempo agotado", js "La eliminación tardó demasiado tiempo. Verifica tu conexión")
  else if present (e_data_message e) then
    (title, default [] (e_data_message e))
  else if negb online_now then
    (js "Sin conexión", js "Se perdió la conexión a internet durante la eliminación")
  else (title, text).

Definition failure_dialog (e : axios_error) (online_now : bool) : dialog :=
  with_retry (mkDialog (Some error) (fst (classify e online_now))
                       (Some (snd (classify e online_now))) false None).

Section Delete.

(** The [onParkDeleted] prop, when the parent passes one: what it does
    to the collection the parent holds. *)
Variable onParkDeleted : option (option Z -> list park -> list park).

Definition notify_parent (id : option Z) (parks : list park) : list event * list park :=
  match onParkDeleted with
  | Some callback => ([ParkDeleted id], callback id parks)
  | None => ([], parks)
  end.

(** [handleDeleteClick()], on the card's [park]; [parks] is the
    collection held by the parent. *)
Fixpoint handleDeleteClick (park : park) (script : list round)
    (parks : list Park.park) : list event * list Park.park :=
  match script with
  | [] => ([], parks)
  | r :: rest =>
    if negb (online r) then ([Fire offline_dialog], parks)
    else if negb (confirmed r) then ([Fire confirm_dialog], parks)
    else
      let before := [Fire confirm_dialog; Fire progress_dialog;
                     Call (delete_call park)] in
      match result r with
      | Resolved _ =>
        let '(told, parks') := notify_parent (id park) parks in
        (before ++ [Fire success_dialog] ++ told, parks')
      | Rejected e =>
        let shown := before ++ [Fire (failure_dialog e (online_after r))] in
        if retry r then
          let '(more, parks') := handleDeleteClick park rest parks in
          (shown ++ more, parks')
        else (shown, parks)
      end
  end.

End Delete.

End ParkCard.

(** ** The delete hook (hooks/useDeletePark.js) *)

Module useDeletePark.
Import Flow.

Inductive delete_result : Type :=
| cancelled
| succeeded
| failed (errorMessage : jsstring).

Definition delete_call (parkId : jsstring) : http_call :=
  mkCall DELETE (js "/parks/" ++ parkId) None None.

Definition confirm_dialog : dialog :=
  mkDialog (Some warning) (js "¿Eliminar parque?") None true (Some (js "Sí, eliminar")).

Definition success_dialog (parkName : jsstring) : dialog :=
  mkDialog (Some success) (js "¡Eliminado!")
    (Some (js "El parque " ++ [34] ++ parkName ++ [34] ++ js " ha sido eliminado exitosamente."))
    false None.

Definition first_truthy (xs : list (option jsstring)) (d : jsstring) : jsstring :=
  foldr (fun x acc => match x with
                      | Some s => if truthy s then s else acc
                      | None => acc
                      end) d xs.

(** [error.response?.data?.message || error.response?.data?.error ||
     error.message || 'Error desconocido al eliminar el parque'] *)
Definition errorMessage (e : axios_error) : jsstring :=
  first_truthy [e_data_message e; e_data_error e; e_message e]
    (js "Error desconocido al eliminar el parque").

Definition failure_dialog (message : jsstring) : dialog :=
  mkDialog (Some error) (js "Error")
    (Some (js "No se pudo eliminar el parque: " ++ message)) false None.

(** The error thrown for a resolved call whose status is neither 200
    nor 204. *)
Definition unexpected_status (status : Z) : axios_error :=
  mkError None None None None (Some (js "Status inesperado: " ++ decimal_of_Z status)).

(** [deletePark(parkId, parkName)]: the hook asks once and calls once;
    a failure is shown and returned to the caller. *)
Definition deletePark (parkId parkName : jsstring) (r : round)
  : list event * delete_result :=
  if negb (confirmed r) then ([Fire confirm_dialog], cancelled)
  else
    let before := [Fire confirm_dialog; Call (delete_call parkId)] in
    let fail (e : axios_error) :=
      (before ++ [Fire (failure_dialog (errorMessage e))], failed (errorMessage e)) in
    match result r with
    | Resolved status =>
      if bool_decide (status = 200%Z) || bool_decide (status = 204%Z) then
        (before ++ [Fire (success_dialog parkName); Reload], succeeded)
      else fail (unexpected_status status)
    | Rejected e => fail e
    end.

End useDeletePark.

(** ** The home page (Home.jsx) and the detail page (ParkDetail.jsx) *)

Module Home.
Import Flow Park.

Inductive fetched : Type :=
| Listed (parks : list park)
| Failed (e : axios_error).

Record fetch_round : Type := mkFetch {
  f_online : bool;
  f_result : fetched;
  f_retry : bool
}.

(** [api.get("/parks", { headers, params })]: no [timeout] option. *)
Definition list_call : http_call := mkCall GET (js "/parks") None None.

Definition offline_dialog : dialog :=
  mkDialog (Some warning) (js "Sin conexión a internet")
    (Some (js "Verifica tu conexión y vuelve a intentar")) false (Some (js "Entendido")).

Definition loaded_dialog (n : nat) : dialog :=
  mkDialog (Some success) (js "¡Parques cargados!")
    (Some (js "Se cargaron " ++ decimal_of_nat n ++ js " parque(s) exitosamente")) false None.

Definition failure_text (e : axios_error) : jsstring :=
  match e_data_message e with
  | Some m =>
    if truthy m then m
    else js "No se pudieron cargar los parques. Verifica tu conexión a internet."
  | None => js "No se pudieron cargar los parques. Verifica tu conexión a internet."
  end.

Definition failure_dialog (e : axios_error) : dialog :=
  with_retry (mkDialog (Some error) (js "Error al cargar parques")
                       (Some (failure_text e)) false None).

(** [fetchParks()], on the [parks] state. *)
Fixpoint fetchParks (script : list fetch_round) (parks : list park)
  : list event * list park :=
  match script with
  | [] => ([], parks)
  | r :: rest =>
    if negb (f_online r) then ([Fire offline_dialog], parks)
    else
      match f_result r with
      | Listed ps =>
        ([Call list_call] ++ (if (0 <? length ps)%nat then [Fire (loaded_dialog (length ps))] else []),
         ps)
      | Failed e =>
        let shown := [Call list_call; Fire (failure_dialog e)] in
        if f_retry r then
          let '(more, parks') := fetchParks rest [] in
          (shown ++ more, parks')
        else (shown, [])
      end
  end.

End Home.

Module ParkDetail.
Import Flow.

(** [api.get(`/parks/${id}`, { timeout: 10000, headers })] *)
Definition get_call (id : jsstring) : http_call :=
  mkCall GET (js "/parks/" ++ id) (Some 10000%Z) None.

End ParkDetail.

(** ** The list (ParkList.jsx) *)

Module ParkList.
Import Park.

Inductive sort_key : Type := by_name | by_city | by_recent.

(** [String.prototype.startsWith] and [String.prototype.includes]. *)
Fixpoint startsWith (s t : jsstring) : bool :=
  match t, s with
  | [], _ => true
  | _ :: _, [] => false
  | b :: t', a :: s' => (a =? b) && startsWith s' t'
  end.

Fixpoint str_includes (s t : jsstring) : bool :=
  startsWith s t ||
  match s with
  | [] => false
  | _ :: s' => str_includes s' t
  end.

(** [Array.prototype.sort(compare)] is a stable sort: an element goes
    before the first one it does not compare greater than. *)
Section Sort.
Context {A : Type} (compare : A -> A -> Z).

Fixpoint insert_sorted (x : A) (l : list A) : list A :=
  match l with
  | [] => [x]
  | y :: r => if (compare x y <=? 0)%Z then x :: l else y :: insert_sorted x r
  end.

Definition sort (l : list A) : list A := foldr insert_sorted [] l.

End Sort.

Section View.

(** [String.prototype.toLowerCase] and [String.prototype.localeCompare]
    of the runtime. *)
Variable toLowerCase : jsstring -> jsstring.
Variable localeCompare : jsstring -> jsstring -> Z.

Variable searchTerm : jsstring.
Variable filterCity : jsstring.
Variable sortBy : sort_key.

(** [x?.toLowerCase().includes(searchTerm.toLowerCase())] *)
Definition field_matches (x : option jsstring) : bool :=
  match x with
  | Some s => str_includes (toLowerCase s) (toLowerCase searchTerm)
  | None => false
  end.

Definition matchesSearch (park : park) : bool :=
  negb (truthy searchTerm)
  || field_matches (p_name park)
  || field_matches (p_city park)
  || field_matches (p_state park)
  || field_matches (p_address park).

Definition matchesCity (park : park) : bool :=
  negb (truthy filterCity) || bool_decide (p_city park = Some filterCity).

(** [x || ''] and [x || 0] *)
Definition or_empty (x : option jsstring) : jsstring :=
  match x with Some s => s | None => [] end.

Definition or_zero (x : option Z) : Z :=
  match x with Some z => z | None => 0%Z end.

(** The comparison function passed to [sort]; any other value of
    [sortBy] than ['city'] and ['recent'] compares by name. *)
Definition compare (a b : park) : Z :=
  match sortBy with
  | by_city => localeCompare (or_empty (p_city a)) (or_empty (p_city b))
  | by_recent => (or_zero (id b) - or_zero (id a))%Z
  | by_name => localeCompare (or_empty (p_name a)) (or_empty (p_name b))
  end.

Definition filteredAndSortedParks (parks : list park) : list park :=
  let filtered := List.filter (fun park => matchesSearch park && matchesCity park) parks in
  sort compare filtered.

End View.

(** [handleParkDeleted(deletedParkId)], with the [onParksUpdate] prop
    being the setter of the collection when it is given. *)
Definition handleParkDeleted (onParksUpdate : bool) (deletedParkId : option Z)
    (parks : list park) : list park :=
  if onParksUpdate then
    List.filter (fun park => negb (bool_decide (id park = deletedParkId))) parks
  else parks.

End ParkList.

(** ** The record client: the HTTP call of each operation

    The calls go through one shared client instance (api/axios.js); a
    call that passes no [timeout] of its own runs under the instance's
    default. *)

Module Client.
Import Validation Flow.

Inductive operation : Type :=
| list
| get (id : jsstring)
| create (draft : formData_t)
| update (id : jsstring) (draft : formData_t)
| delete (park : Park.park).

(** The call each operation issues, at the call site the pages use:
    the home page lists, the detail page and the edit form get, the
    create form creates, the edit form updates, the card deletes. *)
Definition call_of (op : operation) : http_call :=
  match op with
  | list => Home.list_call
  | get id => ParkEditForm.get_call id
  | create draft => ParkForm.post_call draft
  | update id draft => ParkEditForm.put_call id draft
  | delete park => ParkCard.delete_call park
  end.



End Client.

(** ** The rules as the specification words them

    Each field's rule in declarative form, to be compared with the
    rule functions above. *)

Module Spec.
Import Validation.

(** The length bounds stated for a field. *)
Definition bounds (f : field) : option (nat * nat) :=
  match f with
  | park_name => Some (3, 100)
  | park_abbreviation => Some (2, 10)
  | park_address => Some (10, 150)
  | _ => None
  end%nat.

Definition within_bounds (f : field) (v : jsstring) : Prop :=
  match bounds f with
  | Some (lo, hi) => (lo <= length v <= hi)%nat
  | None => True
  end.


(** Letters, accented letters and spaces, as the patterns list them. *)
Definition is_letter (c : N) : Prop := letter c = true.
Definition is_letter_or_space (c : N) : Prop := letter c = true \/ isWhiteSpace c = true.

(** Equal up to the case of ASCII letters. *)
Definition eq_ignore_case (a b : jsstring) : Prop :=
  map asciiUpper a = map asciiUpper b.

Definition one_line (s : jsstring) : Prop :=
  Forall (fun c => isLineTerminator c = false) s.

(** An absolute http(s) URL ending in a recognized image extension,
    with an optional query string. *)
Definition image_url (v : jsstring) : Prop :=
  exists scheme body ext query,
    v = scheme ++ js "://" ++ body ++ js "." ++ ext ++ query
    /\ (eq_ignore_case scheme (js "http") \/ eq_ignore_case scheme (js "https"))
    /\ body <> [] /\ one_line body
    /\ (eq_ignore_case ext (js "jpg") \/ eq_ignore_case ext (js "jpeg")
        \/ eq_ignore_case ext (js "png") \/ eq_ignore_case ext (js "webp"))
    /\ (query = [] \/ exists q, query = js "?" ++ q /\ one_line q).

(** Two fixed leading-digit prefixes, 44 and 45, followed by three
    digits. *)
Definition regional_zip (v : jsstring) : Prop :=
  exists d1 d2 d3 d4,
    v = [52; d1; d2; d3; d4]
    /\ (d1 = 52 \/ d1 = 53)
    /\ (48 <= d2 <= 57) /\ (48 <= d3 <= 57) /\ (48 <= d4 <= 57).

Definition numeric_within (ToNumber : jsstring -> Num.jsnum)
    (lo hi : Q) (v : jsstring) : Prop :=
  v <> [] /\ exists q, ToNumber v = Num.Fin q /\ (lo <= q)%Q /\ (q <= hi)%Q.

(** A value that satisfies its field's rule. For the address the
    emptiness is that of the trimmed value, as for the name. *)
Definition satisfies (ToNumber : jsstring -> Num.jsnum)
    (f : field) (v : jsstring) : Prop :=
  match f with
  | park_name =>
    trim v <> [] /\ within_bounds park_name v /\ Forall is_letter_or_space v
  | park_abbreviation =>
    v <> [] /\ within_bounds park_abbreviation v /\ Forall is_letter v
  | park_img_url => v <> [] /\ image_url v
  | park_address => trim v <> [] /\ within_bounds park_address v
  | park_city => In v validCities
  | park_state => True
  | park_zip_code => regional_zip v
  | park_latitude => numeric_within ToNumber 20 (43 # 2) v
  | park_longitude => numeric_within ToNumber (-105) (-102) v
  end.


(** Every rule returns no error on the draft's value of its field. *)
Definition fully_valid (ToNumber : jsstring -> Num.jsnum) (r : formData_t) : Prop :=
  forall k, apply_rule ToNumber k (get r k) = None.

(** The eight fields with a rule. *)
Definition ruled_fields : gset field :=
  {[ park_name; park_abbreviation; park_img_url; park_address; park_city;
     park_zip_code; park_latitude; park_longitude ]}.

End Spec.

(** ** The derived view as the specification words it *)

Module ListSpec.
Import Park ParkList.


Section Spec.
Variable toLowerCase : jsstring -> jsstring.
Variable localeCompare : jsstring -> jsstring -> Z.
Variable searchTerm : jsstring.
Variable filterCity : jsstring.
Variable sortBy : sort_key.




End Spec.

(** A comparison by code units and a lower-casing of the ASCII
    letters: stand-ins for the runtime's functions where concrete ones
    are needed. *)
Fixpoint codeUnitCompare (a b : jsstring) : Z :=
  match a, b with
  | [], [] => 0%Z
  | [], _ :: _ => (-1)%Z
  | _ :: _, [] => 1%Z
  | x :: a', y :: b' =>
    if x <? y then (-1)%Z else if y <? x then 1%Z else codeUnitCompare a' b'
  end.

Definition asciiLower (s : jsstring) : jsstring :=
  map (fun c => if (65 <=? c) && (c <=? 90) then c + 32 else c) s.

End ListSpec.

(** ** Sample data *)

Module Samples.
Import Validation Flow Park.

(** A draft every rule accepts (the placeholders of the form). *)
Definition metropolitano : formData_t :=
  mkFormData (js "Parque Metropolitano") (js "PM")
             (js "https://ejemplo.com/imagen.jpg")
             (js "Av. Alcalde 1351, Col. Miraflores")
             (js "Zapopan") (js "Jalisco") (js "44100")
             (js "20.6597") (js "-103.3496").

(** A park the server holds with a stored image only: it has a
    server-relative [park_img_uri] and no [park_img_url]. *)
Definition stored_image_park : park :=
  mkPark (Some 7%Z) (Some (js "Parque Metropolitano")) (Some (js "PM"))
         None (Some (js "parks/7.jpg"))
         (Some (js "Av. Alcalde 1351, Col. Miraflores"))
         (Some (js "Zapopan")) (Some (js "Jalisco")) (Some (js "44100"))
         (Some (js "20.6597")) (Some (js "-103.3496")).

Definition timeout_error : axios_error :=
  mkError None None None (Some (js "ECONNABORTED"))
          (Some (js "timeout of 15000ms exceeded")).

Definition server_error : axios_error :=
  mkError (Some 500%Z) None None (Some (js "ERR_BAD_RESPONSE"))
          (Some (js "Request failed with status code 500")).

(** A create form in which eight fields were typed, the postal code
    with a value its rule rejects; the state field keeps its default
    and was not touched. *)
Definition typed_create_form : ParkForm.state :=
  foldl (fun st '(f, v) => ParkForm.handleChange Num.decimal f v st)
    ParkForm.initial
    [ (park_name, js "Parque Metropolitano"); (park_abbreviation, js "PM");
      (park_img_url, js "https://ejemplo.com/imagen.jpg");
      (park_address, js "Av. Alcalde 1351, Col. Miraflores");
      (park_city, js "Zapopan"); (park_zip_code, js "46100");
      (park_latitude, js "20.6597"); (park_longitude, js "-103.3496") ].

(** The same typing in an edit form loaded with a valid park. *)
Definition typed_edit_form : ParkEditForm.state :=
  foldl (fun st '(f, v) => ParkEditForm.handleChange Num.decimal f v st)
    (ParkEditForm.loaded
       (mkPark (Some 7%Z) (Some (js "Parque Metropolitano")) (Some (js "PM"))
               (Some (js "https://ejemplo.com/imagen.jpg")) None
               (Some (js "Av. Alcalde 1351, Col. Miraflores"))
               (Some (js "Zapopan")) (Some (js "Jalisco")) (Some (js "44100"))
               (Some (js "20.6597")) (Some (js "-103.3496")))
       ParkEditForm.initial)
    [ (park_name, js "Parque Metropolitano II"); (park_zip_code, js "46100") ].

(** The browser is online, the user confirms, the server answers 201. *)
Definition smooth_round : round := mkRound true true (Resolved 201) false true.

(** The call times out and the user asks to retry. *)
Definition timeout_then_retry : round :=
  mkRound true true (Rejected timeout_error) true true.

(** The user does not confirm the dialog shown first. *)
Definition declined_round : round := mkRound true false (Resolved 204) false true.


(** Three parks of a list. *)
Definition park_of (i : Z) (name city : string) : park :=
  mkPark (Some i) (Some (js name)) None None None None (Some (js city))
         (Some (js "Jalisco")) None None None.

Definition three_parks : list park :=
  [ park_of 1 "Parque Metropolitano" "Zapopan";
    park_of 2 "Bosque Los Colomos" "Guadalajara";
    park_of 3 "Parque Agua Azul" "Guadalajara" ].

End Samples.

(** ** Retry, as the handlers implement it

    What a handler shows for a failed call, and what follows. *)

Module Retry.
Import Flow.


(** A round after which the handler does not invoke itself again. *)
Definition final (r : round) : Prop :=
  (exists status, result r = Resolved status) \/ retry r = false.

End Retry.

(** ** What each rule accepts

    The rules in declarative form, with the characters judged on the
    trimmed value and the length on the raw one, as the rule functions
    do. *)

Module RuleSpec.
Import Validation Spec.

Definition accepted (ToNumber : jsstring -> Num.jsnum)
    (f : field) (v : jsstring) : Prop :=
  match f with
  | park_name =>
    trim v <> [] /\ within_bounds park_name v
    /\ Forall is_letter_or_space (trim v)
  | park_abbreviation =>
    trim v <> [] /\ within_bounds park_abbreviation v
    /\ Forall is_letter (trim v)
  | park_img_url => image_url v
  | park_address => trim v <> [] /\ within_bounds park_address v
  | park_city => In v validCities
  | park_state => True
  | park_zip_code => regional_zip v
  | park_latitude => numeric_within ToNumber 20 (43 # 2) v
  | park_longitude => numeric_within ToNumber (-105) (-102) v
  end.

End RuleSpec.

(** ** Typing into the create form *)

Module Typing.
Import Validation.

(** A sequence of change events, each with its delayed validation
    done: the field and the value typed. *)
Definition type_all (ToNumber : jsstring -> Num.jsnum)
    (st : ParkForm.state) (evs : list (field * jsstring)) : ParkForm.state :=
  foldl (fun st ev => ParkForm.handleChange ToNumber ev.1 ev.2 st) st evs.

(** The fields a sequence of change events touches. *)
Definition touched (evs : list (field * jsstring)) : gset field :=
  list_to_set (map fst evs).

(** The entries of [errors] are the rules' answers on the draft. *)
Definition in_step (ToNumber : jsstring -> Num.jsnum) (st : ParkForm.state) : Prop :=
  forall f x, ParkForm.errors st !! f = Some x ->
    x = apply_rule ToNumber f (get (ParkForm.formData st) f).

End Typing.

(** ** Consent and navigation in a run *)

Module Consent.
Import Flow.

(** The browser is online when the handler starts and the user
    confirms the dialog of that invocation. *)
Definition asked (r : round) : bool := online r && confirmed r.

Definition confirmations (script : list round) : nat :=
  length (List.filter asked script).

Definition navigates (e : event) : bool :=
  match e with Navigate _ _ => true | _ => false end.

Definition fires (e : event) : bool :=
  match e with Fire _ => true | _ => false end.

End Consent.

(** ** The edit page beyond submit (ParkEditForm.jsx): the load
    effect, the summary of changes and the back button *)

Module EditPage.
Import Validation Flow Park.

(** [String.prototype.replace] with a string pattern and a
    replacement without dollar signs: the first occurrence. *)
Fixpoint replace (s pat rep : jsstring) : jsstring :=
  if ParkList.startsWith s pat then rep ++ drop (length pat) s
  else match s with
       | [] => []
       | c :: r => c :: replace r pat rep
       end.

(** [key.replace('park_', '').replace('_', ' ')] *)
Definition label (key : field) : jsstring :=
  replace (replace (ParkEditForm.field_name key) (js "park_") []) (js "_") (js " ").

(** [originalData[key]]: [undefined] on the empty object. *)
Definition original_value (originalData : option formData_t) (key : field)
  : option jsstring :=
  match originalData with
  | Some o => Some (get o key)
  | None => None
  end.

(** [formData[key] !== originalData[key]] *)
Definition differs (formData : formData_t) (originalData : option formData_t)
    (key : field) : bool :=
  negb (bool_decide (Some (get formData key) = original_value originalData key)).

(** The text of a template hole holding [originalData[key]]. *)
Definition shown (x : option jsstring) : jsstring :=
  match x with Some s => s | None => js "undefined" end.

(** One line of the summary. *)
Definition change_line (formData : formData_t) (originalData : option formData_t)
    (key : field) : jsstring :=
  js "• " ++ label key ++ js ": " ++ [34] ++ shown (original_value originalData key)
  ++ [34] ++ js " → " ++ [34] ++ get formData key ++ [34].

(** The array [changes] built before the confirmation dialog. *)
Definition changes (formData : formData_t) (originalData : option formData_t)
  : list jsstring :=
  map (change_line formData originalData)
      (List.filter (differs formData originalData) keys).

(** What the dialog shows of it: [changes.slice(0, 5)] and, beyond
    five, the number of lines left out. *)
Definition shown_changes (cs : list jsstring) : list jsstring := take 5 cs.

Definition left_out (cs : list jsstring) : option nat :=
  if (5 <? length cs)%nat then Some (length cs - 5)%nat else None.

(** The back button. *)
Definition discard_dialog : dialog :=
  mkDialog (Some warning) (js "¿Descartar cambios?")
    (Some (js "Tienes cambios sin guardar que se perderán")) true
    (Some (js "Sí, descartar")).

Definition handleBack (formData : formData_t) (originalData : option formData_t)
    (isConfirmed : bool) : list event :=
  if ParkEditForm.hasChanges formData originalData then
    Fire discard_dialog :: (if isConfirmed then [Navigate (js "/") false] else [])
  else [Navigate (js "/") false].

(** *** The load effect *)

(** What the GET call delivers: the park found under
    [response.data.data || response.data], if any, or a rejection. *)
Inductive response : Type :=
| Got (park : option park)
| GetFailed (e : axios_error).

Record load_round : Type := mkLoad {
  l_online : bool;
  l_response : response;
  l_retry : bool
}.

Record page : Type := mkPage {
  form : ParkEditForm.state;
  loading : bool
}.

Definition initial_page : page := mkPage ParkEditForm.initial true.

Definition offline_dialog : dialog :=
  showAlert warning (js "Sin conexión") (js "Verifica tu conexión a internet").

Definition missing_id_dialog : dialog :=
  showAlert warning (js "ID faltante") (js "No se proporcionó un ID de parque válido").

Definition loaded_toast (name : jsstring) : dialog :=
  mkDialog (Some success) (js "Parque cargado")
    (Some (name ++ js " listo para editar")) false None.

(** The error thrown for a park without a name. *)
Definition incomplete_error : axios_error :=
  mkError None None None None (Some (js "Datos del parque incompletos")).

(** The [catch] block's title and message. *)
Definition classify (id : jsstring) (e : axios_error) : jsstring * jsstring :=
  if status_is e 404 then
    (js "Parque no encontrado", js "No existe un parque con ID: " ++ id)
  else if status_is e 500 then
    (js "Error del servidor", js "Problema en el servidor. Intenta más tarde.")
  else if code_is e "ECONNABORTED" then
    (js "Tiempo agotado", js "La carga tardó demasiado tiempo.")
  else (js "Error de carga", js "No se pudo cargar el parque").

Definition failure_dialog (id : jsstring) (e : axios_error) : dialog :=
  with_retry (showAlert error (classify id e).1 (classify id e).2).

(** The [catch] and [finally] blocks: the dialog, then a reload of
    the page or the way back to the list. *)
Definition fail (id : jsstring) (e : axios_error) (r : load_round) (pg : page)
  : list event * page :=
  ([Call (ParkEditForm.get_call id); Fire (failure_dialog id e)]
     ++ (if l_retry r then [Reload] else [Navigate (js "/") false]),
   mkPage (form pg) false).

(** [fetchPark()] *)
Definition fetchPark (id : jsstring) (r : load_round) (pg : page)
  : list event * page :=
  if negb (l_online r) then
    ([Fire offline_dialog; Navigate (js "/") false], pg)
  else
    match l_response r with
    | Got (Some p) =>
      if ParkCard.present (p_name p) then
        ([Call (ParkEditForm.get_call id);
          Fire (loaded_toast (default [] (p_name p)))],
         mkPage (ParkEditForm.loaded p (form pg)) false)
      else fail id incomplete_error r pg
    | Got None => fail id incomplete_error r pg
    | GetFailed e => fail id e r pg
    end.

(** The effect: [fetchPark()] when the route has an id. *)
Definition load (id : option jsstring) (r : load_round) (pg : page)
  : list event * page :=
  match id with
  | Some i =>
    if truthy i then fetchPark i r pg
    else ([Fire missing_id_dialog; Navigate (js "/") false], pg)
  | None => ([Fire missing_id_dialog; Navigate (js "/") false], pg)
  end.

End EditPage.

(** ** The detail page (ParkDetail.jsx) *)

Module DetailPage.
Import Flow Park.

Record state : Type := mkState {
  park : option Park.park;
  loading : bool;
  imageLoaded : bool;
  imageError : bool
}.

Definition initial : state := mkState None true false false.

Definition placeholder : jsstring :=
  js "https://images.unsplash.com/photo-1441974231531-c6227db76b6e?w=800&h=400&fit=crop&q=80".

(** [getImageUrl(park)], on the page's [imageError] flag. *)
Definition getImageUrl (park : Park.park) (imageError : bool) : jsstring :=
  if ParkCard.present (p_img_url park) && negb imageError then
    default [] (p_img_url park)
  else if ParkCard.present (p_img_uri park) && negb imageError then
    js "https://azuritaa33.sg-host.com/storage/" ++ default [] (p_img_uri park)
  else placeholder.

(** The handlers of the [img] element: [onLoad] and [onError]. *)
Inductive image_event : Type :=
| onLoad
| onError.

Definition image_step (st : state) (ev : image_event) : state :=
  match ev with
  | onLoad => mkState (park st) (loading st) true (imageError st)
  | onError =>
    if negb (imageError st) then mkState (park st) (loading st) (imageLoaded st) true
    else st
  end.

Definition image_run (st : state) (evs : list image_event) : state :=
  foldl image_step st evs.

Definition home : event := Navigate (js "/") false.

Definition offline_dialog : dialog :=
  mkDialog (Some warning) (js "Sin conexión")
    (Some (js "Verifica tu conexión a internet")) false None.

Definition not_found_dialog (id : jsstring) : dialog :=
  mkDialog (Some error) (js "Parque no encontrado")
    (Some (js "No existe el parque con ID: " ++ id)) false
    (Some (js "Volver al inicio")).

Definition server_dialog : dialog :=
  mkDialog (Some error) (js "Error del servidor")
    (Some (js "Problema en el servidor. Intenta más tarde.")) true
    (Some (js "Reintentar")).

Definition connection_dialog : dialog :=
  mkDialog (Some error) (js "Error de conexión")
    (Some (js "No se pudo conectar con el servidor")) true
    (Some (js "Reintentar")).

Definition set_loading (b : bool) (st : state) : state :=
  mkState (park st) b (imageLoaded st) (imageError st).

(** What one invocation answers with: the park to show, or the error
    its [catch] block receives. *)
Definition received (r : EditPage.load_round) : Park.park + axios_error :=
  match EditPage.l_response r with
  | EditPage.Got (Some p) =>
    if ParkCard.present (p_name p) then inl p else inr EditPage.incomplete_error
  | EditPage.Got None => inr EditPage.incomplete_error
  | EditPage.GetFailed e => inr e
  end.

(** [fetchPark()], on the page's state; the retry button calls it
    again. *)
Fixpoint fetchPark (id : jsstring) (script : list EditPage.load_round)
    (st : state) : list event * state :=
  match script with
  | [] => ([], st)
  | r :: rest =>
    if negb (EditPage.l_online r) then ([Fire offline_dialog], set_loading false st)
    else
      match received r with
      | inl p =>
        ([Call (ParkDetail.get_call id)],
         mkState (Some p) false (imageLoaded st) (imageError st))
      | inr e =>
        if status_is e 404 then
          ([Call (ParkDetail.get_call id); Fire (not_found_dialog id); home],
           set_loading false st)
        else
          let shown :=
            [Call (ParkDetail.get_call id);
             Fire (if status_is e 500 then server_dialog else connection_dialog)] in
          if EditPage.l_retry r then
            let '(more, st') := fetchPark id rest (set_loading false st) in
            (shown ++ more, st')
          else (shown ++ [home], set_loading false st)
      end
  end.

(** The effect: [fetchPark()] when the route has an id. *)
Definition load (id : option jsstring) (script : list EditPage.load_round)
    (st : state) : list event * state :=
  match id with
  | Some i => if truthy i then fetchPark i script st else ([home], st)
  | None => ([home], st)
  end.

(** The icon and the cancel button of a fired dialog. *)
Definition fired_icon (e : event) : option icon :=
  match e with Fire d => d_icon d | _ => None end.

Definition fired_cancel (e : event) : bool :=
  match e with Fire d => d_showCancelButton d | _ => false end.

End DetailPage.

(** ** The controls of the list (ParkList.jsx) and the cards of the
    two pages *)

Module ListControls.
Import Flow Park ParkList.

(** [[...new Set(xs)]]: the values in the order of their first
    occurrence; [seen] holds the ones met so far. *)
Fixpoint unique_from (seen xs : list (option jsstring)) : list (option jsstring) :=
  match xs with
  | [] => []
  | x :: r =>
    if bool_decide (x ∈ seen) then unique_from seen r
    else x :: unique_from (x :: seen) r
  end.

(** [cities]: the unique truthy cities, sorted by [sort()] without a
    comparison function, which orders strings by code units. *)
Definition cities (parks : list park) : list jsstring :=
  let uniqueCities :=
    List.filter ParkCard.present (unique_from [] (map p_city parks)) in
  sort ListSpec.codeUnitCompare (map (default []) uniqueCities).

Record controls : Type := mkControls {
  searchTerm : jsstring;
  filterCity : jsstring;
  sortBy : sort_key
}.

Definition initial : controls := mkControls [] [] by_name.

(** [clearFilters()] *)
Definition clearFilters (c : controls) : controls := mkControls [] [] by_name.

Section Render.
Variable toLowerCase : jsstring -> jsstring.
Variable localeCompare : jsstring -> jsstring -> Z.

Definition view (c : controls) (parks : list park) : list park :=
  filteredAndSortedParks toLowerCase localeCompare
    (searchTerm c) (filterCity c) (sortBy c) parks.

(** The main content: the cards, or one of the two empty states. *)
Inductive content : Type :=
| Cards (shown : list park)
| NoParks
| NoMatches.

Definition render (c : controls) (parks : list park) : content :=
  if (0 <? length (view c parks))%nat then Cards (view c parks)
  else if (length parks =? 0)%nat then NoParks
  else NoMatches.

End Render.

(** The delete button of a card rendered by the list, which passes
    [handleParkDeleted], and of a card rendered by the home page,
    which passes no [onParkDeleted]. *)
Definition list_card_delete (onParksUpdate : bool) (park : park)
    (script : list round) (parks : list Park.park) : list event * list Park.park :=
  ParkCard.handleDeleteClick (Some (handleParkDeleted onParksUpdate)) park script parks.

Definition home_card_delete (park : park)
    (script : list round) (parks : list Park.park) : list event * list Park.park :=
  ParkCard.handleDeleteClick None park script parks.

Definition told (e : event) : bool :=
  match e with ParkDeleted _ => true | _ => false end.

Definition untold (e : event) : bool := negb (told e).

End ListControls.

(** ** The request payload (ParkForm.jsx, ParkEditForm.jsx) *)

Module Payload.
Import Validation.

Record payload : Type := mkPayload {
  pl_park_name : jsstring;
  pl_park_abbreviation : jsstring;
  pl_park_img_url : jsstring;
  pl_park_address : jsstring;
  pl_park_city : jsstring;
  pl_park_state : jsstring;
  pl_park_zip_code : Num.jsnum;
  pl_park_latitude : Num.jsnum;
  pl_park_longitude : Num.jsnum
}.

Section Build.

(** [String.prototype.toUpperCase], [parseInt] and [parseFloat] of
    the runtime. *)
Variable toUpperCase : jsstring -> jsstring.
Variable parseInt : jsstring -> Num.jsnum.
Variable parseFloat : jsstring -> Num.jsnum.

(** [dataToSend] of the create form and [dataToUpdate] of the edit
    form. *)
Definition dataToSend (formData : formData_t) : payload :=
  mkPayload (trim (fd_park_name formData))
            (toUpperCase (trim (fd_park_abbreviation formData)))
            (trim (fd_park_img_url formData))
            (trim (fd_park_address formData))
            (fd_park_city formData)
            (trim (fd_park_state formData))
            (parseInt (fd_park_zip_code formData))
            (parseFloat (fd_park_latitude formData))
            (parseFloat (fd_park_longitude formData)).

End Build.

(** A reader of a leading run of decimal digits: it stands for
    [parseInt] where a concrete one is needed. *)
Definition leadingDigits (s : jsstring) : Num.jsnum :=
  match s with
  | [] => Num.NaN
  | c :: _ =>
    if Num.isDigit c then
      match Num.digits 0 s with
      | Some (i, _) => Num.Fin (inject_Z i)
      | None => Num.NaN
      end
    else Num.NaN
  end.

(** The strings of the postal code's pattern, and what is checked on
    each: its digits read as an integer of the region's range whose
    decimal text is the string again. *)
Definition digit_units : list N := [48; 49; 50; 51; 52; 53; 54; 55; 56; 57].

Definition regional_zips : list jsstring :=
  flat_map (fun d1 =>
    flat_map (fun d2 =>
      flat_map (fun d3 =>
        map (fun d4 => [52; d1; d2; d3; d4]) digit_units)
      digit_units)
    digit_units)
  [52; 53].

Definition zip_round_trip (v : jsstring) : bool :=
  match Num.digits 0 v with
  | Some (z, []) =>
    (44000 <=? z)%Z && (z <=? 45999)%Z && bool_decide (Flow.decimal_of_Z z = v)
  | _ => false
  end.

End Payload.

(** ** The confirmation modal (DeleteConfirmationModal.jsx) *)

Module Modal.

Inductive callback : Type := onClose | onConfirm.

(** What the user does to an open modal: a key pressed anywhere in
    the document, a click that reaches the backdrop's handler (on the
    backdrop itself or bubbling from inside), and clicks on the three
    buttons. *)
Inductive input : Type :=
| KeyDown (key : jsstring) (ctrlKey : bool)
| BackdropClick (onBackdropItself : bool)
| CloseButton
| CancelButton
| ConfirmButton.

(** [handleKeyPress(e)] *)
Definition handleKeyPress (isDeleting : bool) (key : jsstring) (ctrlKey : bool)
  : list callback :=
  if isDeleting then []
  else if jsstring_eqb key (js "Escape") then [onClose]
  else if jsstring_eqb key (js "Enter") && ctrlKey then [onConfirm]
  else [].

(** [handleBackdropClick(e)] *)
Definition handleBackdropClick (isDeleting : bool) (onBackdropItself : bool)
  : list callback :=
  if onBackdropItself && negb isDeleting then [onClose] else [].

(** A button with [disabled={isDeleting}] and the given [onClick]. *)
Definition button (isDeleting : bool) (onClick : callback) : list callback :=
  if isDeleting then [] else [onClick].

(** The callbacks an input invokes; the key listener is installed
    and the modal rendered only while [isOpen]. *)
Definition react (isOpen isDeleting : bool) (i : input) : list callback :=
  if negb isOpen then []
  else
    match i with
    | KeyDown key ctrlKey => handleKeyPress isDeleting key ctrlKey
    | BackdropClick b => handleBackdropClick isDeleting b
    | CloseButton => button isDeleting onClose
    | CancelButton => button isDeleting onClose
    | ConfirmButton => button isDeleting onConfirm
    end.

End Modal.

(* ================================================================== *)
(** * Properties *)
(* ================================================================== *)

(** ** The derivative matcher decides the language of a pattern *)

Module RegexFacts.
Import Regex.

Create HintDb regex.
#[export] Hint Constructors Lang : regex.

Lemma Lang_void_inv s : Lang RVoid s -> False.
Proof. inversion 1. Qed.

Lemma Lang_eps_inv s : Lang REps s -> s = [].
Proof. inversion 1; reflexivity. Qed.

Lemma Lang_cls_inv p s : Lang (RCls p) s -> exists c, s = [c] /\ p c = true.
Proof. inversion 1; subst; eauto. Qed.

Lemma Lang_cat_inv r1 r2 s :
  Lang (RCat r1 r2) s -> exists s1 s2, s = s1 ++ s2 /\ Lang r1 s1 /\ Lang r2 s2.
Proof. inversion 1; subst; eauto. Qed.

Lemma Lang_alt_inv r1 r2 s : Lang (RAlt r1 r2) s -> Lang r1 s \/ Lang r2 s.
Proof. inversion 1; subst; auto. Qed.

Lemma Lang_cat_cons r1 r2 c s1 s2 :
  Lang r1 (c :: s1) -> Lang r2 s2 -> Lang (RCat r1 r2) (c :: s1 ++ s2).
Proof. intros H1 H2. apply (LCat r1 r2 (c :: s1) s2); assumption. Qed.

Lemma nullable_Lang r : nullable r = true <-> Lang r [].
Proof.
  induction r as [| |p|r1 IH1 r2 IH2|r1 IH1 r2 IH2|r IH]; simpl; split; intros H;
    try discriminate; eauto with regex.
  - destruct (Lang_void_inv _ H).
  - apply Lang_cls_inv in H as (c & E & _). discriminate.
  - apply andb_true_iff in H as [H1 H2].
    apply (LCat r1 r2 [] []); [apply IH1 | apply IH2]; assumption.
  - apply Lang_cat_inv in H as (s1 & s2 & E & H1 & H2).
    symmetry in E. apply app_eq_nil in E as [-> ->].
    apply andb_true_iff; split; [apply IH1 | apply IH2]; assumption.
  - apply orb_true_iff in H as [H|H];
      [apply LAltL, IH1 | apply LAltR, IH2]; assumption.
  - apply orb_true_iff.
    apply Lang_alt_inv in H as [H|H]; [left; apply IH1 | right; apply IH2]; assumption.
Qed.

Lemma Lang_star_cons r c s :
  Lang (RStar r) (c :: s) ->
  exists s1 s2, s = s1 ++ s2 /\ Lang r (c :: s1) /\ Lang (RStar r) s2.
Proof.
  intros H. remember (RStar r) as r' eqn:Er. remember (c :: s) as w eqn:Ew.
  revert s Ew.
  induction H as [| | | | | |r0 s1 s2 H1 _ H2 IH2]; intros s' Ew; try discriminate.
  injection Er as ->.
  destruct s1 as [|c1 s1]; simpl in Ew.
  - apply IH2; auto.
  - injection Ew as -> <-. exists s1, s2. auto.
Qed.

Lemma deriv_Lang r : forall c s, Lang (deriv c r) s <-> Lang r (c :: s).
Proof.
  induction r as [| |p|r1 IH1 r2 IH2|r1 IH1 r2 IH2|r IH]; intros c s; simpl.
  - split; intros H; destruct (Lang_void_inv _ H).
  - split; intros H; [destruct (Lang_void_inv _ H)|].
    apply Lang_eps_inv in H. discriminate.
  - split; intros H.
    + destruct (p c) eqn:E; [|destruct (Lang_void_inv _ H)].
      apply Lang_eps_inv in H as ->. constructor; assumption.
    + apply Lang_cls_inv in H as (c' & E & Hp). injection E as <- ->.
      rewrite Hp. constructor.
  - split; intros H.
    + assert (Hcat : Lang (RCat (deriv c r1) r2) s -> Lang (RCat r1 r2) (c :: s)).
      { intros Hc. apply Lang_cat_inv in Hc as (s1 & s2 & -> & H1 & H2).
        apply Lang_cat_cons; [apply IH1|]; assumption. }
      destruct (nullable r1) eqn:E; [|auto].
      apply Lang_alt_inv in H as [H|H]; [auto|].
      apply (LCat r1 r2 [] (c :: s)); [apply nullable_Lang | apply IH2]; assumption.
    + apply Lang_cat_inv in H as (s1 & s2 & E & H1 & H2).
      destruct s1 as [|c1 s1]; simpl in E.
      * subst s2. apply nullable_Lang in H1 as ->.
        apply LAltR, IH2; assumption.
      * injection E as <- ->.
        assert (Lang (RCat (deriv c r1) r2) (s1 ++ s2))
          by (constructor; [apply IH1|]; assumption).
        destruct (nullable r1); [apply LAltL|]; assumption.
  - split; intros H.
    + apply Lang_alt_inv in H as [H|H]; [apply LAltL, IH1 | apply LAltR, IH2]; assumption.
    + apply Lang_alt_inv in H as [H|H]; [apply LAltL, IH1 | apply LAltR, IH2]; assumption.
  - split; intros H.
    + apply Lang_cat_inv in H as (s1 & s2 & -> & H1 & H2).
      apply (LStarApp r (c :: s1) s2); [apply IH|]; assumption.
    + apply Lang_star_cons in H as (s1 & s2 & -> & H1 & H2).
      constructor; [apply IH|]; assumption.
Qed.

(** The matcher decides the language. *)
Lemma test_Lang r s : test r s = true <-> Lang r s.
Proof.
  revert r. induction s as [|c s IH]; intros r; simpl.
  - apply nullable_Lang.
  - rewrite IH. apply deriv_Lang.
Qed.

Lemma Lang_star_Forall p s : Forall (fun c => p c = true) s -> Lang (RStar (RCls p)) s.
Proof.
  induction 1 as [|c s Hc _ IH]; [constructor|].
  change (c :: s) with ([c] ++ s). constructor; [constructor|]; assumption.
Qed.

Lemma Lang_plus_Forall p s :
  s <> [] -> Forall (fun c => p c = true) s -> Lang (RPlus (RCls p)) s.
Proof.
  intros Hne Hall. destruct s as [|c s]; [congruence|].
  inversion Hall; subst.
  change (c :: s) with ([c] ++ s).
  constructor; [constructor; assumption | apply Lang_star_Forall; assumption].
Qed.

Lemma Lang_star_cls_inv p s : Lang (RStar (RCls p)) s -> Forall (fun c => p c = true) s.
Proof.
  intros H. remember (RStar (RCls p)) as r eqn:Er.
  induction H as [| | | | | |r0 s1 s2 H1 _ H2 IH2]; try discriminate; [constructor|].
  injection Er as ->. apply Lang_cls_inv in H1 as (c & -> & Hc).
  simpl. constructor; auto.
Qed.

Lemma Lang_plus_cls_inv p s :
  Lang (RPlus (RCls p)) s -> s <> [] /\ Forall (fun c => p c = true) s.
Proof.
  intros H. apply Lang_cat_inv in H as (s1 & s2 & -> & H1 & H2).
  apply Lang_cls_inv in H1 as (c & -> & Hc).
  apply Lang_star_cls_inv in H2. simpl. split; [discriminate|].
  constructor; assumption.
Qed.

End RegexFacts.

(** ** Strings: trimming *)

Module JSFacts.

Lemma truthy_true (s : jsstring) : truthy s = true <-> s <> [].
Proof. destruct s; simpl; split; intros H; congruence. Qed.


Lemma trimStart_Forall (P : N -> Prop) s : Forall P s -> Forall P (trimStart s).
Proof.
  induction 1 as [|c s Hc Hs IH]; simpl; [constructor|].
  destruct (isWhiteSpace c); [assumption | constructor; assumption].
Qed.

Lemma trim_Forall (P : N -> Prop) s : Forall P s -> Forall P (trim s).
Proof.
  intros H. unfold trim, trimEnd.
  apply Forall_rev, trimStart_Forall, Forall_rev, trimStart_Forall, H.
Qed.

Lemma trimStart_Exists s :
  Exists (fun c => isWhiteSpace c = false) s ->
  Exists (fun c => isWhiteSpace c = false) (trimStart s).
Proof.
  induction 1 as [c s Hc | c s Hs IH]; simpl.
  - rewrite Hc. constructor; assumption.
  - destruct (isWhiteSpace c) eqn:E; [assumption|].
    constructor; assumption.
Qed.

Lemma Exists_rev_iff (P : N -> Prop) (s : jsstring) : Exists P (rev s) <-> Exists P s.
Proof.
  rewrite !List.Exists_exists. split; intros (x & Hin & Hx); exists x; split; auto.
  - apply in_rev; assumption.
  - apply in_rev in Hin; assumption.
Qed.

(** A string with a character that is not white space does not trim
    to the empty string. *)
Lemma trim_nonempty s :
  Exists (fun c => isWhiteSpace c = false) s -> trim s <> [].
Proof.
  intros H. unfold trim, trimEnd.
  apply trimStart_Exists, Exists_rev_iff, trimStart_Exists, Exists_rev_iff in H.
  intros E. rewrite E in H. inversion H.
Qed.

Lemma trimStart_id s : Forall (fun c => isWhiteSpace c = false) s -> trimStart s = s.
Proof. destruct 1 as [|c s Hc _]; simpl; [|rewrite Hc]; reflexivity. Qed.

Lemma trim_id s : Forall (fun c => isWhiteSpace c = false) s -> trim s = s.
Proof.
  intros H. unfold trim, trimEnd. rewrite (trimStart_id s H).
  rewrite trimStart_id by (apply Forall_rev; assumption).
  apply rev_involutive.
Qed.

(** White space only: the trimmed string is empty. *)
Lemma trimStart_spaces s : Forall (fun c => isWhiteSpace c = true) s -> trimStart s = [].
Proof. induction 1 as [|c s Hc _ IH]; simpl; [|rewrite Hc]; auto. Qed.

End JSFacts.

(** ** [JSON.stringify] loses nothing *)

Module JSONFacts.
Import JSON.

Lemma escape_cons c r :
  escape (c :: r) =
    if c =? 8 then 92 :: 98 :: escape r
    else if c =? 9 then 92 :: 116 :: escape r
    else if c =? 10 then 92 :: 110 :: escape r
    else if c =? 12 then 92 :: 102 :: escape r
    else if c =? 13 then 92 :: 114 :: escape r
    else if c =? 34 then 92 :: 34 :: escape r
    else if c =? 92 then 92 :: 92 :: escape r
    else if c <? 32 then unicode_escape c ++ escape r
    else if isHighSurrogate c then
      match r with
      | d :: r' =>
        if isLowSurrogate d then c :: d :: escape r'
        else unicode_escape c ++ escape r
      | [] => unicode_escape c
      end
    else if isLowSurrogate c then unicode_escape c ++ escape r
    else c :: escape r.
Proof. reflexivity. Qed.

Lemma unhex_hex x : x < 16 -> unhex (hex x) = Some x.
Proof.
  intros H. unfold hex, unhex.
  destruct (N.ltb_spec x 10).
  - replace ((48 <=? 48 + x) && (48 + x <=? 57)) with true
      by (symmetry; apply andb_true_iff; split; apply N.leb_le; lia).
    f_equal. lia.
  - replace ((48 <=? 87 + x) && (87 + x <=? 57)) with false
      by (symmetry; apply andb_false_iff; right; apply N.leb_gt; lia).
    replace ((97 <=? 87 + x) && (87 + x <=? 102)) with true
      by (symmetry; apply andb_true_iff; split; apply N.leb_le; lia).
    f_equal. lia.
Qed.

Lemma hex_digits c :
  c < 65536 ->
  c / 4096 < 16 /\ (c / 256) mod 16 < 16 /\ (c / 16) mod 16 < 16 /\ c mod 16 < 16
  /\ c / 4096 * 4096 + (c / 256) mod 16 * 256 + (c / 16) mod 16 * 16 + c mod 16 = c.
Proof.
  intros H. zify. Z.to_euclidean_division_equations. lia.
Qed.

Lemma read_unicode_escape c s str after :
  c < 65536 ->
  read_string s = Some (str, after) ->
  read_string (unicode_escape c ++ s) = Some (c :: str, after).
Proof.
  intros Hc Hs. destruct (hex_digits c Hc) as (H3 & H2 & H1 & H0 & E).
  change (unicode_escape c ++ s)
    with (92 :: 117 :: hex (c / 4096) :: hex ((c / 256) mod 16)
             :: hex ((c / 16) mod 16) :: hex (c mod 16) :: s).
  cbn [read_string].
  change (92 =? 34) with false. change (92 =? 92) with true.
  change (117 =? 117) with true. cbv iota.
  rewrite !unhex_hex, Hs, E by assumption. reflexivity.
Qed.

Lemma read_escaped e ch s str after :
  e <> 117 -> unescape_char e = Some ch ->
  read_string s = Some (str, after) ->
  read_string (92 :: e :: s) = Some (ch :: str, after).
Proof.
  intros He Hch Hs. cbn [read_string].
  change (92 =? 34) with false. change (92 =? 92) with true. cbv iota.
  destruct (N.eqb_spec e 117); [contradiction|].
  rewrite Hch, Hs. reflexivity.
Qed.

Lemma read_literal c s str after :
  c <> 34 -> c <> 92 ->
  read_string s = Some (str, after) ->
  read_string (c :: s) = Some (c :: str, after).
Proof.
  intros H1 H2 Hs. cbn [read_string].
  destruct (N.eqb_spec c 34); [contradiction|].
  destruct (N.eqb_spec c 92); [contradiction|].
  rewrite Hs. reflexivity.
Qed.

(** Reading back an escaped string gives the string and what follows
    its closing quote. *)
Lemma read_string_escape n : forall s after,
  (length s <= n)%nat -> read_string (escape s ++ 34 :: after) = Some (s, after).
Proof.
  induction n as [|n IH]; intros [|c r] after Hlen; simpl in Hlen; try lia;
    try reflexivity.
  assert (Hr : read_string (escape r ++ 34 :: after) = Some (r, after))
    by (apply IH; lia).
  rewrite escape_cons.
  destruct (N.eqb_spec c 8) as [->|?];
    [apply (read_escaped 98 8); [discriminate | reflexivity | exact Hr]|].
  destruct (N.eqb_spec c 9) as [->|?];
    [apply (read_escaped 116 9); [discriminate | reflexivity | exact Hr]|].
  destruct (N.eqb_spec c 10) as [->|?];
    [apply (read_escaped 110 10); [discriminate | reflexivity | exact Hr]|].
  destruct (N.eqb_spec c 12) as [->|?];
    [apply (read_escaped 102 12); [discriminate | reflexivity | exact Hr]|].
  destruct (N.eqb_spec c 13) as [->|?];
    [apply (read_escaped 114 13); [discriminate | reflexivity | exact Hr]|].
  destruct (N.eqb_spec c 34) as [->|?];
    [apply (read_escaped 34 34); [discriminate | reflexivity | exact Hr]|].
  destruct (N.eqb_spec c 92) as [->|?];
    [apply (read_escaped 92 92); [discriminate | reflexivity | exact Hr]|].
  destruct (N.ltb_spec c 32).
  { rewrite <- app_assoc. apply read_unicode_escape; [lia | exact Hr]. }
  destruct (isHighSurrogate c) eqn:Hh.
  { assert (c < 65536).
    { unfold isHighSurrogate in Hh. apply andb_true_iff in Hh as [_ Hh].
      apply N.leb_le in Hh. lia. }
    destruct r as [|d r'].
    - apply read_unicode_escape; [assumption | reflexivity].
    - destruct (isLowSurrogate d) eqn:Hl.
      + assert (Hr' : read_string (escape r' ++ 34 :: after) = Some (r', after))
          by (apply IH; simpl in Hlen; lia).
        assert (d <> 34 /\ d <> 92) as [? ?].
        { unfold isLowSurrogate in Hl. apply andb_true_iff in Hl as [Hl _].
          apply N.leb_le in Hl. lia. }
        cbn [app]. apply read_literal; [assumption | assumption|].
        apply read_literal; assumption.
      + rewrite <- app_assoc. apply read_unicode_escape; [assumption | exact Hr]. }
  destruct (isLowSurrogate c) eqn:Hl.
  { rewrite <- app_assoc. apply read_unicode_escape; [|exact Hr].
    unfold isLowSurrogate in Hl. apply andb_true_iff in Hl as [_ Hl].
    apply N.leb_le in Hl. lia. }
  cbn [app]. apply read_literal; assumption.
Qed.

Lemma escape_app_inj a b x y :
  escape a ++ 34 :: x = escape b ++ 34 :: y -> a = b /\ x = y.
Proof.
  intros H. apply (f_equal read_string) in H.
  rewrite (read_string_escape (length a)), (read_string_escape (length b)) in H by lia.
  injection H as -> ->. auto.
Qed.

Lemma quote_app_inj a b x y : quote a ++ x = quote b ++ y -> a = b /\ x = y.
Proof.
  unfold quote. rewrite <- !app_assoc. cbn [app]. intros H. injection H as H.
  apply escape_app_inj. exact H.
Qed.

Lemma body_cons e es :
  body (e :: es) =
    quote e.1 ++ 58 :: quote e.2
      ++ match es with [] => [125] | _ :: _ => 44 :: body es end.
Proof.
  unfold body. destruct es as [|e' es]; cbn [map join]; unfold member;
    rewrite <- !app_assoc; reflexivity.
Qed.

Lemma body_inj es1 : forall es2,
  map fst es1 = map fst es2 -> body es1 = body es2 -> es1 = es2.
Proof.
  induction es1 as [|[k v] es1 IH]; intros [|[k' v'] es2] Hk H;
    try discriminate Hk; [reflexivity|].
  cbn [map fst] in Hk. injection Hk as <- Hk.
  rewrite !body_cons in H. cbn [fst snd] in H.
  apply app_inv_head in H.
  apply (f_equal (@tl N)) in H. cbn [tl] in H.
  apply quote_app_inj in H as [<- H]. f_equal.
  destruct es1, es2; try discriminate Hk; [reflexivity|].
  injection H as H. apply IH; assumption.
Qed.

Lemma stringify_body es : stringify es = 123 :: body es.
Proof. reflexivity. Qed.

(** Objects with the same keys in the same order have the same text
    only when their values agree. *)
Lemma stringify_inj es1 es2 :
  map fst es1 = map fst es2 -> stringify es1 = stringify es2 -> es1 = es2.
Proof.
  intros Hk H. rewrite !stringify_body in H. injection H as H.
  apply body_inj; assumption.
Qed.

End JSONFacts.

(** ** Validation rules *)

Module ValidationFacts.
Import Regex RegexFacts JSFacts Validation Spec.

Ltac bool_to_prop :=
  repeat match goal with
  | H : _ |- _ =>
    progress rewrite ?orb_true_iff, ?andb_true_iff, ?N.leb_le, ?N.eqb_eq, ?N.ltb_lt in H
  end.

Tactic Notation "case_decide" "as_hyp" ident(H) :=
  lazymatch goal with
  | |- context [decide ?P] => destruct (decide P) as [H|H]
  end.

Lemma letter_unfold c :
  letter c = ((97 <=? c) && (c <=? 122)) || ((65 <=? c) && (c <=? 90))
             || existsb (N.eqb c) [225; 233; 237; 243; 250; 193; 201; 205; 211; 218; 241; 209].
Proof. reflexivity. Qed.

Lemma letter_not_space c : letter c = true -> isWhiteSpace c = false.
Proof.
  rewrite letter_unfold. intros H. apply not_true_is_false. intros W.
  unfold isWhiteSpace in W. simpl existsb in H. bool_to_prop. lia.
Qed.

Lemma letters_trim v : Forall is_letter v -> trim v = v.
Proof.
  intros H. apply trim_id. eapply List.Forall_impl; [|exact H].
  intros c Hc. apply letter_not_space, Hc.
Qed.

Lemma test_name_re v :
  v <> [] -> Forall is_letter_or_space v -> test name_re v = true.
Proof.
  intros Hne H. apply test_Lang, Lang_plus_Forall; [assumption|].
  eapply List.Forall_impl; [|exact H].
  intros c [Hc|Hc]; unfold letter_or_space; rewrite Hc; auto using orb_true_r.
Qed.

Lemma test_abbreviation_re v :
  v <> [] -> Forall is_letter v -> test abbreviation_re v = true.
Proof.
  intros Hne H. apply test_Lang, Lang_plus_Forall; assumption.
Qed.

(** *** Literal patterns *)

Lemma Lang_chars l : Lang (RSeq (map chr l)) l.
Proof.
  induction l as [|c l IH]; simpl; [constructor|].
  apply (LCat _ _ [c] l); [|assumption].
  constructor. apply N.eqb_refl.
Qed.

Lemma Lang_lit s : Lang (lit s) (js s).
Proof. apply Lang_chars. Qed.

Lemma Lang_chars_i l : forall x,
  map asciiUpper x = map asciiUpper l -> Lang (RSeq (map chr_i l)) x.
Proof.
  induction l as [|c l IH]; intros [|a x] E; simpl in *; try discriminate.
  - constructor.
  - injection E as E1 E2.
    apply (LCat _ _ [a] x); [|apply IH; assumption].
    constructor. apply N.eqb_eq. assumption.
Qed.

Lemma Lang_lit_i s x : eq_ignore_case x (js s) -> Lang (lit_i s) x.
Proof. apply Lang_chars_i. Qed.

Lemma Lang_opt_skip r : Lang (ROpt r) [].
Proof. apply LAltR. constructor. Qed.

Lemma Lang_seq_nil_r r s : Lang r s -> Lang (RCat r REps) s.
Proof. intros H. rewrite <- (app_nil_r s). constructor; [assumption | constructor]. Qed.

(** *** The image URL pattern *)

Lemma Lang_scheme scheme :
  eq_ignore_case scheme (js "http") \/ eq_ignore_case scheme (js "https") ->
  Lang (RCat (lit_i "http") (ROpt (lit_i "s"))) scheme.
Proof.
  intros [H|H].
  - rewrite <- (app_nil_r scheme).
    constructor; [apply Lang_lit_i; assumption | apply Lang_opt_skip].
  - unfold eq_ignore_case in H.
    destruct scheme as [|a [|b [|c [|d [|e [|f scheme]]]]]]; try discriminate H.
    injection H as Ha Hb Hc Hd He.
    apply (LCat _ _ [a; b; c; d] [e]).
    + apply Lang_lit_i. unfold eq_ignore_case. simpl. congruence.
    + apply LAltL, Lang_lit_i. unfold eq_ignore_case. simpl. congruence.
Qed.

Lemma Lang_extension ext :
  eq_ignore_case ext (js "jpg") \/ eq_ignore_case ext (js "jpeg")
  \/ eq_ignore_case ext (js "png") \/ eq_ignore_case ext (js "webp") ->
  Lang (RAlt (lit_i "jpg") (RAlt (lit_i "jpeg") (RAlt (lit_i "png") (lit_i "webp")))) ext.
Proof.
  intros [H|[H|[H|H]]].
  - apply LAltL, Lang_lit_i, H.
  - apply LAltR, LAltL, Lang_lit_i, H.
  - apply LAltR, LAltR, LAltL, Lang_lit_i, H.
  - apply LAltR, LAltR, LAltR, Lang_lit_i, H.
Qed.

Lemma Lang_query query :
  query = [] \/ (exists q, query = js "?" ++ q /\ one_line q) ->
  Lang (ROpt (RCat (lit "?") (RStar (RCls dot)))) query.
Proof.
  intros [->|(q & -> & Hq)]; [apply Lang_opt_skip|].
  apply LAltL. constructor; [apply Lang_lit|].
  apply Lang_star_Forall. eapply List.Forall_impl; [|exact Hq].
  intros c Hc. unfold dot. rewrite Hc. reflexivity.
Qed.

Lemma test_img_url_re v : image_url v -> test img_url_re v = true.
Proof.
  intros (scheme & body & ext & query & -> & Hs & Hne & Hb & He & Hq).
  apply test_Lang. unfold img_url_re.
  apply Lang_scheme in Hs. apply Lang_cat_inv in Hs as (s1 & s2 & -> & H1 & H2).
  rewrite <- app_assoc. simpl RSeq.
  constructor; [assumption|]. constructor; [assumption|].
  constructor; [apply Lang_lit|].
  constructor.
  { apply Lang_plus_Forall; [assumption|].
    eapply List.Forall_impl; [|exact Hb].
    intros c Hc. unfold dot. rewrite Hc. reflexivity. }
  constructor; [apply Lang_lit|].
  constructor; [apply Lang_extension; assumption|].
  apply Lang_seq_nil_r, Lang_query. assumption.
Qed.

Lemma asciiUpper_not_space a c :
  asciiUpper a = asciiUpper c -> (65 <= asciiUpper c <= 90) -> isWhiteSpace a = false.
Proof.
  intros E Hc. rewrite <- E in Hc. clear E.
  apply not_true_is_false. intros W.
  unfold asciiUpper in Hc. unfold isWhiteSpace in W.
  destruct ((97 <=? a) && (a <=? 122)) eqn:Ea; bool_to_prop; lia.
Qed.

Lemma image_url_trim v : image_url v -> trim v <> [].
Proof.
  intros (scheme & body & ext & query & -> & Hs & _).
  apply trim_nonempty.
  assert (exists a rest, scheme = a :: rest /\ asciiUpper a = 72) as (a & rest & -> & Ha).
  { destruct Hs as [H|H]; unfold eq_ignore_case in H;
      (destruct scheme as [|a rest]; [discriminate H|]);
      injection H as Ha _; eauto. }
  constructor. apply (asciiUpper_not_space a 72); [exact Ha | vm_compute; split; discriminate].
Qed.


(** *** The postal code pattern *)

Lemma digit_unfold c : digit c = (48 <=? c) && (c <=? 57).
Proof. reflexivity. Qed.

Lemma test_zip_code_re v : regional_zip v -> test zip_code_re v = true.
Proof.
  intros (d1 & d2 & d3 & d4 & -> & H1 & H2 & H3 & H4).
  assert (Hd : forall d, 48 <= d <= 57 -> digit d = true).
  { intros d Hd. rewrite digit_unfold.
    apply andb_true_iff; split; apply N.leb_le; lia. }
  apply test_Lang. unfold zip_code_re.
  apply (LCat _ _ [52] [d1; d2; d3; d4]); [apply (Lang_lit "4")|].
  apply (LCat _ _ [d1] [d2; d3; d4]).
  { constructor. destruct H1 as [-> | ->]; reflexivity. }
  apply Lang_seq_nil_r. simpl RRep.
  apply (LCat _ _ [d2] [d3; d4]); [constructor; auto|].
  apply (LCat _ _ [d3] [d4]); [constructor; auto|].
  apply Lang_seq_nil_r. constructor; auto.
Qed.

(** *** Messages *)

Section WithToNumber.
Variable ToNumber : jsstring -> Num.jsnum.

(** Every message a rule returns is a non-empty string. *)
Lemma rule_message_truthy f v m :
  apply_rule ToNumber f v = Some m -> truthy m = true.
Proof.
  unfold apply_rule.
  destruct f; simpl;
    unfold rule_park_name, rule_park_abbreviation, rule_park_img_url,
           rule_park_address, rule_park_city, rule_park_zip_code,
           rule_park_latitude, rule_park_longitude;
    repeat match goal with
           | |- context [if ?b then _ else _] => destruct b
           end;
    intros [= <-]; reflexivity.
Qed.

Lemma is_error_apply_rule f v :
  is_error (apply_rule ToNumber f v) = bool_decide (apply_rule ToNumber f v <> None).
Proof.
  destruct (apply_rule ToNumber f v) as [m|] eqn:E; simpl.
  - apply rule_message_truthy in E. rewrite E. reflexivity.
  - reflexivity.
Qed.

(** *** Outside the length bounds *)


(** *** Values that satisfy their rule *)

Lemma within_no_error f v :
  satisfies ToNumber f v -> apply_rule ToNumber f v = None.
Proof.
  unfold apply_rule. destruct f; simpl.
  - intros (Ht & [Hlo Hhi] & Hc). unfold rule_park_name.
    apply truthy_true in Ht as Ht'. rewrite Ht'. simpl.
    destruct (Nat.ltb_spec (length v) 3); [lia|].
    destruct (Nat.ltb_spec 100 (length v)); [lia|].
    rewrite test_name_re; [reflexivity | assumption | apply trim_Forall; assumption].
  - intros (Hne & [Hlo Hhi] & Hc). unfold rule_park_abbreviation.
    rewrite (letters_trim v Hc).
    apply truthy_true in Hne as Ht. rewrite Ht. simpl.
    destruct (Nat.ltb_spec (length v) 2); [lia|].
    destruct (Nat.ltb_spec 10 (length v)); [lia|].
    rewrite test_abbreviation_re; [reflexivity | assumption | assumption].
  - intros (Hne & Hu). unfold rule_park_img_url.
    pose proof (image_url_trim v Hu) as Ht. apply truthy_true in Ht.
    rewrite Ht. simpl.
    rewrite test_img_url_re by assumption. reflexivity.
  - intros (Ht & [Hlo Hhi]). unfold rule_park_address.
    apply truthy_true in Ht as Ht'. rewrite Ht'. simpl.
    destruct (Nat.ltb_spec (length v) 10); [lia|].
    destruct (Nat.ltb_spec 150 (length v)); [lia|].
    reflexivity.
  - intros H. unfold rule_park_city.
    repeat (destruct H as [<- | H]; [reflexivity|]). destruct H.
  - reflexivity.
  - intros H. unfold rule_park_zip_code.
    rewrite (test_zip_code_re v H).
    destruct H as (d1 & d2 & d3 & d4 & -> & _). reflexivity.
  - intros (Hne & q & Hq & Hlo & Hhi). unfold rule_park_latitude.
    apply truthy_true in Hne as Ht. rewrite Ht, Hq. simpl.
    apply Qle_bool_iff in Hlo, Hhi. rewrite Hlo, Hhi. reflexivity.
  - intros (Hne & q & Hq & Hlo & Hhi). unfold rule_park_longitude.
    apply truthy_true in Hne as Ht. rewrite Ht, Hq. simpl.
    apply Qle_bool_iff in Hlo, Hhi. rewrite Hlo, Hhi. reflexivity.
Qed.

End WithToNumber.


(** *** [validateAll] entry by entry *)

Section ValidateAll.
Variable ToNumber : jsstring -> Num.jsnum.

Lemma get_set_eq f v r : get (set f v r) f = v.
Proof. destruct f; reflexivity. Qed.

Lemma get_set_ne f k v r : k <> f -> get (set f v r) k = get r k.
Proof. destruct f, k; intros H; try reflexivity; congruence. Qed.

Lemma foldl_step_lookup fd ks : forall (acc : errors_t * bool) k,
  (foldl (validateAll_step ToNumber fd) acc ks).1 !! k =
    if decide (k ∈ ks /\ is_error (apply_rule ToNumber k (get fd k)) = true)
    then Some (apply_rule ToNumber k (get fd k))
    else acc.1 !! k.
Proof.
  induction ks as [|x ks IH]; intros acc k; cbn [foldl].
  - case_decide as_hyp H; [|reflexivity]. destruct H as [H _]. inversion H.
  - rewrite IH. unfold validateAll_step.
    destruct (decide (k ∈ ks /\ is_error (apply_rule ToNumber k (get fd k)) = true))
      as [[Hin He]|Hn];
      destruct (decide (k ∈ x :: ks /\ is_error (apply_rule ToNumber k (get fd k)) = true))
      as [[Hin' He']|Hn'].
    + reflexivity.
    + exfalso. apply Hn'. split; [right|]; assumption.
    + assert (k = x) as ->.
      { apply elem_of_cons in Hin' as [?|?]; [assumption|]. exfalso. apply Hn. split; assumption. }
      rewrite He'. simpl. apply lookup_insert_eq.
    + destruct (is_error (apply_rule ToNumber x (get fd x))) eqn:E; [|reflexivity].
      simpl. apply lookup_insert_ne. intros ->.
      apply Hn'. split; [left|assumption].
Qed.

Lemma foldl_step_valid fd ks : forall (acc : errors_t * bool),
  (foldl (validateAll_step ToNumber fd) acc ks).2 =
    acc.2 && forallb (fun k => negb (is_error (apply_rule ToNumber k (get fd k)))) ks.
Proof.
  induction ks as [|x ks IH]; intros acc; simpl.
  - rewrite andb_true_r. reflexivity.
  - rewrite IH. unfold validateAll_step.
    destruct (is_error (apply_rule ToNumber x (get fd x))); simpl.
    + rewrite andb_false_r. reflexivity.
    + reflexivity.
Qed.

Lemma elem_of_keys k : k ∈ keys.
Proof. unfold keys. destruct k; set_solver. Qed.

(** The mapping holds, under each key, the message of that key's rule
    when it has one, and nothing otherwise. *)
Lemma validateAll_lookup fd k :
  (validateAll ToNumber fd).1 !! k =
    match apply_rule ToNumber k (get fd k) with
    | Some m => Some (Some m)
    | None => None
    end.
Proof.
  unfold validateAll. rewrite foldl_step_lookup, is_error_apply_rule.
  pose proof (elem_of_keys k) as Hk.
  destruct (apply_rule ToNumber k (get fd k)) as [m|]; case_decide as_hyp H.
  - reflexivity.
  - exfalso. apply H. split; [assumption|]. apply bool_decide_eq_true. discriminate.
  - destruct H as [_ H]. apply bool_decide_eq_true in H. congruence.
  - apply lookup_empty.
Qed.

Lemma validateAll_valid fd :
  (validateAll ToNumber fd).2 =
    forallb (fun k => negb (is_error (apply_rule ToNumber k (get fd k)))) keys.
Proof. unfold validateAll. rewrite foldl_step_valid. reflexivity. Qed.


(** A draft is rejected exactly when the mapping is not empty. *)
Lemma validateAll_valid_iff_empty fd :
  (validateAll ToNumber fd).2 = true <-> (validateAll ToNumber fd).1 = ∅.
Proof.
  rewrite validateAll_valid, forallb_forall. split.
  - intros H. apply map_eq. intros k. rewrite validateAll_lookup, lookup_empty.
    specialize (H k (proj1 (list_elem_of_In _ _) (elem_of_keys k))).
    rewrite is_error_apply_rule in H.
    destruct (apply_rule ToNumber k (get fd k)); [|reflexivity].
    rewrite bool_decide_eq_true_2 in H by discriminate. discriminate.
  - intros H k _. pose proof (validateAll_lookup fd k) as L.
    rewrite H, lookup_empty in L. rewrite is_error_apply_rule.
    destruct (apply_rule ToNumber k (get fd k)); [discriminate|reflexivity].
Qed.

End ValidateAll.




(** C2: [validateAll] on a draft whose every field passes its rule
    returns the empty mapping (and accepts); changing one field of
    such a draft to a value its rule rejects returns the mapping with
    exactly one entry, under that field, holding the rule's message
    (and rejects). *)
Theorem validateAll_valid_then_one_invalid (ToNumber : jsstring -> Num.jsnum)
    (r : formData_t) (Hvalid : fully_valid ToNumber r) :
  validateAll ToNumber r = (∅, true)
  /\ forall f v m,
       apply_rule ToNumber f v = Some m ->
       validateAll ToNumber (set f v r) = ({[ f := Some m ]}, false)
       /\ size (validateAll ToNumber (set f v r)).1 = 1%nat.
Proof.
  split.
  - rewrite (surjective_pairing (validateAll ToNumber r)). f_equal.
    + apply map_eq. intros k. rewrite validateAll_lookup, Hvalid, lookup_empty.
      reflexivity.
    + rewrite validateAll_valid. apply forallb_forall. intros k _.
      rewrite Hvalid. reflexivity.
  - intros f v m Hm.
    assert (E : validateAll ToNumber (set f v r) = ({[ f := Some m ]}, false)).
    { rewrite (surjective_pairing (validateAll ToNumber (set f v r))). f_equal.
      - apply map_eq. intros k. rewrite validateAll_lookup.
        destruct (decide (k = f)) as [->|Hne].
        + rewrite get_set_eq, Hm, lookup_singleton_eq. reflexivity.
        + rewrite get_set_ne by assumption.
          rewrite Hvalid, lookup_singleton_ne by congruence. reflexivity.
      - rewrite validateAll_valid. apply not_true_is_false. intros Hall.
        rewrite forallb_forall in Hall.
        specialize (Hall f (proj1 (list_elem_of_In _ _) (elem_of_keys f))).
        rewrite get_set_eq, Hm in Hall. simpl in Hall.
        rewrite (rule_message_truthy ToNumber f v m Hm) in Hall. discriminate. }
    split; [exact E|]. rewrite E. simpl. apply map_size_singleton.
Qed.


Lemma metropolitano_valid : fully_valid Num.decimal Samples.metropolitano.
Proof. intros []; vm_compute; reflexivity. Qed.

Lemma validateAll_valid_then_one_invalid_witness :
  validateAll Num.decimal Samples.metropolitano = (∅, true)
  /\ validateAll Num.decimal (set park_city (js "Chapala") Samples.metropolitano)
     = ({[ park_city := Some msg_city_invalid ]}, false).
Proof.
  destruct (validateAll_valid_then_one_invalid Num.decimal Samples.metropolitano
              metropolitano_valid) as [H1 H2].
  split; [exact H1|].
  apply (H2 park_city (js "Chapala") msg_city_invalid). reflexivity.
Defined.


End ValidationFacts.

(** ** The submit handlers *)

Module FormFacts.
Import JSFacts Validation ValidationFacts Flow.

Lemma calls_app t1 t2 : calls (t1 ++ t2) = calls t1 ++ calls t2.
Proof.
  induction t1 as [|e t1 IH]; simpl; [reflexivity|].
  destruct e; simpl; rewrite ?IH; reflexivity.
Qed.

Lemma offers_retry_with_retry d : offers_retry (with_retry d) = true.
Proof. reflexivity. Qed.

Section Create.
Import ParkForm.
Variable ToNumber : jsstring -> Num.jsnum.

(** A draft that fails validation stops the create handler before any
    call; the dialog's count is the number of keys of the [errors]
    object of the render, not of the mapping just computed. *)
Lemma create_invalid_aborts fd errs r rest st :
  online r = true ->
  (validateAll ToNumber fd).2 = false ->
  handleSubmit ToNumber fd errs (r :: rest) st
  = ([Fire (incomplete_dialog (size errs))],
     mkState (formData st) (validateAll ToNumber fd).1 (isSubmitting st)).
Proof.
  intros Ho Hv. simpl. rewrite Ho. simpl.
  destruct (validateAll ToNumber fd) as [newErrors isValid]. simpl in *.
  subst isValid. reflexivity.
Qed.



(** Every call of a run of the create handler is the same POST. *)
Lemma create_calls_timeout fd errs script : forall st,
  Forall (fun c => c = post_call fd) (calls (handleSubmit ToNumber fd errs script st).1).
Proof.
  induction script as [|r rest IH]; intros st; simpl; [constructor|].
  destruct (online r); simpl; [|constructor].
  destruct (validateAll ToNumber fd) as [newErrors isValid].
  destruct isValid; simpl; [|constructor].
  destruct (confirmed r); simpl; [|constructor].
  destruct (result r) as [status|e]; simpl.
  - repeat constructor.
  - destruct (retry r).
    + specialize (IH (mkState (formData st) newErrors false)).
      destruct (handleSubmit ToNumber fd errs rest _) as [more st3]. simpl in *.
      constructor; [reflexivity | assumption].
    + repeat constructor.
Qed.

End Create.

(** C3, at a failing input: eight fields of the create form were
    typed and only the postal code is rejected; on submit the handler
    stops before any call, as the claim says, but the dialog reports 8
    fields to correct, while the mapping [validateAll] computed in
    that submit has exactly one entry. *)
Theorem submit_count_is_stale :
  let st := Samples.typed_create_form in
  let out := ParkForm.submit Num.decimal [Samples.smooth_round] st in
  (validateAll Num.decimal (ParkForm.formData st)).1
    = {[ park_zip_code := Some msg_zip_invalid ]}
  /\ size (validateAll Num.decimal (ParkForm.formData st)).1 = 1%nat
  /\ out.1 = [Fire (ParkForm.incomplete_dialog 8)]
  /\ calls out.1 = []
  /\ ParkForm.incomplete_dialog 8 <> ParkForm.incomplete_dialog 1.
Proof.
  assert (E : (validateAll Num.decimal (ParkForm.formData Samples.typed_create_form)).1
              = {[ park_zip_code := Some msg_zip_invalid ]}).
  { apply map_eq. intros k. rewrite validateAll_lookup.
    destruct k; vm_compute; reflexivity. }
  cbv zeta. split; [exact E|]. split; [rewrite E; apply map_size_singleton|].
  assert (Hs : size (ParkForm.errors Samples.typed_create_form) = 8%nat)
    by (vm_compute; reflexivity).
  unfold ParkForm.submit.
  rewrite create_invalid_aborts; [|reflexivity|].
  - rewrite Hs. cbn [fst calls]. repeat split. vm_compute. discriminate.
  - apply not_true_is_false. intros Hv.
    apply validateAll_valid_iff_empty in Hv. rewrite E in Hv.
    apply (f_equal (fun m => m !! park_zip_code)) in Hv.
    rewrite lookup_singleton_eq, lookup_empty in Hv. discriminate.
Qed.


Section Edit.
Import ParkEditForm.
Variable ToNumber : jsstring -> Num.jsnum.

Lemma hasChanges_same fd : hasChanges fd (Some fd) = false.
Proof.
  unfold hasChanges, stringify_formData, stringify_originalData, jsstring_eqb.
  rewrite bool_decide_eq_true_2; reflexivity.
Qed.

Lemma entries_inj fd fd' : entries fd = entries fd' -> fd = fd'.
Proof.
  unfold entries, keys. cbn [map get]. intros H.
  injection H as H1 H2 H3 H4 H5 H6 H7 H8 H9.
  destruct fd, fd'. cbn in *. congruence.
Qed.

(** "Has changes" is structural inequality between the draft and the
    snapshot. *)
Lemma hasChanges_spec fd orig : hasChanges fd orig = false <-> orig = Some fd.
Proof.
  split; [|intros ->; apply hasChanges_same].
  unfold hasChanges, jsstring_eqb. rewrite negb_false_iff, bool_decide_eq_true.
  unfold stringify_formData, stringify_originalData.
  destruct orig as [fd'|]; intros H.
  - apply JSONFacts.stringify_inj in H.
    + apply entries_inj in H. congruence.
    + unfold entries. rewrite !map_map. reflexivity.
  - rewrite !JSONFacts.stringify_body in H.
    apply (f_equal (@tl N)) in H. cbn [tl] in H.
    unfold entries, keys in H. cbn [map] in H.
    rewrite JSONFacts.body_cons in H. discriminate H.
Qed.

(** One invocation of the edit handler, unfolded. *)
Lemma edit_handleSubmit_cons id fd orig errs r rest st :
  handleSubmit ToNumber id fd orig errs (r :: rest) st
  = if negb (online r) then ([Fire offline_dialog], st)
    else
      let '(newErrors, isValid) := validateAll ToNumber fd in
      let st1 := mkState (formData st) (originalData st) newErrors (isSubmitting st) in
      if negb isValid then ([Fire (incomplete_dialog (size errs))], st1)
      else if negb (hasChanges fd orig) then ([Fire no_changes_dialog], st1)
      else if negb (confirmed r) then ([Fire confirm_dialog], st1)
      else
        let before := [Fire confirm_dialog; Fire progress_dialog;
                       Call (put_call id fd)] in
        let st2 := mkState (formData st) (originalData st) newErrors false in
        match result r with
        | Resolved status =>
          if bool_decide (status = 200%Z) || bool_decide (status = 201%Z) then
            (before ++ [Fire (success_dialog fd); Navigate (js "/") true], st2)
          else (before, st2)
        | Rejected e =>
          let shown := before ++ [Fire (ParkEditForm.failure_dialog e)] in
          if retry r then
            let '(more, st3) := handleSubmit ToNumber id fd orig errs rest st2 in
            (shown ++ more, st3)
          else (shown, st2)
        end.
Proof. reflexivity. Qed.

Lemma edit_invalid_aborts id fd orig errs r rest st :
  online r = true ->
  (validateAll ToNumber fd).2 = false ->
  handleSubmit ToNumber id fd orig errs (r :: rest) st
  = ([Fire (incomplete_dialog (size errs))],
     mkState (formData st) (originalData st) (validateAll ToNumber fd).1 (isSubmitting st)).
Proof.
  intros Ho Hv. rewrite edit_handleSubmit_cons, Ho.
  destruct (validateAll ToNumber fd) as [newErrors isValid]. cbn [fst snd negb] in *.
  subst isValid. reflexivity.
Qed.

(** With a draft equal to the snapshot the edit handler stops at one
    of its three guards. *)
Lemma edit_unchanged id fd errs r rest st :
  handleSubmit ToNumber id fd (Some fd) errs (r :: rest) st
  = if negb (online r) then ([Fire offline_dialog], st)
    else if negb (validateAll ToNumber fd).2 then
      ([Fire (incomplete_dialog (size errs))],
       mkState (formData st) (originalData st) (validateAll ToNumber fd).1 (isSubmitting st))
    else
      ([Fire no_changes_dialog],
       mkState (formData st) (originalData st) (validateAll ToNumber fd).1 (isSubmitting st)).
Proof.
  rewrite edit_handleSubmit_cons.
  destruct (online r); cbn [negb]; [|reflexivity].
  destruct (validateAll ToNumber fd) as [newErrors isValid]. cbn [fst snd].
  destruct isValid; cbn [negb]; [|reflexivity].
  rewrite hasChanges_same. reflexivity.
Qed.



(** No run of the edit handler changes the draft or the snapshot. *)
Lemma edit_keeps_draft id fd orig errs script : forall st,
  formData (handleSubmit ToNumber id fd orig errs script st).2 = formData st
  /\ originalData (handleSubmit ToNumber id fd orig errs script st).2 = originalData st.
Proof.
  induction script as [|r rest IH]; intros st; [split; reflexivity|].
  rewrite edit_handleSubmit_cons.
  destruct (online r); cbn [negb]; [|split; reflexivity].
  destruct (validateAll ToNumber fd) as [newErrors isValid].
  destruct isValid; cbn [negb]; [|split; reflexivity].
  destruct (hasChanges fd orig); cbn [negb]; [|split; reflexivity].
  destruct (confirmed r); cbn [negb]; [|split; reflexivity].
  destruct (result r) as [status|e].
  - destruct (bool_decide (status = 200%Z) || bool_decide (status = 201%Z));
      split; reflexivity.
  - destruct (retry r); [|split; reflexivity].
    specialize (IH (mkState (formData st) (originalData st) newErrors false)).
    destruct (handleSubmit ToNumber id fd orig errs rest _) as [more st3].
    exact IH.
Qed.

Lemma edit_calls_timeout id fd orig errs script : forall st,
  Forall (fun c => c = put_call id fd)
         (calls (handleSubmit ToNumber id fd orig errs script st).1).
Proof.
  induction script as [|r rest IH]; intros st; [constructor|].
  rewrite edit_handleSubmit_cons.
  destruct (online r); cbn [negb]; [|constructor].
  destruct (validateAll ToNumber fd) as [newErrors isValid].
  destruct isValid; cbn [negb]; [|constructor].
  destruct (hasChanges fd orig); cbn [negb]; [|constructor].
  destruct (confirmed r); cbn [negb]; [|constructor].
  destruct (result r) as [status|e].
  - destruct (bool_decide (status = 200%Z) || bool_decide (status = 201%Z));
      repeat constructor.
  - destruct (retry r).
    + specialize (IH (mkState (formData st) (originalData st) newErrors false)).
      destruct (handleSubmit ToNumber id fd orig errs rest _) as [more st3].
      cbn [fst app calls] in *. constructor; [reflexivity | assumption].
    + repeat constructor.
Qed.

End Edit.

(** C4 (as amended): a submission of the edit form whose draft equals
    the snapshot taken at load issues no call and leaves the draft and
    the snapshot as they are; the notice is the "no changes" one when
    the browser is online and the draft passes [validateAll], the
    offline warning when the browser is offline, and the
    incomplete-form notice when the draft fails validation. *)
Theorem unchanged_draft_is_not_sent (ToNumber : jsstring -> Num.jsnum)
    (id : jsstring) (script : list round) (st : ParkEditForm.state)
    (Hsame : ParkEditForm.originalData st = Some (ParkEditForm.formData st)) :
  let out := ParkEditForm.submit ToNumber id script st in
  calls out.1 = []
  /\ ParkEditForm.formData out.2 = ParkEditForm.formData st
  /\ ParkEditForm.originalData out.2 = ParkEditForm.originalData st
  /\ forall r rest, script = r :: rest ->
       out.1 = if negb (online r) then [Fire ParkEditForm.offline_dialog]
               else if (validateAll ToNumber (ParkEditForm.formData st)).2
                    then [Fire ParkEditForm.no_changes_dialog]
                    else [Fire (ParkEditForm.incomplete_dialog
                                  (size (ParkEditForm.errors st)))].
Proof.
  cbv zeta. unfold ParkEditForm.submit.
  pose proof (edit_keeps_draft ToNumber id (ParkEditForm.formData st)
                (ParkEditForm.originalData st) (ParkEditForm.errors st) script st)
    as [Hf Ho].
  split; [|split; [exact Hf | split; [exact Ho|]]].
  - rewrite Hsame. destruct script as [|r rest]; [reflexivity|].
    rewrite edit_unchanged.
    destruct (online r); simpl; [|reflexivity].
    destruct (validateAll ToNumber (ParkEditForm.formData st)).2; reflexivity.
  - intros r rest ->. rewrite Hsame, edit_unchanged.
    destruct (online r); simpl; [|reflexivity].
    destruct (validateAll ToNumber (ParkEditForm.formData st)).2; reflexivity.
Qed.

Lemma unchanged_draft_is_not_sent_witness :
  let st := ParkEditForm.loaded Samples.stored_image_park ParkEditForm.initial in
  let out := ParkEditForm.submit Num.decimal (js "7") [Samples.smooth_round] st in
  calls out.1 = []
  /\ ParkEditForm.formData out.2 = ParkEditForm.formData st
  /\ ParkEditForm.originalData out.2 = ParkEditForm.originalData st.
Proof.
  cbv zeta.
  destruct (unchanged_draft_is_not_sent Num.decimal (js "7") [Samples.smooth_round]
              (ParkEditForm.loaded Samples.stored_image_park ParkEditForm.initial)
              eq_refl) as (H1 & H2 & H3 & _).
  repeat split; assumption.
Defined.

(** C4, as worded, fails on a park loaded without an image URL: the
    draft equals the snapshot, and the notice shown on submit is the
    incomplete-form one, not the "no changes" one. *)
Lemma unchanged_invalid_draft_gets_other_notice :
  let st := ParkEditForm.loaded Samples.stored_image_park ParkEditForm.initial in
  let out := ParkEditForm.submit Num.decimal (js "7") [Samples.smooth_round] st in
  ParkEditForm.originalData st = Some (ParkEditForm.formData st)
  /\ out.1 = [Fire (ParkEditForm.incomplete_dialog 0)]
  /\ out.1 <> [Fire ParkEditForm.no_changes_dialog].
Proof.
  cbv zeta. split; [reflexivity|].
  assert (E : (ParkEditForm.submit Num.decimal (js "7") [Samples.smooth_round]
                 (ParkEditForm.loaded Samples.stored_image_park ParkEditForm.initial)).1
              = [Fire (ParkEditForm.incomplete_dialog 0)]) by (vm_compute; reflexivity).
  split; [exact E|]. rewrite E. vm_compute. discriminate.
Qed.

(** The edit form has the same text: after a valid park was loaded
    and two fields were typed, one of them rejected, the dialog
    reports 2 fields while one failed. *)
Lemma edit_submit_count_is_stale :
  let st := Samples.typed_edit_form in
  let out := ParkEditForm.submit Num.decimal (js "7") [Samples.smooth_round] st in
  size (validateAll Num.decimal (ParkEditForm.formData st)).1 = 1%nat
  /\ out.1 = [Fire (ParkEditForm.incomplete_dialog 2)].
Proof. cbv zeta. split; vm_compute; reflexivity. Qed.

End FormFacts.

(** ** The park card: image resolution and deletion *)

Module CardFacts.
Import JSFacts Flow Park ParkCard Retry FormFacts.

Lemma image_step_error_stays st ev :
  imageError st = true -> imageError (image_step st ev) = true.
Proof. intros H. destruct ev; simpl; rewrite ?H; simpl; auto. Qed.

Lemma image_run_error_stays evs : forall st,
  imageError st = true -> imageError (image_run st evs) = true.
Proof.
  unfold image_run.
  induction evs as [|ev evs IH]; intros st H; simpl; [assumption|].
  apply IH, image_step_error_stays, H.
Qed.

Lemma image_step_onError st : imageError (image_step st onError) = true.
Proof. simpl. destruct (imageError st) eqn:E; simpl; auto. Qed.

Lemma getImageUrl_after_error park : getImageUrl park true = placeholder.
Proof. unfold getImageUrl. rewrite !andb_false_r. reflexivity. Qed.

(** C7: image resolution is a function of the two image fields and
    the error flag. Without a load failure it returns the absolute URL
    when present; else the storage base, a slash and the
    server-relative path when that is present; else the placeholder.
    A park with neither field gets the placeholder. Once an image
    load has failed the card renders the placeholder on every later
    render, whatever happens to the image afterwards. *)
Theorem image_resolution (park : park) :
  (forall url, p_img_url park = Some url -> url <> [] ->
     getImageUrl park false = url)
  /\ (forall uri, present (p_img_url park) = false ->
        p_img_uri park = Some uri -> uri <> [] ->
        getImageUrl park false = storageBase ++ js "/" ++ uri)
  /\ (present (p_img_url park) = false -> present (p_img_uri park) = false ->
        forall flag, getImageUrl park flag = placeholder)
  /\ getImageUrl park true = placeholder
  /\ (forall st before after,
        rendered_src park (image_run st (before ++ onError :: after)) = placeholder).
Proof.
  split; [|split; [|split; [|split]]].
  - intros url Hu Hne. unfold getImageUrl, present. rewrite Hu.
    apply truthy_true in Hne. rewrite Hne. reflexivity.
  - intros uri Hn Hu Hne. unfold getImageUrl. rewrite Hn. simpl.
    unfold present. rewrite Hu. apply truthy_true in Hne. rewrite Hne. reflexivity.
  - intros H1 H2 flag. unfold getImageUrl. rewrite H1, H2. reflexivity.
  - apply getImageUrl_after_error.
  - intros st before after. unfold rendered_src, image_run.
    rewrite foldl_app. cbn [foldl].
    change (foldl image_step ?s after) with (image_run s after).
    rewrite image_run_error_stays by apply image_step_onError.
    apply getImageUrl_after_error.
Qed.

Lemma image_resolution_witness :
  getImageUrl Samples.stored_image_park false
  = storageBase ++ js "/" ++ js "parks/7.jpg".
Proof.
  apply (proj1 (proj2 (image_resolution Samples.stored_image_park)) (js "parks/7.jpg")).
  - reflexivity.
  - reflexivity.
  - vm_compute. discriminate.
Defined.

Section Delete.
Variable onParkDeleted : option (option Z -> list park -> list park).


(** A failed delete call: nothing is told to the parent; the dialog
    offers retry; retry runs the handler again from its start. *)
Lemma delete_failure park r rest parks e :
  online r = true ->
  confirmed r = true ->
  result r = Rejected e ->
  let shown := [Fire confirm_dialog; Fire progress_dialog; Call (delete_call park);
                Fire (ParkCard.failure_dialog e (online_after r))] in
  handleDeleteClick onParkDeleted park (r :: rest) parks
  = if retry r
    then (shown ++ (handleDeleteClick onParkDeleted park rest parks).1,
          (handleDeleteClick onParkDeleted park rest parks).2)
    else (shown, parks).
Proof.
  intros Ho Hc Hr. simpl. rewrite Ho, Hc, Hr. simpl.
  destruct (retry r); [|reflexivity].
  destruct (handleDeleteClick onParkDeleted park rest parks) as [more parks'].
  reflexivity.
Qed.

(** The calls of one invocation that does not invoke itself again. *)
Lemma delete_final_calls park r rest parks :
  final r ->
  calls (handleDeleteClick onParkDeleted park (r :: rest) parks).1
  = if online r && confirmed r then [delete_call park] else [].
Proof.
  intros Hf. simpl.
  destruct (online r); simpl; [|reflexivity].
  destruct (confirmed r); simpl; [|reflexivity].
  destruct (result r) as [status|e] eqn:Er.
  - unfold notify_parent. destruct onParkDeleted; reflexivity.
  - destruct Hf as [[status Hs]|Hn]; [congruence|].
    rewrite Hn. reflexivity.
Qed.


End Delete.

(** C5 (as amended): a delete attempt that fails leaves the parent's
    collection as it was and ends in a dialog that offers retry; when
    the user declines, the run ends there. When the user confirms
    retry the handler runs again from its start, on the same park and
    the same collection: it checks the connection and asks for the
    deletion to be confirmed again, and issues exactly one more
    [delete] call for the same identifier when the browser is online
    and the user confirms again, and none otherwise. *)
Theorem failed_delete_then_retry
    (onParkDeleted : option (option Z -> list park -> list park))
    (park : park) (r : round) (rest : list round) (parks : list Park.park)
    (e : axios_error)
    (Honline : online r = true) (Hconfirmed : confirmed r = true)
    (Hfailed : result r = Rejected e) :
  let shown := [Fire confirm_dialog; Fire progress_dialog; Call (delete_call park);
                Fire (ParkCard.failure_dialog e (online_after r))] in
  let out := handleDeleteClick onParkDeleted park (r :: rest) parks in
  offers_retry (ParkCard.failure_dialog e (online_after r)) = true
  /\ (retry r = false -> out = (shown, parks))
  /\ (retry r = true ->
        out = (shown ++ (handleDeleteClick onParkDeleted park rest parks).1,
               (handleDeleteClick onParkDeleted park rest parks).2)
        /\ forall r2 rest2, rest = r2 :: rest2 -> final r2 ->
             calls out.1 = if online r2 && confirmed r2
                           then [delete_call park; delete_call park]
                           else [delete_call park]).
Proof.
  cbv zeta.
  rewrite (delete_failure onParkDeleted park r rest parks e Honline Hconfirmed Hfailed).
  split; [reflexivity|]. split.
  - intros ->. reflexivity.
  - intros ->. split; [reflexivity|].
    intros r2 rest2 -> Hf. cbn [fst]. rewrite calls_app.
    rewrite (delete_final_calls onParkDeleted park r2 rest2 parks Hf).
    destruct (online r2 && confirmed r2); reflexivity.
Qed.

Lemma failed_delete_then_retry_witness :
  calls (handleDeleteClick (Some (ParkList.handleParkDeleted true))
           Samples.stored_image_park
           [Samples.timeout_then_retry; Samples.smooth_round]
           [Samples.stored_image_park]).1
  = [delete_call Samples.stored_image_park; delete_call Samples.stored_image_park].
Proof.
  destruct (failed_delete_then_retry (Some (ParkList.handleParkDeleted true))
              Samples.stored_image_park Samples.timeout_then_retry
              [Samples.smooth_round] [Samples.stored_image_park]
              Samples.timeout_error eq_refl eq_refl eq_refl) as (_ & _ & H).
  destruct (H eq_refl) as [_ H2].
  apply (H2 Samples.smooth_round []); [reflexivity|].
  left. exists 201%Z. reflexivity.
Defined.

(** C5, as worded, fails when the user confirms retry after a timeout
    and then declines the deletion dialog the handler shows again: no
    further [delete] call is issued. *)
Lemma retry_then_decline_issues_no_call :
  let out := handleDeleteClick (Some (ParkList.handleParkDeleted true))
               Samples.stored_image_park
               [Samples.timeout_then_retry; Samples.declined_round]
               [Samples.stored_image_park] in
  retry Samples.timeout_then_retry = true
  /\ calls out.1 = [delete_call Samples.stored_image_park]
  /\ length (calls out.1) <> 2%nat.
Proof. cbv zeta. repeat split. vm_compute. discriminate. Qed.

End CardFacts.

(** ** Failures of the network calls *)

Module FailureFacts.
Import JSFacts Validation Flow Park Retry FormFacts CardFacts.




(** The home page empties its collection when the list call fails,
    before the retry dialog is answered. *)
Lemma list_failure_empties_collection r rest parks e :
  Home.f_online r = true -> Home.f_result r = Home.Failed e -> Home.f_retry r = false ->
  Home.fetchParks (r :: rest) parks
  = ([Call Home.list_call; Fire (Home.failure_dialog e)], []).
Proof. intros Ho Hr Hn. simpl. rewrite Ho, Hr, Hn. reflexivity. Qed.

End FailureFacts.

(** ** The timeouts of the calls *)

Module ClientFacts.
Import Validation Flow Client FormFacts CardFacts.



(** The detail page gets a park with the same options as the edit
    form's load. *)
Lemma detail_get_call id : c_timeout (ParkDetail.get_call id) = c_timeout (call_of (get id)).
Proof. reflexivity. Qed.



End ClientFacts.

(** ** The list's derived view *)

Module ListFacts.
Import Park ParkList ListSpec.



(** *** Sorting *)

Section SortFacts.
Context {A : Type} (compare : A -> A -> Z).
Let le (a b : A) : Prop := (compare a b <= 0)%Z.

Hypothesis le_total : forall a b, le a b \/ le b a.
Hypothesis le_trans : forall a b c, le a b -> le b c -> le a c.

Lemma insert_sorted_Permutation x l : Permutation (insert_sorted compare x l) (x :: l).
Proof.
  induction l as [|y l IH]; simpl; [reflexivity|].
  destruct (compare x y <=? 0)%Z; [reflexivity|].
  rewrite IH. apply perm_swap.
Qed.

Lemma sort_Permutation l : Permutation (sort compare l) l.
Proof.
  induction l as [|x l IH]; simpl; [reflexivity|].
  rewrite insert_sorted_Permutation, IH. reflexivity.
Qed.

Lemma insert_sorted_StronglySorted x l :
  StronglySorted le l -> StronglySorted le (insert_sorted compare x l).
Proof.
  induction 1 as [|y l Hs IH Hy]; simpl.
  - repeat constructor.
  - destruct (Z.leb_spec (compare x y) 0) as [Hxy|Hxy].
    + constructor; [constructor; assumption|].
      constructor; [exact Hxy|].
      eapply List.Forall_impl; [|exact Hy]. intros z Hz. eapply le_trans; eassumption.
    + constructor; [assumption|].
      assert (Hyx : le y x).
      { destruct (le_total x y) as [H|H]; [unfold le in H; lia | exact H]. }
      eapply Permutation_Forall; [symmetry; apply insert_sorted_Permutation|].
      constructor; assumption.
Qed.

Lemma sort_StronglySorted l : StronglySorted le (sort compare l).
Proof.
  induction l as [|x l IH]; simpl; [constructor|].
  apply insert_sorted_StronglySorted, IH.
Qed.

End SortFacts.


Section View.
Variable toLowerCase : jsstring -> jsstring.
Variable localeCompare : jsstring -> jsstring -> Z.
Variable searchTerm : jsstring.
Variable filterCity : jsstring.
Variable sortBy : sort_key.

(** The collation is a total preorder. *)
Hypothesis localeCompare_total :
  forall a b, (localeCompare a b <= 0 \/ localeCompare b a <= 0)%Z.
Hypothesis localeCompare_trans :
  forall a b c, (localeCompare a b <= 0 -> localeCompare b c <= 0
                 -> localeCompare a c <= 0)%Z.





End View.

Lemma codeUnitCompare_total a : forall b,
  (codeUnitCompare a b <= 0 \/ codeUnitCompare b a <= 0)%Z.
Proof.
  induction a as [|x a IH]; intros [|y b]; simpl; try lia.
  destruct (N.ltb_spec x y), (N.ltb_spec y x); try lia. apply IH.
Qed.

Lemma codeUnitCompare_trans a : forall b c,
  (codeUnitCompare a b <= 0 -> codeUnitCompare b c <= 0 -> codeUnitCompare a c <= 0)%Z.
Proof.
  induction a as [|x a IH]; intros [|y b] [|z c]; simpl; try lia.
  destruct (N.ltb_spec x y), (N.ltb_spec y x), (N.ltb_spec y z), (N.ltb_spec z y),
           (N.ltb_spec x z), (N.ltb_spec z x); try lia.
  apply IH.
Qed.


End ListFacts.

(** ** The rules accept nothing else *)

Module RuleFacts.
Import Regex RegexFacts JSFacts Validation ValidationFacts Spec RuleSpec.

Lemma Lang_chars_inv l : forall x, Lang (RSeq (map chr l)) x -> x = l.
Proof.
  induction l as [|c l IH]; intros x H; simpl in H.
  - apply Lang_eps_inv in H. exact H.
  - apply Lang_cat_inv in H as (s1 & s2 & -> & H1 & H2).
    apply Lang_cls_inv in H1 as (a & -> & Ha). apply N.eqb_eq in Ha. subst a.
    simpl. f_equal. apply IH, H2.
Qed.

Lemma Lang_chars_i_inv l : forall x,
  Lang (RSeq (map chr_i l)) x -> map asciiUpper x = map asciiUpper l.
Proof.
  induction l as [|c l IH]; intros x H; simpl in H.
  - apply Lang_eps_inv in H. subst x. reflexivity.
  - apply Lang_cat_inv in H as (s1 & s2 & -> & H1 & H2).
    apply Lang_cls_inv in H1 as (a & -> & Ha). apply N.eqb_eq in Ha.
    simpl. rewrite Ha. f_equal. apply IH, H2.
Qed.

Lemma Lang_lit_inv s x : Lang (lit s) x -> x = js s.
Proof. apply Lang_chars_inv. Qed.

Lemma Lang_lit_i_inv s x : Lang (lit_i s) x -> eq_ignore_case x (js s).
Proof. apply Lang_chars_i_inv. Qed.

Lemma Lang_opt_inv r s : Lang (ROpt r) s -> Lang r s \/ s = [].
Proof.
  intros H. apply Lang_alt_inv in H as [H|H]; [left; exact H|].
  right. apply Lang_eps_inv, H.
Qed.

Lemma dot_one_line s :
  Forall (fun c => dot c = true) s -> one_line s.
Proof.
  intros H. eapply List.Forall_impl; [|exact H].
  intros c Hc. unfold dot in Hc. apply negb_true_iff in Hc. exact Hc.
Qed.

(** A string the image pattern matches has the worded shape. *)
Lemma test_img_url_re_inv v : test img_url_re v = true -> image_url v.
Proof.
  intros H. apply test_Lang in H. unfold img_url_re in H. simpl RSeq in H.
  apply Lang_cat_inv in H as (s1 & r1 & -> & H1 & H).
  apply Lang_cat_inv in H as (s2 & r2 & -> & H2 & H).
  apply Lang_cat_inv in H as (s3 & r3 & -> & H3 & H).
  apply Lang_cat_inv in H as (body & r4 & -> & H4 & H).
  apply Lang_cat_inv in H as (s5 & r5 & -> & H5 & H).
  apply Lang_cat_inv in H as (ext & r6 & -> & H6 & H).
  apply Lang_cat_inv in H as (query & r7 & -> & H7 & H).
  apply Lang_eps_inv in H. subst r7.
  apply Lang_lit_i_inv in H1. apply Lang_lit_inv in H3, H5. subst s3 s5.
  apply Lang_plus_cls_inv in H4 as [Hne Hb].
  exists (s1 ++ s2), body, ext, query.
  split; [rewrite app_nil_r, <- !app_assoc; reflexivity|].
  split.
  { apply Lang_opt_inv in H2 as [H2| ->].
    - right. apply Lang_lit_i_inv in H2. unfold eq_ignore_case in *.
      rewrite map_app, H1, H2. reflexivity.
    - left. rewrite app_nil_r. exact H1. }
  split; [exact Hne|]. split; [apply dot_one_line, Hb|].
  split.
  { apply Lang_alt_inv in H6 as [H6|H6]; [left; apply Lang_lit_i_inv, H6|].
    apply Lang_alt_inv in H6 as [H6|H6]; [right; left; apply Lang_lit_i_inv, H6|].
    apply Lang_alt_inv in H6 as [H6|H6];
      [right; right; left | right; right; right]; apply Lang_lit_i_inv, H6. }
  apply Lang_opt_inv in H7 as [H7| ->]; [|left; reflexivity].
  right. apply Lang_cat_inv in H7 as (q0 & q & -> & Hq0 & Hq).
  apply Lang_lit_inv in Hq0. subst q0.
  exists q. split; [reflexivity|]. apply dot_one_line, Lang_star_cls_inv, Hq.
Qed.

(** A string the postal code pattern matches has the worded shape. *)
Lemma test_zip_code_re_inv v : test zip_code_re v = true -> regional_zip v.
Proof.
  intros H. apply test_Lang in H. unfold zip_code_re in H. simpl RSeq in H.
  apply Lang_cat_inv in H as (s1 & r1 & -> & H1 & H).
  apply Lang_cat_inv in H as (s2 & r2 & -> & H2 & H).
  apply Lang_cat_inv in H as (s3 & r3 & -> & H3 & H).
  apply Lang_eps_inv in H. subst r3.
  apply (Lang_lit_inv "4") in H1. subst s1.
  apply Lang_cls_inv in H2 as (d1 & -> & Hd1).
  simpl RRep in H3.
  apply Lang_cat_inv in H3 as (x2 & y2 & -> & Hx2 & H3).
  apply Lang_cat_inv in H3 as (x3 & y3 & -> & Hx3 & H3).
  apply Lang_cat_inv in H3 as (x4 & y4 & -> & Hx4 & H3).
  apply Lang_eps_inv in H3. subst y4.
  apply Lang_cls_inv in Hx2 as (d2 & -> & Hd2).
  apply Lang_cls_inv in Hx3 as (d3 & -> & Hd3).
  apply Lang_cls_inv in Hx4 as (d4 & -> & Hd4).
  exists d1, d2, d3, d4. split; [reflexivity|].
  rewrite digit_unfold in Hd2, Hd3, Hd4.
  change (in_range "4" "5" d1) with ((52 <=? d1) && (d1 <=? 53)) in Hd1.
  bool_to_prop. lia.
Qed.

Lemma includes_In l v : includes l v = true <-> In v l.
Proof.
  unfold includes. rewrite existsb_exists. split.
  - intros (x & Hin & Hx). unfold jsstring_eqb in Hx.
    apply bool_decide_eq_true in Hx. subst x. exact Hin.
  - intros H. exists v. split; [exact H|].
    unfold jsstring_eqb. apply bool_decide_eq_true. reflexivity.
Qed.

Lemma numeric_rule_inv (x : Num.jsnum) (lo hi : Q) :
  Num.isNaN x || Num.lt x (Num.Fin lo) || Num.gt x (Num.Fin hi) = false ->
  exists q, x = Num.Fin q /\ (lo <= q)%Q /\ (q <= hi)%Q.
Proof.
  intros H. apply orb_false_iff in H as [H Hgt].
  apply orb_false_iff in H as [Hnan Hlt].
  destruct x as [| |q|]; try discriminate.
  exists q. split; [reflexivity|].
  unfold Num.gt in Hgt. simpl in Hlt, Hgt.
  apply negb_false_iff in Hlt, Hgt.
  split; apply Qle_bool_iff; assumption.
Qed.

Lemma apply_rule_None_iff (ToNumber : jsstring -> Num.jsnum)
    (f : field) (v : jsstring) :
  apply_rule ToNumber f v = None <-> accepted ToNumber f v.
Proof.
  unfold apply_rule. destruct f; simpl validationRules; cbn [accepted].
  - unfold rule_park_name, within_bounds. cbn [bounds]. split.
    + destruct (truthy (trim v)) eqn:Ht; cbn [negb]; [|discriminate].
      destruct (Nat.ltb_spec (length v) 3); [discriminate|].
      destruct (Nat.ltb_spec 100 (length v)); [discriminate|].
      destruct (test name_re (trim v)) eqn:Hr; cbn [negb]; [|discriminate].
      intros _. split; [apply truthy_true, Ht|]. split; [lia|].
      apply test_Lang, Lang_plus_cls_inv in Hr as [_ Hr].
      eapply List.Forall_impl; [|exact Hr].
      intros c Hc. unfold letter_or_space in Hc.
      apply orb_true_iff in Hc. exact Hc.
    + intros (Ht & [Hlo Hhi] & Hc).
      apply truthy_true in Ht as Ht'. rewrite Ht'. cbn [negb].
      destruct (Nat.ltb_spec (length v) 3); [lia|].
      destruct (Nat.ltb_spec 100 (length v)); [lia|].
      rewrite test_name_re by assumption. reflexivity.
  - unfold rule_park_abbreviation, within_bounds. cbn [bounds]. split.
    + destruct (truthy (trim v)) eqn:Ht; cbn [negb]; [|discriminate].
      destruct (Nat.ltb_spec (length v) 2); [discriminate|].
      destruct (Nat.ltb_spec 10 (length v)); [discriminate|].
      destruct (test abbreviation_re (trim v)) eqn:Hr; cbn [negb]; [|discriminate].
      intros _. split; [apply truthy_true, Ht|]. split; [lia|].
      apply test_Lang, Lang_plus_cls_inv in Hr as [_ Hr]. exact Hr.
    + intros (Ht & [Hlo Hhi] & Hc).
      apply truthy_true in Ht as Ht'. rewrite Ht'. cbn [negb].
      destruct (Nat.ltb_spec (length v) 2); [lia|].
      destruct (Nat.ltb_spec 10 (length v)); [lia|].
      rewrite test_abbreviation_re by assumption. reflexivity.
  - unfold rule_park_img_url. split.
    + destruct (truthy (trim v)); cbn [negb]; [|discriminate].
      destruct (test img_url_re v) eqn:Hr; cbn [negb]; [|discriminate].
      intros _. apply test_img_url_re_inv, Hr.
    + intros Hu. pose proof (image_url_trim v Hu) as Ht.
      apply truthy_true in Ht. rewrite Ht. cbn [negb].
      rewrite test_img_url_re by assumption. reflexivity.
  - unfold rule_park_address, within_bounds. cbn [bounds]. split.
    + destruct (truthy (trim v)) eqn:Ht; cbn [negb]; [|discriminate].
      destruct (Nat.ltb_spec (length v) 10); [discriminate|].
      destruct (Nat.ltb_spec 150 (length v)); [discriminate|].
      intros _. split; [apply truthy_true, Ht | lia].
    + intros (Ht & [Hlo Hhi]).
      apply truthy_true in Ht as Ht'. rewrite Ht'. cbn [negb].
      destruct (Nat.ltb_spec (length v) 10); [lia|].
      destruct (Nat.ltb_spec 150 (length v)); [lia|]. reflexivity.
  - unfold rule_park_city. split.
    + destruct (truthy v); cbn [negb]; [|discriminate].
      destruct (includes validCities v) eqn:Hi; cbn [negb]; [|discriminate].
      intros _. apply includes_In, Hi.
    + intros H. apply (within_no_error ToNumber park_city v H).
  - tauto.
  - unfold rule_park_zip_code. split.
    + destruct (truthy v); cbn [negb]; [|discriminate].
      destruct (test zip_code_re v) eqn:Hr; cbn [negb]; [|discriminate].
      intros _. apply test_zip_code_re_inv, Hr.
    + intros H. apply (within_no_error ToNumber park_zip_code v H).
  - unfold rule_park_latitude, numeric_within. split.
    + destruct (truthy v) eqn:Ht; cbn [negb]; [|discriminate].
      destruct (_ || _ || _) eqn:Hn; [discriminate|].
      intros _. split; [apply truthy_true, Ht|].
      apply numeric_rule_inv, Hn.
    + intros H. apply (within_no_error ToNumber park_latitude v H).
  - unfold rule_park_longitude, numeric_within. split.
    + destruct (truthy v) eqn:Ht; cbn [negb]; [|discriminate].
      destruct (_ || _ || _) eqn:Hn; [discriminate|].
      intros _. split; [apply truthy_true, Ht|].
      apply numeric_rule_inv, Hn.
    + intros H. apply (within_no_error ToNumber park_longitude v H).
Qed.

(** X1: each rule returns no error exactly on the values of its
    worded shape: for the name and the abbreviation the trimmed value
    is non-empty and made of the listed characters while the raw
    length is within the bounds; for the address the trimmed value is
    non-empty and the raw length within the bounds; the image URL and
    the postal code have the shape of their pattern; the city is one
    of the four; latitude and longitude convert to a finite number in
    the range. Every other value gets a message. *)
Theorem rules_accept_exactly (ToNumber : jsstring -> Num.jsnum)
    (f : field) (v : jsstring) :
  apply_rule ToNumber f v = None <-> accepted ToNumber f v.
Proof. apply apply_rule_None_iff. Qed.

End RuleFacts.

(** ** Live validation and validation on submit *)

Module LiveValidationFacts.
Import JSFacts Validation ValidationFacts Spec Typing.

Section Live.
Variable ToNumber : jsstring -> Num.jsnum.

(** What [validate] stores is the rule's answer itself. *)
Lemma validate_stores name value (errors : errors_t) :
  validate ToNumber name value errors
  = (<[name := apply_rule ToNumber name value]> errors,
     bool_decide (apply_rule ToNumber name value = None)).
Proof.
  unfold validate. rewrite is_error_apply_rule.
  destruct (apply_rule ToNumber name value) as [m|]; reflexivity.
Qed.

Lemma handleChange_in_step f v st :
  in_step ToNumber st -> in_step ToNumber (ParkForm.handleChange ToNumber f v st).
Proof.
  intros H k x. unfold ParkForm.handleChange. cbn [ParkForm.errors ParkForm.formData].
  rewrite validate_stores. cbn [fst].
  destruct (decide (k = f)) as [->|Hne].
  - rewrite lookup_insert_eq, get_set_eq. congruence.
  - rewrite lookup_insert_ne, get_set_ne by congruence. apply H.
Qed.

Lemma handleChange_dom f v st :
  dom (ParkForm.errors (ParkForm.handleChange ToNumber f v st))
  = {[ f ]} ∪ dom (ParkForm.errors st).
Proof.
  unfold ParkForm.handleChange. cbn [ParkForm.errors].
  rewrite validate_stores. cbn [fst]. apply dom_insert_L.
Qed.

Lemma type_all_in_step evs : forall st, in_step ToNumber st -> in_step ToNumber (type_all ToNumber st evs).
Proof.
  unfold type_all. induction evs as [|[f v] evs IH]; intros st H; cbn [foldl]; [exact H|].
  apply IH, handleChange_in_step, H.
Qed.

Lemma type_all_dom evs : forall st,
  dom (ParkForm.errors (type_all ToNumber st evs)) = touched evs ∪ dom (ParkForm.errors st).
Proof.
  unfold type_all, touched.
  induction evs as [|[f v] evs IH]; intros st; cbn [foldl map list_to_set fst snd].
  - set_solver.
  - rewrite IH, handleChange_dom. set_solver.
Qed.

Lemma type_all_untouched evs k : forall st,
  k ∉ touched evs ->
  get (ParkForm.formData (type_all ToNumber st evs)) k = get (ParkForm.formData st) k.
Proof.
  unfold type_all, touched.
  induction evs as [|[f v] evs IH]; intros st Hk; cbn [foldl map list_to_set fst snd] in *;
    [reflexivity|].
  rewrite IH by set_solver.
  unfold ParkForm.handleChange. cbn [ParkForm.formData].
  apply get_set_ne. set_solver.
Qed.

End Live.

(** X2: after any sequence of changes typed into a fresh create form
    (each followed by its delayed validation), the [errors] object
    has a key for exactly the fields that were touched, the entry
    under each key is the rule's answer on the value the draft now
    holds for that field, and the fields never touched still hold
    their initial value. *)
Theorem live_validation_follows_draft (ToNumber : jsstring -> Num.jsnum)
    (evs : list (field * jsstring)) :
  let st := type_all ToNumber ParkForm.initial evs in
  dom (ParkForm.errors st) = touched evs
  /\ (forall f, f ∈ touched evs ->
        ParkForm.errors st !! f
        = Some (apply_rule ToNumber f (get (ParkForm.formData st) f)))
  /\ (forall f, f ∉ touched evs ->
        get (ParkForm.formData st) f = get ParkForm.initial_formData f).
Proof.
  cbv zeta. split; [|split].
  - rewrite type_all_dom. cbn [ParkForm.initial ParkForm.errors]. set_solver.
  - intros f Hf.
    assert (Hd : f ∈ dom (ParkForm.errors (type_all ToNumber ParkForm.initial evs))).
    { rewrite type_all_dom. set_solver. }
    apply elem_of_dom in Hd as [x Hx]. rewrite Hx. f_equal.
    apply (type_all_in_step ToNumber evs ParkForm.initial); [|exact Hx].
    intros k y Hy. cbn [ParkForm.initial ParkForm.errors] in Hy.
    rewrite lookup_empty in Hy. discriminate.
  - intros f Hf. apply (type_all_untouched ToNumber evs f ParkForm.initial Hf).
Qed.

Lemma live_validation_follows_draft_witness :
  ParkForm.errors (type_all Num.decimal ParkForm.initial [(park_name, js "ab")])
    !! park_name
  = Some (apply_rule Num.decimal park_name
            (get (ParkForm.formData
                    (type_all Num.decimal ParkForm.initial [(park_name, js "ab")]))
                 park_name)).
Proof.
  apply (proj1 (proj2 (live_validation_follows_draft Num.decimal
                         [(park_name, js "ab")])) park_name).
  apply (bool_decide_unpack _). vm_compute. exact I.
Defined.

Lemma size_ruled_fields : size ruled_fields = 8%nat.
Proof. reflexivity. Qed.

(** X3: [validateAll] accepts a draft exactly when the mapping it
    builds is empty, and exactly when every rule returns no error on
    the draft; the mapping has a key for exactly the fields whose rule
    returns a message, which are the fields on which [validate] would
    answer false, so it never has more than eight entries. *)
Theorem validateAll_verdict (ToNumber : jsstring -> Num.jsnum) (fd : formData_t) :
  ((validateAll ToNumber fd).2 = true <-> (validateAll ToNumber fd).1 = ∅)
  /\ ((validateAll ToNumber fd).2 = true <-> fully_valid ToNumber fd)
  /\ (forall k, k ∈ dom (validateAll ToNumber fd).1
                <-> apply_rule ToNumber k (get fd k) <> None)
  /\ (forall k (errors : errors_t),
        k ∈ dom (validateAll ToNumber fd).1
        <-> (validate ToNumber k (get fd k) errors).2 = false)
  /\ (size (validateAll ToNumber fd).1 <= 8)%nat.
Proof.
  assert (Hdom : forall k, k ∈ dom (validateAll ToNumber fd).1
                           <-> apply_rule ToNumber k (get fd k) <> None).
  { intros k. rewrite elem_of_dom, validateAll_lookup.
    destruct (apply_rule ToNumber k (get fd k)); split; intros H;
      try congruence; try (eexists; reflexivity).
    destruct H as [x H]. discriminate. }
  split; [apply validateAll_valid_iff_empty|]. split; [|split; [exact Hdom|split]].
  - rewrite validateAll_valid, forallb_forall. unfold fully_valid. split.
    + intros H k. specialize (H k (proj1 (list_elem_of_In _ _) (elem_of_keys k))).
      rewrite is_error_apply_rule in H. apply negb_true_iff, bool_decide_eq_false in H.
      destruct (apply_rule ToNumber k (get fd k)); [exfalso; apply H; discriminate|].
      reflexivity.
    + intros H k _. rewrite H. reflexivity.
  - intros k errors. rewrite Hdom, validate_stores. cbn [snd].
    rewrite bool_decide_eq_false. reflexivity.
  - rewrite <- size_dom, <- size_ruled_fields. apply subseteq_size.
    intros k Hk. apply Hdom in Hk. unfold ruled_fields.
    destruct k; set_solver.
Qed.

End LiveValidationFacts.

(** ** What a run of a handler never does *)

Module RunFacts.
Import JSFacts Validation ValidationFacts Flow Park Consent FormFacts CardFacts.

Lemma calls_length_app t1 t2 : length (calls (t1 ++ t2)) = (length (calls t1) + length (calls t2))%nat.
Proof. rewrite calls_app, length_app. reflexivity. Qed.

Lemma create_handleSubmit_cons ToNumber fd errs r rest st :
  ParkForm.handleSubmit ToNumber fd errs (r :: rest) st
  = if negb (online r) then ([Fire ParkForm.offline_dialog], st)
    else
      let '(newErrors, isValid) := validateAll ToNumber fd in
      let st1 := ParkForm.mkState (ParkForm.formData st) newErrors (ParkForm.isSubmitting st) in
      if negb isValid then ([Fire (ParkForm.incomplete_dialog (size errs))], st1)
      else if negb (confirmed r) then ([Fire (ParkForm.confirm_dialog fd)], st1)
      else
        let before := [Fire (ParkForm.confirm_dialog fd); Fire ParkForm.progress_dialog;
                       Call (ParkForm.post_call fd)] in
        match result r with
        | Resolved _ =>
          (before ++ [Fire (ParkForm.success_dialog fd); Navigate (js "/") true],
           ParkForm.mkState ParkForm.initial_formData ∅ false)
        | Rejected e =>
          let shown := before ++ [Fire (ParkForm.failure_dialog e)] in
          let st2 := ParkForm.mkState (ParkForm.formData st) newErrors false in
          if retry r then
            let '(more, st3) := ParkForm.handleSubmit ToNumber fd errs rest st2 in
            (shown ++ more, st3)
          else (shown, st2)
        end.
Proof. reflexivity. Qed.

Lemma delete_handleDeleteClick_cons onParkDeleted park r rest parks :
  ParkCard.handleDeleteClick onParkDeleted park (r :: rest) parks
  = if negb (online r) then ([Fire ParkCard.offline_dialog], parks)
    else if negb (confirmed r) then ([Fire ParkCard.confirm_dialog], parks)
    else
      let before := [Fire ParkCard.confirm_dialog; Fire ParkCard.progress_dialog;
                     Call (ParkCard.delete_call park)] in
      match result r with
      | Resolved _ =>
        let '(told, parks') := ParkCard.notify_parent onParkDeleted (id park) parks in
        (before ++ [Fire ParkCard.success_dialog] ++ told, parks')
      | Rejected e =>
        let shown := before ++ [Fire (ParkCard.failure_dialog e (online_after r))] in
        if retry r then
          let '(more, parks') := ParkCard.handleDeleteClick onParkDeleted park rest parks in
          (shown ++ more, parks')
        else (shown, parks)
      end.
Proof. reflexivity. Qed.

Lemma confirmations_cons r rest :
  confirmations (r :: rest)
  = ((if asked r then 1 else 0) + confirmations rest)%nat.
Proof. unfold confirmations. cbn [List.filter]. destruct (asked r); reflexivity. Qed.

Lemma create_calls_bound ToNumber fd errs script : forall st,
  (length (calls (ParkForm.handleSubmit ToNumber fd errs script st).1)
   <= confirmations script)%nat.
Proof.
  induction script as [|r rest IH]; intros st; [cbn; lia|].
  rewrite create_handleSubmit_cons, confirmations_cons. unfold asked.
  destruct (online r); cbn [negb andb]; [|cbn; lia].
  destruct (validateAll ToNumber fd) as [newErrors isValid].
  destruct isValid; cbn [negb]; [|destruct (confirmed r); cbn; lia].
  destruct (confirmed r); cbn [negb]; [|cbn; lia].
  destruct (result r) as [status|e]; [cbn; lia|].
  destruct (retry r); [|cbn; lia].
  specialize (IH (ParkForm.mkState (ParkForm.formData st) newErrors false)).
  destruct (ParkForm.handleSubmit ToNumber fd errs rest _) as [more st3].
  cbn [fst] in *. rewrite calls_length_app. cbn [calls length app]. lia.
Qed.

Lemma edit_calls_bound ToNumber id fd orig errs script : forall st,
  (length (calls (ParkEditForm.handleSubmit ToNumber id fd orig errs script st).1)
   <= confirmations script)%nat.
Proof.
  induction script as [|r rest IH]; intros st; [cbn; lia|].
  rewrite edit_handleSubmit_cons, confirmations_cons. unfold asked.
  destruct (online r); cbn [negb andb]; [|cbn; lia].
  destruct (validateAll ToNumber fd) as [newErrors isValid].
  destruct isValid; cbn [negb]; [|destruct (confirmed r); cbn; lia].
  destruct (ParkEditForm.hasChanges fd orig); cbn [negb];
    [|destruct (confirmed r); cbn; lia].
  destruct (confirmed r); cbn [negb]; [|cbn; lia].
  destruct (result r) as [status|e].
  - destruct (bool_decide (status = 200%Z) || bool_decide (status = 201%Z)); cbn; lia.
  - destruct (retry r); [|cbn; lia].
    specialize (IH (ParkEditForm.mkState (ParkEditForm.formData st)
                      (ParkEditForm.originalData st) newErrors false)).
    destruct (ParkEditForm.handleSubmit ToNumber id fd orig errs rest _) as [more st3].
    cbn [fst] in *. rewrite calls_length_app. cbn [calls length app]. lia.
Qed.

Lemma delete_calls_bound onParkDeleted park script : forall parks,
  (length (calls (ParkCard.handleDeleteClick onParkDeleted park script parks).1)
   <= confirmations script)%nat.
Proof.
  induction script as [|r rest IH]; intros parks; [cbn; lia|].
  rewrite delete_handleDeleteClick_cons, confirmations_cons. unfold asked.
  destruct (online r); cbn [negb andb]; [|cbn; lia].
  destruct (confirmed r); cbn [negb]; [|cbn; lia].
  destruct (result r) as [status|e].
  - unfold ParkCard.notify_parent. destruct onParkDeleted; cbn; lia.
  - destruct (retry r); [|cbn; lia].
    specialize (IH parks).
    destruct (ParkCard.handleDeleteClick onParkDeleted park rest parks) as [more parks'].
    cbn [fst] in *. rewrite calls_length_app. cbn [calls length app]. lia.
Qed.

(** X4: no run of the create handler, the edit handler or the card's
    delete handler issues more HTTP calls than the number of
    invocations in which the browser was online at the start and the
    user confirmed the dialog; in particular a run in which the user
    never confirms while online issues no call at all. *)
Theorem calls_need_confirmation (ToNumber : jsstring -> Num.jsnum)
    (script : list round) :
  (forall fd errs st,
     (length (calls (ParkForm.handleSubmit ToNumber fd errs script st).1)
      <= confirmations script)%nat)
  /\ (forall id fd orig errs st,
        (length (calls (ParkEditForm.handleSubmit ToNumber id fd orig errs script st).1)
         <= confirmations script)%nat)
  /\ (forall onParkDeleted park parks,
        (length (calls (ParkCard.handleDeleteClick onParkDeleted park script parks).1)
         <= confirmations script)%nat)
  /\ (confirmations script = 0%nat ->
        (forall fd errs st,
           calls (ParkForm.handleSubmit ToNumber fd errs script st).1 = [])
        /\ (forall id fd orig errs st,
              calls (ParkEditForm.handleSubmit ToNumber id fd orig errs script st).1 = [])
        /\ (forall onParkDeleted park parks,
              calls (ParkCard.handleDeleteClick onParkDeleted park script parks).1 = [])).
Proof.
  split; [intros; apply create_calls_bound|].
  split; [intros; apply edit_calls_bound|].
  split; [intros; apply delete_calls_bound|].
  intros H0. split; [|split].
  - intros fd errs st. apply length_zero_iff_nil.
    pose proof (create_calls_bound ToNumber fd errs script st). lia.
  - intros i fd orig errs st. apply length_zero_iff_nil.
    pose proof (edit_calls_bound ToNumber i fd orig errs script st). lia.
  - intros cb p parks. apply length_zero_iff_nil.
    pose proof (delete_calls_bound cb p script parks). lia.
Qed.

Lemma calls_need_confirmation_witness :
  calls (ParkCard.handleDeleteClick None Samples.stored_image_park
           [Samples.declined_round; Samples.declined_round] []).1 = [].
Proof.
  destruct (calls_need_confirmation Num.decimal
              [Samples.declined_round; Samples.declined_round]) as (_ & _ & _ & H).
  destruct (H eq_refl) as (_ & _ & Hd).
  apply Hd.
Defined.

End RunFacts.

(** ** How a run of a submit handler ends *)

Module OutcomeFacts.
Import JSFacts Validation ValidationFacts Flow Park Consent FormFacts RunFacts.




(** X6: an update the server answers with a success status other
    than 200 and 201 (204, say) gets no feedback: the run ends with
    the call, no dialog follows it and nothing navigates; the draft
    and the snapshot stay as they were, so the form goes on reporting
    unsaved changes. *)
Theorem update_other_status_is_silent (ToNumber : jsstring -> Num.jsnum)
    (id : jsstring) (r : round) (rest : list round) (st : ParkEditForm.state)
    (status : Z)
    (Honline : online r = true)
    (Hvalid : (validateAll ToNumber (ParkEditForm.formData st)).2 = true)
    (Hchanged : ParkEditForm.hasChanges (ParkEditForm.formData st)
                  (ParkEditForm.originalData st) = true)
    (Hconfirmed : confirmed r = true)
    (Hresolved : result r = Resolved status)
    (Hstatus : status <> 200%Z /\ status <> 201%Z) :
  let out := ParkEditForm.submit ToNumber id (r :: rest) st in
  out.1 = [Fire ParkEditForm.confirm_dialog; Fire ParkEditForm.progress_dialog;
           Call (ParkEditForm.put_call id (ParkEditForm.formData st))]
  /\ ParkEditForm.formData out.2 = ParkEditForm.formData st
  /\ ParkEditForm.originalData out.2 = ParkEditForm.originalData st
  /\ ParkEditForm.isSubmitting out.2 = false
  /\ ParkEditForm.hasChanges (ParkEditForm.formData out.2)
       (ParkEditForm.originalData out.2) = true.
Proof.
  cbv zeta. unfold ParkEditForm.submit.
  rewrite edit_handleSubmit_cons, Honline, Hchanged, Hconfirmed, Hresolved.
  destruct (validateAll ToNumber (ParkEditForm.formData st)) as [newErrors isValid].
  cbn [snd] in Hvalid. subst isValid. cbn [negb].
  destruct Hstatus as [H200 H201].
  rewrite !bool_decide_eq_false_2 by assumption. cbn [orb fst snd].
  repeat split. exact Hchanged.
Qed.

Lemma update_other_status_is_silent_witness :
  let st := ParkEditForm.handleChange Num.decimal park_name (js "Parque Metropolitano Dos")
              (ParkEditForm.loaded
                 (mkPark (Some 7%Z) (Some (js "Parque Metropolitano")) (Some (js "PM"))
                    (Some (js "https://ejemplo.com/imagen.jpg")) None
                    (Some (js "Av. Alcalde 1351, Col. Miraflores"))
                    (Some (js "Zapopan")) (Some (js "Jalisco")) (Some (js "44100"))
                    (Some (js "20.6597")) (Some (js "-103.3496")))
                 ParkEditForm.initial) in
  (ParkEditForm.submit Num.decimal (js "7")
     [mkRound true true (Resolved 204) false true] st).1
  = [Fire ParkEditForm.confirm_dialog; Fire ParkEditForm.progress_dialog;
     Call (ParkEditForm.put_call (js "7") (ParkEditForm.formData st))].
Proof.
  cbv zeta.
  refine (proj1 (update_other_status_is_silent Num.decimal (js "7")
                   (mkRound true true (Resolved 204) false true) [] _ 204
                   eq_refl _ _ eq_refl eq_refl _)).
  - vm_compute. reflexivity.
  - vm_compute. reflexivity.
  - split; discriminate.
Defined.

End OutcomeFacts.

(** ** The edit page: dirty tracking, summary of changes, load *)

Module EditPageFacts.
Import JSFacts Validation ValidationFacts Flow Park Consent FormFacts EditPage.

Lemma formData_ext fd o : (forall k, get fd k = get o k) -> fd = o.
Proof.
  intros H. destruct fd, o.
  pose proof (H park_name). pose proof (H park_abbreviation).
  pose proof (H park_img_url). pose proof (H park_address).
  pose proof (H park_city). pose proof (H park_state).
  pose proof (H park_zip_code). pose proof (H park_latitude).
  pose proof (H park_longitude). cbn [get] in *.
  cbn in *. congruence.
Qed.

Lemma set_get_back f v o : set f (get o f) (set f v o) = o.
Proof. destruct o, f; reflexivity. Qed.

Lemma edit_handleChange_snapshot ToNumber evs : forall st,
  ParkEditForm.originalData
    (foldl (fun st ev => ParkEditForm.handleChange ToNumber ev.1 ev.2 st) st evs)
  = ParkEditForm.originalData st.
Proof.
  induction evs as [|[f v] evs IH]; intros st; cbn [foldl]; [reflexivity|].
  rewrite IH. reflexivity.
Qed.

(** X7: the edit form's "has changes" test, a comparison of the two
    JSON texts, is exact: with a snapshot taken, it answers false
    precisely when every field of the draft equals the snapshot's,
    whatever characters the values hold. Typing into the form never
    alters the snapshot, typing a field's original value back clears
    the flag, and the back button leaves without asking exactly when
    the draft equals the snapshot. *)
Theorem dirty_tracking_is_exact (ToNumber : jsstring -> Num.jsnum)
    (fd o : formData_t) :
  (ParkEditForm.hasChanges fd (Some o) = false <-> forall k, get fd k = get o k)
  /\ ParkEditForm.hasChanges fd None = true
  /\ (forall f v, ParkEditForm.hasChanges (set f (get o f) (set f v o)) (Some o) = false)
  /\ (forall st evs,
        ParkEditForm.originalData
          (foldl (fun st ev => ParkEditForm.handleChange ToNumber ev.1 ev.2 st) st evs)
        = ParkEditForm.originalData st)
  /\ (forall isConfirmed,
        handleBack fd (Some o) isConfirmed = [Navigate (js "/") false]
        <-> fd = o).
Proof.
  split; [|split; [|split; [|split]]].
  - rewrite hasChanges_spec. split.
    + intros [= ->] k. reflexivity.
    + intros H. f_equal. symmetry. apply formData_ext, H.
  - apply not_false_iff_true. intros H. apply hasChanges_spec in H. discriminate H.
  - intros f v. rewrite set_get_back. apply hasChanges_same.
  - intros st evs. apply edit_handleChange_snapshot.
  - intros c. unfold handleBack.
    destruct (ParkEditForm.hasChanges fd (Some o)) eqn:E.
    + split; [intros H; discriminate H|].
      intros ->. rewrite hasChanges_same in E. discriminate E.
    + apply hasChanges_spec in E. split; [congruence | reflexivity].
Qed.

(** *** The summary of changes *)

Lemma differs_spec fd o k :
  differs fd (Some o) k = true <-> get fd k <> get o k.
Proof.
  unfold differs. cbn [original_value].
  rewrite negb_true_iff, bool_decide_eq_false. split; intros H E; apply H; congruence.
Qed.

Lemma filter_nil_iff {A} (p : A -> bool) l :
  List.filter p l = [] <-> forall x, In x l -> p x = false.
Proof.
  induction l as [|a l IH]; cbn [List.filter];
    [split; [intros _ x [] | reflexivity]|].
  destruct (p a) eqn:E; split.
  - discriminate.
  - intros H. rewrite (H a (or_introl eq_refl)) in E. discriminate.
  - intros H x [<-|Hx]; [exact E | apply IH; assumption].
  - intros H. apply IH. intros x Hx. apply H. right. exact Hx.
Qed.

(** X8: the summary of changes built for the confirmation dialog has
    one line per field whose value differs from the snapshot's, and
    it is empty exactly when "has changes" answers false; so the
    dialog, which is reached only with changes, always lists at
    least one. The dialog shows the first five lines and counts the
    rest: the lines shown and the lines left out add up to all of
    them. *)
Theorem changes_agree_with_hasChanges (fd : formData_t) (orig : option formData_t) :
  (changes fd orig = [] <-> ParkEditForm.hasChanges fd orig = false)
  /\ length (changes fd orig)
     = length (List.filter (differs fd orig) keys)
  /\ (forall o k, orig = Some o ->
        (In k (List.filter (differs fd orig) keys) <-> get fd k <> get o k))
  /\ (orig = None -> length (changes fd orig) = 9%nat)
  /\ (length (shown_changes (changes fd orig))
      + default 0%nat (left_out (changes fd orig))
      = length (changes fd orig))%nat
  /\ (length (shown_changes (changes fd orig)) <= 5)%nat.
Proof.
  split; [|split; [|split; [|split; [|split]]]].
  - unfold changes. destruct orig as [o|].
    + rewrite hasChanges_spec. split.
      * intros H. apply map_eq_nil in H.
        f_equal. symmetry. apply formData_ext. intros k.
        pose proof (proj1 (filter_nil_iff _ _) H k
                      (proj1 (list_elem_of_In _ _) (elem_of_keys k))) as Hk.
        destruct (decide (get fd k = get o k)) as [E|E]; [exact E|].
        apply differs_spec in E. congruence.
      * intros [= ->]. replace (List.filter (differs fd (Some fd)) keys) with (@nil field);
          [reflexivity|].
        symmetry. apply filter_nil_iff. intros k _.
        apply not_true_iff_false. intros E. apply differs_spec in E. congruence.
    + split; [intros H; discriminate H|].
      intros H. apply hasChanges_spec in H. discriminate H.
  - unfold changes. apply length_map.
  - intros o k ->. rewrite filter_In, differs_spec. split; [intros [_ H]; exact H|].
    intros H. split; [|exact H]. apply list_elem_of_In, elem_of_keys.
  - intros ->. reflexivity.
  - unfold shown_changes, left_out. rewrite length_take.
    destruct (Nat.ltb_spec 5 (length (changes fd orig))) as [H|H].
    + rewrite Nat.min_l by lia. change (default 0%nat (Some ?n)) with n. lia.
    + rewrite Nat.min_r by lia. change (default 0%nat None) with 0%nat. lia.
  - unfold shown_changes. rewrite length_take. apply Nat.le_min_l.
Qed.

Lemma changes_agree_with_hasChanges_witness :
  length (changes Samples.metropolitano None) = 9%nat.
Proof.
  apply (proj1 (proj2 (proj2 (proj2
           (changes_agree_with_hasChanges Samples.metropolitano None))))).
  reflexivity.
Defined.

(** *** The load effect *)

Lemma load_classify_nonempty id e : (classify id e).1 <> [] /\ (classify id e).2 <> [].
Proof.
  unfold classify.
  repeat match goal with |- context [if ?b then _ else _] => destruct b end;
    split; vm_compute; discriminate.
Qed.

(** X9: the load effect of the edit page seeds the draft and the
    snapshot together or not at all. It seeds them exactly when the
    browser is online and the call delivers a park with a non-empty
    name: then draft and snapshot are the same record, its name is
    non-empty, "has changes" answers false and nothing navigates. In
    every other case the form is left as it was and the run ends by
    leaving the page: back to the list when offline or when the user
    declines the retry the failure dialog offers, by a reload when
    the user accepts it. A park without a name is handled as a
    failed load. At most one call is issued. *)
Theorem load_seeds_all_or_nothing (id : jsstring) (r : load_round) (pg : page) :
  let out := fetchPark id r pg in
  let named := exists p, l_response r = Got (Some p) /\ ParkCard.present (p_name p) = true in
  (l_online r = true -> named ->
     exists p, l_response r = Got (Some p)
       /\ ParkEditForm.formData (form out.2) = ParkEditForm.parkData p
       /\ ParkEditForm.originalData (form out.2) = Some (ParkEditForm.parkData p)
       /\ fd_park_name (ParkEditForm.formData (form out.2)) <> []
       /\ ParkEditForm.hasChanges (ParkEditForm.formData (form out.2))
            (ParkEditForm.originalData (form out.2)) = false
       /\ existsb navigates out.1 = false /\ loading out.2 = false)
  /\ (l_online r = false ->
        out = ([Fire EditPage.offline_dialog; Navigate (js "/") false], pg))
  /\ (l_online r = true -> ~ named ->
        form out.2 = form pg /\ loading out.2 = false
        /\ exists d, offers_retry d = true /\ d_text d <> Some []
             /\ out.1 = [Call (ParkEditForm.get_call id); Fire d]
                          ++ (if l_retry r then [Reload] else [Navigate (js "/") false]))
  /\ (length (calls out.1) <= 1)%nat.
Proof.
  cbv zeta. unfold fetchPark.
  assert (Hfail : forall e,
    form (fail id e r pg).2 = form pg /\ loading (fail id e r pg).2 = false
    /\ exists d, offers_retry d = true /\ d_text d <> Some []
         /\ (fail id e r pg).1 = [Call (ParkEditForm.get_call id); Fire d]
              ++ (if l_retry r then [Reload] else [Navigate (js "/") false])).
  { intros e. split; [reflexivity|]. split; [reflexivity|].
    exists (failure_dialog id e). split; [reflexivity|]. split; [|reflexivity].
    cbn. intros [= H]. destruct (load_classify_nonempty id e) as [_ Hn]. auto. }
  assert (Hcalls : forall e, (length (calls (fail id e r pg).1) <= 1)%nat).
  { intros e. unfold fail. destruct (l_retry r); cbn; lia. }
  split; [|split; [|split]].
  - intros Ho (p & Hp & Hn). rewrite Ho, Hp, Hn. cbn [negb fst snd form loading].
    exists p. split; [reflexivity|]. split; [reflexivity|]. split; [reflexivity|].
    split.
    { cbn. unfold ParkCard.present in Hn. destruct (p_name p) as [n|]; [|discriminate].
      cbn. rewrite Hn. apply truthy_true, Hn. }
    split; [apply hasChanges_same|]. split; reflexivity.
  - intros Ho. rewrite Ho. reflexivity.
  - intros Ho Hn. rewrite Ho. cbn [negb].
    destruct (l_response r) as [[p|]|e]; try apply Hfail.
    destruct (ParkCard.present (p_name p)) eqn:Hp; [|apply Hfail].
    exfalso. apply Hn. exists p. auto.
  - destruct (l_online r); cbn [negb]; [|cbn; lia].
    destruct (l_response r) as [[p|]|e]; try apply Hcalls.
    destruct (ParkCard.present (p_name p)); [cbn; lia | apply Hcalls].
Qed.

Lemma load_seeds_all_or_nothing_witness :
  let out := fetchPark (js "7")
               (mkLoad true (Got (Some (mkPark (Some 7%Z) None None None None None
                                          None None None None None))) false)
               initial_page in
  form out.2 = ParkEditForm.initial /\ loading out.2 = false.
Proof.
  cbv zeta.
  destruct (load_seeds_all_or_nothing (js "7")
              (mkLoad true (Got (Some (mkPark (Some 7%Z) None None None None None
                                         None None None None None))) false)
              initial_page) as (_ & _ & H & _).
  destruct (H eq_refl) as (H1 & H2 & _).
  - intros (p & [= <-] & Hp). discriminate Hp.
  - split; assumption.
Defined.

End EditPageFacts.

(** ** Images and deletion on the cards of the two pages *)

Module CardListFacts.
Import JSFacts Flow Park ParkList ListControls.

Lemma card_image_flag evs : forall st,
  ParkCard.imageError (ParkCard.image_run st evs)
  = ParkCard.imageError st
    || existsb (fun ev => match ev with ParkCard.onError => true | _ => false end) evs.
Proof.
  unfold ParkCard.image_run.
  induction evs as [|ev evs IH]; intros st; cbn [foldl existsb];
    [rewrite orb_false_r; reflexivity|].
  rewrite IH. destruct ev; cbn [ParkCard.image_step ParkCard.imageError];
    destruct (ParkCard.imageError st) eqn:E; cbn [negb orb ParkCard.imageError];
    rewrite ?E; reflexivity.
Qed.

Lemma card_image_isDeleting evs : forall st,
  ParkCard.isDeleting (ParkCard.image_run st evs) = ParkCard.isDeleting st.
Proof.
  unfold ParkCard.image_run.
  induction evs as [|ev evs IH]; intros st; cbn [foldl]; [reflexivity|].
  rewrite IH. destruct ev; cbn [ParkCard.image_step ParkCard.isDeleting];
    [reflexivity| |reflexivity].
  destruct (negb (ParkCard.imageError st)); reflexivity.
Qed.

Lemma detail_image_flag evs : forall st,
  DetailPage.imageError (DetailPage.image_run st evs)
  = DetailPage.imageError st
    || existsb (fun ev => match ev with DetailPage.onError => true | _ => false end) evs.
Proof.
  unfold DetailPage.image_run.
  induction evs as [|ev evs IH]; intros st; cbn [foldl existsb];
    [rewrite orb_false_r; reflexivity|].
  rewrite IH. destruct ev; cbn [DetailPage.image_step DetailPage.imageError];
    destruct (DetailPage.imageError st) eqn:E; cbn [negb orb DetailPage.imageError];
    rewrite ?E; reflexivity.
Qed.

Lemma detail_image_park evs : forall st,
  DetailPage.park (DetailPage.image_run st evs) = DetailPage.park st.
Proof.
  unfold DetailPage.image_run.
  induction evs as [|ev evs IH]; intros st; cbn [foldl]; [reflexivity|].
  rewrite IH. destruct ev; cbn [DetailPage.image_step DetailPage.park];
    [reflexivity|].
  destruct (negb (DetailPage.imageError st)); reflexivity.
Qed.

Lemma existsb_In_card evs :
  existsb (fun ev => match ev with ParkCard.onError => true | _ => false end) evs = true
  <-> In ParkCard.onError evs.
Proof.
  rewrite existsb_exists. split.
  - intros ([] & Hin & H); try discriminate. exact Hin.
  - intros H. exists ParkCard.onError. split; [exact H | reflexivity].
Qed.

Lemma existsb_In_detail evs :
  existsb (fun ev => match ev with DetailPage.onError => true | _ => false end) evs = true
  <-> In DetailPage.onError evs.
Proof.
  rewrite existsb_exists. split.
  - intros ([] & Hin & H); try discriminate. exact Hin.
  - intros H. exists DetailPage.onError. split; [exact H | reflexivity].
Qed.

(** X10: on the card and on the detail page the image flag is set
    exactly when an image load has failed since the component was
    mounted; until then every render uses the park's own image, and
    the image events touch nothing else (the card's deleting flag,
    the detail page's park). *)
Theorem image_flag_iff_load_failed (p : park) :
  (forall evs,
     ParkCard.imageError (ParkCard.image_run ParkCard.initial evs) = true
     <-> In ParkCard.onError evs)
  /\ (forall evs, ~ In ParkCard.onError evs ->
        ParkCard.rendered_src p (ParkCard.image_run ParkCard.initial evs)
        = ParkCard.getImageUrl p false)
  /\ (forall st evs,
        ParkCard.isDeleting (ParkCard.image_run st evs) = ParkCard.isDeleting st)
  /\ (forall evs,
        DetailPage.imageError (DetailPage.image_run DetailPage.initial evs) = true
        <-> In DetailPage.onError evs)
  /\ (forall st evs,
        DetailPage.park (DetailPage.image_run st evs) = DetailPage.park st).
Proof.
  split; [|split; [|split; [|split]]].
  - intros evs. rewrite card_image_flag. cbn [ParkCard.initial ParkCard.imageError orb].
    apply existsb_In_card.
  - intros evs H. unfold ParkCard.rendered_src. f_equal.
    apply not_true_iff_false. intros E. apply H.
    rewrite card_image_flag in E. apply existsb_In_card. exact E.
  - intros st evs. apply card_image_isDeleting.
  - intros evs. rewrite detail_image_flag.
    cbn [DetailPage.initial DetailPage.imageError orb]. apply existsb_In_detail.
  - intros st evs. apply detail_image_park.
Qed.

Lemma image_flag_iff_load_failed_witness :
  ParkCard.rendered_src Samples.stored_image_park
    (ParkCard.image_run ParkCard.initial [ParkCard.onLoad; ParkCard.loadedTimer])
  = ParkCard.getImageUrl Samples.stored_image_park false.
Proof.
  apply (proj1 (proj2 (image_flag_iff_load_failed Samples.stored_image_park))
           [ParkCard.onLoad; ParkCard.loadedTimer]).
  intros [H|[H|[]]]; discriminate H.
Defined.

Lemma present_nonempty x : ParkCard.present x = true -> default [] x <> [].
Proof.
  destruct x as [s|]; cbn; [|discriminate].
  intros H ->. discriminate H.
Qed.

Lemma storage_template uri :
  js "https://azuritaa33.sg-host.com/storage/" ++ uri
  = ParkCard.storageBase ++ js "/" ++ uri.
Proof.
  assert (E : js "https://azuritaa33.sg-host.com/storage/"
              = ParkCard.storageBase ++ js "/") by (vm_compute; reflexivity).
  rewrite E, <- app_assoc. reflexivity.
Qed.

Lemma storage_nonempty uri : ParkCard.storageBase ++ js "/" ++ uri <> [].
Proof.
  assert (E : exists c r, ParkCard.storageBase = c :: r) by (vm_compute; eauto).
  destruct E as (c & r & ->). discriminate.
Qed.

Lemma card_placeholder_nonempty : ParkCard.placeholder <> [].
Proof.
  assert (E : exists c r, ParkCard.placeholder = c :: r) by (vm_compute; eauto).
  destruct E as (c & r & ->). discriminate.
Qed.

Lemma detail_placeholder_nonempty : DetailPage.placeholder <> [].
Proof.
  assert (E : exists c r, DetailPage.placeholder = c :: r) by (vm_compute; eauto).
  destruct E as (c & r & ->). discriminate.
Qed.

Lemma placeholders_differ : ParkCard.placeholder <> DetailPage.placeholder.
Proof.
  intros H. apply (f_equal (fun s => nth 63 s 0)) in H.
  vm_compute in H. discriminate H.
Qed.

Lemma detail_getImageUrl_eq p flag :
  DetailPage.getImageUrl p flag
  = if ParkCard.present (p_img_url p) && negb flag then default [] (p_img_url p)
    else if ParkCard.present (p_img_uri p) && negb flag then
      ParkCard.storageBase ++ js "/" ++ default [] (p_img_uri p)
    else DetailPage.placeholder.
Proof.
  unfold DetailPage.getImageUrl.
  destruct (ParkCard.present (p_img_url p) && negb flag); [reflexivity|].
  destruct (ParkCard.present (p_img_uri p) && negb flag); [|reflexivity].
  apply storage_template.
Qed.

(** X11: the card and the detail page resolve a park's image alike:
    neither ever returns the empty string; as long as the park has an
    image field and no load has failed they return the same address,
    the detail page's template giving the card's base, slash and
    path; otherwise each falls back to its own placeholder, and the
    two placeholders differ. *)
Theorem image_sources_agree (p : park) (flag : bool) :
  ParkCard.getImageUrl p flag <> []
  /\ DetailPage.getImageUrl p flag <> []
  /\ ((ParkCard.present (p_img_url p) || ParkCard.present (p_img_uri p)) && negb flag = true ->
        DetailPage.getImageUrl p flag = ParkCard.getImageUrl p flag)
  /\ ((ParkCard.present (p_img_url p) || ParkCard.present (p_img_uri p)) && negb flag = false ->
        ParkCard.getImageUrl p flag = ParkCard.placeholder
        /\ DetailPage.getImageUrl p flag = DetailPage.placeholder)
  /\ ParkCard.placeholder <> DetailPage.placeholder.
Proof.
  unfold ParkCard.getImageUrl.
  with_strategy opaque [DetailPage.getImageUrl] (rewrite !detail_getImageUrl_eq).
  pose proof (present_nonempty (p_img_url p)) as N1.
  pose proof (storage_nonempty (default [] (p_img_uri p))) as N2.
  pose proof card_placeholder_nonempty as N3.
  pose proof detail_placeholder_nonempty as N4.
  pose proof placeholders_differ as N5.
  destruct (ParkCard.present (p_img_url p));
    destruct (ParkCard.present (p_img_uri p));
    destruct flag; cbn [andb orb negb];
    (split; [auto|split; [auto|split; [intros H|split; [intros H|exact N5]]]]);
    first [discriminate H | reflexivity | (split; reflexivity)].
Qed.

Lemma image_sources_agree_witness :
  DetailPage.getImageUrl Samples.stored_image_park false
  = ParkCard.getImageUrl Samples.stored_image_park false.
Proof.
  apply (proj1 (proj2 (proj2 (image_sources_agree Samples.stored_image_park false)))).
  reflexivity.
Defined.

(** *** Deleting from a card *)

Lemma existsb_told_app t1 t2 :
  existsb told (t1 ++ t2) = existsb told t1 || existsb told t2.
Proof. apply existsb_app. Qed.

Ltac not_success H :=
  exfalso;
  first [ discriminate H
        | injection H as H; apply (f_equal d_icon) in H; vm_compute in H;
          discriminate H ].

Lemma list_card_delete_outcome onParksUpdate p script : forall parks,
  let out := list_card_delete onParksUpdate p script parks in
  out.2 = (if existsb told out.1
           then handleParkDeleted onParksUpdate (id p) parks else parks)
  /\ (existsb told out.1 = true <-> In (Fire ParkCard.success_dialog) out.1)
  /\ (home_card_delete p script parks).1 = List.filter untold out.1
  /\ (home_card_delete p script parks).2 = parks.
Proof.
  unfold list_card_delete, home_card_delete.
  induction script as [|r rest IH]; intros parks; cbv zeta.
  - cbn. repeat split; try reflexivity; [discriminate | intros []].
  - rewrite !RunFacts.delete_handleDeleteClick_cons.
    destruct (online r); cbn [negb].
    2:{ cbn [fst snd existsb told orb app List.filter untold negb].
        repeat split; try reflexivity; [discriminate|].
        intros H. repeat (destruct H as [H|H]; [not_success H|]). destruct H. }
    destruct (confirmed r); cbn [negb].
    2:{ cbn [fst snd existsb told orb app List.filter untold negb].
        repeat split; try reflexivity; [discriminate|].
        intros H. repeat (destruct H as [H|H]; [not_success H|]). destruct H. }
    destruct (result r) as [status|e]; cbv zeta.
    + cbn [ParkCard.notify_parent fst snd existsb told orb app List.filter untold negb].
      repeat split; try reflexivity. intros _. do 3 right. left. reflexivity.
    + destruct (retry r).
      * specialize (IH parks). cbv zeta in IH.
        destruct (ParkCard.handleDeleteClick (Some (handleParkDeleted onParksUpdate)) p rest parks)
          as [more parks'].
        destruct (ParkCard.handleDeleteClick None p rest parks) as [more0 parks0].
        cbn [fst snd] in *. destruct IH as (IH1 & IH2 & IH3 & IH4).
        rewrite existsb_told_app, List.filter_app.
        cbn [existsb told orb app List.filter untold negb].
        repeat split; try assumption.
        -- rewrite IH2. intros H. do 4 right. exact H.
        -- intros H. repeat (destruct H as [H|H]; [not_success H|]).
           apply IH2. exact H.
        -- rewrite IH3. reflexivity.
      * cbn [fst snd existsb told orb app List.filter untold negb].
        repeat split; try reflexivity; [discriminate|].
        intros H. repeat (destruct H as [H|H]; [not_success H|]). destruct H.
Qed.

(** X12: a card's delete run tells the parent exactly when it shows
    the success dialog. A card of the list then makes the list hand
    on the collection without the parks of that id, the others kept
    in their order; when nothing was deleted the collection is the one
    before. A card of the home page, which is given no callback, runs
    the same dialogs and calls but never changes the collection, and
    neither does a list that was given no setter. *)
Theorem delete_reaches_the_list (p : park) (script : list round) (parks : list park) :
  let out := list_card_delete true p script parks in
  (existsb told out.1 = true <-> In (Fire ParkCard.success_dialog) out.1)
  /\ (existsb told out.1 = true ->
        out.2 = List.filter (fun q => negb (bool_decide (id q = id p))) parks
        /\ forall q, In q out.2 <-> In q parks /\ id q <> id p)
  /\ (existsb told out.1 = false -> out.2 = parks)
  /\ (home_card_delete p script parks).1 = List.filter untold out.1
  /\ (home_card_delete p script parks).2 = parks
  /\ (list_card_delete false p script parks).2 = parks.
Proof.
  cbv zeta.
  destruct (list_card_delete_outcome true p script parks) as (H1 & H2 & H3 & H4).
  destruct (list_card_delete_outcome false p script parks) as (F1 & _).
  cbv zeta in *.
  split; [exact H2|]. split; [|split; [|split; [exact H3|split; [exact H4|]]]].
  - intros E. rewrite E in H1. cbn [handleParkDeleted] in H1. split; [exact H1|].
    intros q. rewrite H1, filter_In, negb_true_iff, bool_decide_eq_false. reflexivity.
  - intros E. rewrite E in H1. exact H1.
  - rewrite F1. cbn [handleParkDeleted].
    destruct (existsb told (list_card_delete false p script parks).1); reflexivity.
Qed.

Lemma delete_reaches_the_list_witness :
  (list_card_delete true (Samples.park_of 2 "Bosque Los Colomos" "Guadalajara")
     [Samples.smooth_round] Samples.three_parks).2
  = [ Samples.park_of 1 "Parque Metropolitano" "Zapopan";
      Samples.park_of 3 "Parque Agua Azul" "Guadalajara" ].
Proof.
  refine (eq_trans (proj1 (proj1 (proj2 (delete_reaches_the_list
            (Samples.park_of 2 "Bosque Los Colomos" "Guadalajara")
            [Samples.smooth_round] Samples.three_parks)) _)) _).
  - reflexivity.
  - vm_compute. reflexivity.
Defined.

End CardListFacts.

(** ** The city filter, the empty states and deletion in the list *)

Module ViewFacts.
Import JSFacts Flow Park ParkList ListSpec ListControls ListFacts.

Lemma unique_from_In xs : forall seen x,
  In x (unique_from seen xs) <-> In x xs /\ ~ In x seen.
Proof.
  induction xs as [|y r IH]; intros seen x; cbn [unique_from].
  - split; [intros [] | intros [[] _]].
  - case_bool_decide as Hy.
    + apply list_elem_of_In in Hy. rewrite IH. cbn [In]. split.
      * intros [H1 H2]. auto.
      * intros [[<-|H1] H2]; [contradiction | auto].
    + rewrite list_elem_of_In in Hy. cbn [In]. rewrite IH. cbn [In]. split.
      * intros [<-|[H1 H2]]; [auto|]. split; [auto|]. intros H. apply H2. auto.
      * intros [[<-|H1] H2]; [auto|].
        destruct (decide (y = x)) as [E|E]; [auto|].
        right. split; [exact H1|]. intros [H|H]; [contradiction | contradiction].
Qed.

Lemma unique_from_NoDup xs : forall seen, List.NoDup (unique_from seen xs).
Proof.
  induction xs as [|y r IH]; intros seen; cbn [unique_from]; [constructor|].
  case_bool_decide as Hy; [apply IH|].
  constructor; [|apply IH].
  rewrite unique_from_In. intros [_ H]. apply H. left. reflexivity.
Qed.

Lemma unique_from_length xs : forall seen,
  (length (unique_from seen xs) <= length xs)%nat.
Proof.
  induction xs as [|y r IH]; intros seen; cbn [unique_from length]; [lia|].
  case_bool_decide; [specialize (IH seen) | specialize (IH (y :: seen))];
    cbn [length]; lia.
Qed.

Lemma present_Some x : ParkCard.present x = true <-> exists s, x = Some s /\ s <> [].
Proof.
  destruct x as [s|]; cbn.
  - rewrite truthy_true. split; [eauto|]. intros (s' & [= <-] & H). exact H.
  - split; [discriminate | intros (s' & H & _); discriminate].
Qed.

Lemma NoDup_map_present (l : list (option jsstring)) :
  List.NoDup l -> Forall (fun x => ParkCard.present x = true) l ->
  List.NoDup (map (default []) l).
Proof.
  induction 1 as [|x l Hx Hl IH]; intros HF; cbn [map]; [constructor|].
  inversion HF as [|? ? Px Pl]; subst.
  constructor; [|apply IH; exact Pl].
  intros H. apply in_map_iff in H as (y & Hy & Hin). apply Hx.
  rewrite List.Forall_forall in Pl. pose proof (Pl y Hin) as Py.
  apply present_Some in Px as (s & -> & _).
  apply present_Some in Py as (t & -> & _).
  cbn in Hy. subst. exact Hin.
Qed.

Lemma codeUnitCompare_eq a : forall b, codeUnitCompare a b = 0%Z -> a = b.
Proof.
  induction a as [|x a IH]; intros [|y b]; cbn [codeUnitCompare];
    try reflexivity; try discriminate.
  destruct (N.ltb_spec x y); [discriminate|].
  destruct (N.ltb_spec y x); [discriminate|].
  intros E. f_equal; [lia | apply IH, E].
Qed.

Lemma strictly_sorted (l : list jsstring) :
  List.NoDup l ->
  StronglySorted (fun a b => (codeUnitCompare a b <= 0)%Z) l ->
  StronglySorted (fun a b => (codeUnitCompare a b < 0)%Z) l.
Proof.
  intros Hn Hs. induction Hs as [|x l Hs IH Hx]; [constructor|].
  inversion Hn as [|? ? Hnx Hnl]; subst.
  constructor; [apply IH; exact Hnl|].
  rewrite List.Forall_forall in *. intros y Hy. specialize (Hx y Hy).
  destruct (Z.eq_dec (codeUnitCompare x y) 0%Z) as [E|E]; [|lia].
  apply codeUnitCompare_eq in E. subst. contradiction.
Qed.

Lemma cities_Permutation parks :
  Permutation (cities parks)
    (map (default [])
       (List.filter ParkCard.present (unique_from [] (map p_city parks)))).
Proof. unfold cities. apply sort_Permutation. Qed.

Lemma cities_In parks c :
  In c (cities parks) <-> c <> [] /\ exists p, In p parks /\ p_city p = Some c.
Proof.
  split.
  - intros H. apply (Permutation_in _ (cities_Permutation parks)) in H.
    apply in_map_iff in H as (x & Hx & Hin). apply filter_In in Hin as [Hin Hp].
    apply unique_from_In in Hin as [Hin _].
    apply in_map_iff in Hin as (p & Hp' & Hin).
    apply present_Some in Hp as (s & -> & Hs). cbn in Hx. subst c.
    split; [exact Hs | exists p; auto].
  - intros (Hc & p & Hin & Hp).
    apply (Permutation_in _ (Permutation_sym (cities_Permutation parks))).
    apply in_map_iff. exists (Some c). split; [reflexivity|].
    apply filter_In. split.
    + apply unique_from_In. split; [|intros []].
      apply in_map_iff. exists p. auto.
    + apply present_Some. eauto.
Qed.

(** X13: the options of the city filter are the distinct non-empty
    cities of the collection, each once, in strictly ascending order
    of code units: a string is offered exactly when it is non-empty
    and the city of some park; there are never more options than
    parks. *)
Theorem cities_are_the_distinct_cities (parks : list park) :
  List.NoDup (cities parks)
  /\ StronglySorted (fun a b => (codeUnitCompare a b < 0)%Z) (cities parks)
  /\ (forall c, In c (cities parks)
                <-> c <> [] /\ exists p, In p parks /\ p_city p = Some c)
  /\ (length (cities parks) <= length parks)%nat.
Proof.
  pose proof (cities_Permutation parks) as Hperm.
  assert (Hnd : List.NoDup (cities parks)).
  { eapply Permutation_NoDup; [symmetry; exact Hperm|].
    apply NoDup_map_present.
    - apply List.NoDup_filter, unique_from_NoDup.
    - apply List.Forall_forall. intros x Hx. apply filter_In in Hx. apply Hx. }
  split; [exact Hnd|]. split; [|split; [apply cities_In|]].
  - apply strictly_sorted; [exact Hnd|]. unfold cities.
    apply sort_StronglySorted; [apply codeUnitCompare_total | apply codeUnitCompare_trans].
  - rewrite (Permutation_length Hperm), length_map.
    etransitivity; [apply filter_length_le|].
    etransitivity; [apply unique_from_length|]. rewrite length_map. reflexivity.
Qed.

(** *** The view under the controls *)

Section Render.
Variable toLowerCase : jsstring -> jsstring.
Variable localeCompare : jsstring -> jsstring -> Z.

Lemma view_Permutation c parks :
  Permutation (view toLowerCase localeCompare c parks)
    (List.filter (fun p => matchesSearch toLowerCase (searchTerm c) p
                           && matchesCity (filterCity c) p) parks).
Proof. unfold view, filteredAndSortedParks. apply sort_Permutation. Qed.

Lemma filter_all {A} (f : A -> bool) l :
  (forall x, f x = true) -> List.filter f l = l.
Proof.
  intros H. induction l as [|a l IH]; cbn [List.filter]; [reflexivity|].
  rewrite H, IH. reflexivity.
Qed.

Lemma view_cleared c parks :
  Permutation (view toLowerCase localeCompare (clearFilters c) parks) parks.
Proof.
  rewrite view_Permutation. cbn [clearFilters searchTerm filterCity].
  rewrite filter_all; [reflexivity|]. intros p. reflexivity.
Qed.

Lemma view_length c parks :
  (length (view toLowerCase localeCompare c parks) <= length parks)%nat.
Proof. rewrite (Permutation_length (view_Permutation c parks)). apply filter_length_le. Qed.

(** X14: the view never shows more parks than the collection holds.
    The "no parks registered" state is rendered exactly for an empty
    collection; the "no matches" state only for a non-empty one, and
    there the clear button brings back every park. Clearing the
    controls always shows the whole collection, and choosing any city
    the filter offers, with no search term, shows at least one park
    and only parks of that city, under every sort key. *)
Theorem controls_never_strand_the_user (c : controls) (parks : list park) :
  (length (view toLowerCase localeCompare c parks) <= length parks)%nat
  /\ Permutation (view toLowerCase localeCompare (clearFilters c) parks) parks
  /\ (render toLowerCase localeCompare c parks = NoParks <-> parks = [])
  /\ (render toLowerCase localeCompare c parks = NoMatches ->
        parks <> []
        /\ exists shown,
             render toLowerCase localeCompare (clearFilters c) parks = Cards shown
             /\ Permutation shown parks)
  /\ (forall city key, In city (cities parks) ->
        let v := view toLowerCase localeCompare (mkControls [] city key) parks in
        v <> [] /\ forall p, In p v -> p_city p = Some city).
Proof.
  split; [apply view_length|]. split; [apply view_cleared|]. split; [|split].
  - unfold render.
    destruct (Nat.ltb_spec 0 (length (view toLowerCase localeCompare c parks))) as [H|H].
    + split; [discriminate|]. intros ->.
      pose proof (view_length c []) as H'. cbn [length] in H'. lia.
    + destruct (Nat.eqb_spec (length parks) 0) as [E|E].
      * split; [intros _|reflexivity]. destruct parks; [reflexivity | discriminate E].
      * split; [discriminate|]. intros ->. contradiction E. reflexivity.
  - unfold render.
    destruct (Nat.ltb_spec 0 (length (view toLowerCase localeCompare c parks))) as [H|H];
      [discriminate|].
    destruct (Nat.eqb_spec (length parks) 0) as [E|E]; [discriminate|]. intros _.
    split; [intros ->; apply E; reflexivity|].
    exists (view toLowerCase localeCompare (clearFilters c) parks).
    split; [|apply view_cleared].
    rewrite (Permutation_length (view_cleared c parks)).
    destruct (Nat.ltb_spec 0 (length parks)); [reflexivity | lia].
  - intros city key Hc. cbv zeta.
    apply cities_In in Hc as (Hne & p & Hin & Hp).
    pose proof (view_Permutation (mkControls [] city key) parks) as HP.
    cbn [searchTerm filterCity] in HP. split.
    + intros E. rewrite E in HP. apply Permutation_nil in HP.
      assert (Hk : In p (List.filter
                 (fun p => matchesSearch toLowerCase [] p && matchesCity city p) parks)).
      { apply filter_In. split; [exact Hin|].
        unfold matchesSearch, matchesCity. rewrite Hp.
        rewrite bool_decide_eq_true_2 by reflexivity.
        rewrite orb_true_r. reflexivity. }
      rewrite HP in Hk. destruct Hk.
    + intros q Hq. apply (Permutation_in _ HP) in Hq.
      apply filter_In in Hq as [_ Hq]. apply andb_true_iff in Hq as [_ Hq].
      unfold matchesCity in Hq. apply truthy_true in Hne. rewrite Hne in Hq.
      cbn [negb orb] in Hq. apply bool_decide_eq_true in Hq. exact Hq.
Qed.

End Render.

Lemma controls_never_strand_the_user_witness :
  view asciiLower codeUnitCompare (mkControls [] (js "Zapopan") by_city)
    Samples.three_parks <> [].
Proof.
  apply (proj2 (proj2 (proj2 (proj2
           (controls_never_strand_the_user asciiLower codeUnitCompare
              initial Samples.three_parks)))) (js "Zapopan") by_city).
  vm_compute. auto.
Defined.

(** *** Deleting a park and the view *)

Section SortFilter.
Context {A : Type} (compare : A -> A -> Z).
Let le (a b : A) : Prop := (compare a b <= 0)%Z.

Hypothesis le_trans : forall a b c, le a b -> le b c -> le a c.

Lemma insert_sorted_head x l :
  (forall z, In z l -> le x z) -> insert_sorted compare x l = x :: l.
Proof.
  destruct l as [|y l]; intros H; cbn [insert_sorted]; [reflexivity|].
  destruct (Z.leb_spec (compare x y) 0) as [Hxy|Hxy]; [reflexivity|].
  specialize (H y (or_introl eq_refl)). unfold le in H. lia.
Qed.

Lemma filter_insert_sorted (keep : A -> bool) x l :
  StronglySorted le l ->
  List.filter keep (insert_sorted compare x l)
  = if keep x then insert_sorted compare x (List.filter keep l)
    else List.filter keep l.
Proof.
  induction 1 as [|y l Hs IH Hy].
  - cbn. destruct (keep x); reflexivity.
  - cbn [insert_sorted].
    destruct (Z.leb_spec (compare x y) 0) as [Hxy|Hxy].
    + change (List.filter keep (x :: y :: l))
        with (if keep x then x :: List.filter keep (y :: l)
              else List.filter keep (y :: l)).
      destruct (keep x); [|reflexivity].
      symmetry. apply insert_sorted_head. intros z Hz.
      apply filter_In in Hz as [[<-|Hz] _]; [exact Hxy|].
      rewrite List.Forall_forall in Hy. eapply le_trans; [exact Hxy | apply Hy, Hz].
    + change (List.filter keep (y :: insert_sorted compare x l))
        with (if keep y then y :: List.filter keep (insert_sorted compare x l)
              else List.filter keep (insert_sorted compare x l)).
      rewrite IH. cbn [List.filter].
      destruct (keep y), (keep x); try reflexivity.
      cbn [insert_sorted]. rewrite (proj2 (Z.leb_gt _ _) Hxy). reflexivity.
Qed.

Hypothesis le_total : forall a b, le a b \/ le b a.

Lemma filter_sort (keep : A -> bool) l :
  List.filter keep (sort compare l) = sort compare (List.filter keep l).
Proof.
  induction l as [|x l IH]; [reflexivity|].
  change (sort compare (x :: l)) with (insert_sorted compare x (sort compare l)).
  rewrite filter_insert_sorted by (apply sort_StronglySorted; assumption).
  rewrite IH. cbn [List.filter]. destruct (keep x); reflexivity.
Qed.

End SortFilter.

Lemma filter_comm {A} (f g : A -> bool) l :
  List.filter f (List.filter g l) = List.filter g (List.filter f l).
Proof.
  induction l as [|a l IH]; [reflexivity|]. cbn [List.filter].
  destruct (g a) eqn:G, (f a) eqn:F; cbn [List.filter]; rewrite ?G, ?F, IH; reflexivity.
Qed.

(** X15: when the collation is a total preorder, removing a deleted
    park from the collection and deriving the view again gives the
    view as it was with the cards of that id taken out: every other
    card stays, in the place it had relative to the others, whatever
    the search term, the city filter and the sort key. *)
Theorem deletion_keeps_the_other_cards
    (toLowerCase : jsstring -> jsstring) (localeCompare : jsstring -> jsstring -> Z)
    (localeCompare_total :
       forall a b, (localeCompare a b <= 0 \/ localeCompare b a <= 0)%Z)
    (localeCompare_trans :
       forall a b c, (localeCompare a b <= 0 -> localeCompare b c <= 0
                      -> localeCompare a c <= 0)%Z)
    (c : controls) (deletedParkId : option Z) (parks : list park) :
  view toLowerCase localeCompare c (handleParkDeleted true deletedParkId parks)
  = List.filter (fun q => negb (bool_decide (id q = deletedParkId)))
      (view toLowerCase localeCompare c parks).
Proof.
  unfold view, filteredAndSortedParks, handleParkDeleted. cbv zeta.
  rewrite filter_sort.
  - f_equal. apply filter_comm.
  - intros x y z. unfold compare.
    destruct (sortBy c); [apply localeCompare_trans | apply localeCompare_trans | lia].
  - intros x y. unfold compare.
    destruct (sortBy c); [apply localeCompare_total | apply localeCompare_total | lia].
Qed.

Lemma deletion_keeps_the_other_cards_witness :
  view asciiLower codeUnitCompare (mkControls [] [] by_recent)
    (handleParkDeleted true (Some 2%Z) Samples.three_parks)
  = [ Samples.park_of 3 "Parque Agua Azul" "Guadalajara";
      Samples.park_of 1 "Parque Metropolitano" "Zapopan" ].
Proof.
  refine (eq_trans (deletion_keeps_the_other_cards asciiLower codeUnitCompare
                      codeUnitCompare_total codeUnitCompare_trans
                      (mkControls [] [] by_recent) (Some 2%Z) Samples.three_parks) _).
  vm_compute. reflexivity.
Defined.

End ViewFacts.

(** ** Loading the collection (Home.jsx) and the delete hook
    (useDeletePark.js) *)

Module FetchFacts.
Import JSFacts Flow Park.

Lemma fetchParks_cons r rest parks :
  Home.fetchParks (r :: rest) parks
  = if negb (Home.f_online r) then ([Fire Home.offline_dialog], parks)
    else
      match Home.f_result r with
      | Home.Listed ps =>
        ([Call Home.list_call]
           ++ (if (0 <? length ps)%nat then [Fire (Home.loaded_dialog (length ps))] else []),
         ps)
      | Home.Failed e =>
        let shown := [Call Home.list_call; Fire (Home.failure_dialog e)] in
        if Home.f_retry r then
          let '(more, parks') := Home.fetchParks rest [] in
          (shown ++ more, parks')
        else (shown, [])
      end.
Proof. reflexivity. Qed.

Lemma failure_dialog_icon e : d_icon (Home.failure_dialog e) = Some error.
Proof. reflexivity. Qed.

Lemma offline_dialog_icon : d_icon Home.offline_dialog = Some warning.
Proof. reflexivity. Qed.

Lemma fetchParks_collection script : forall parks,
  let out := Home.fetchParks script parks in
  (calls out.1 = [] -> out.2 = parks)
  /\ (calls out.1 <> [] ->
        out.2 = [] \/ exists r, In r script /\ Home.f_result r = Home.Listed out.2)
  /\ (forall d, In (Fire d) out.1 -> d_icon d = Some success ->
        out.2 <> [] /\ d = Home.loaded_dialog (length out.2))
  /\ (length (calls out.1) <= length script)%nat.
Proof.
  induction script as [|r rest IH]; intros parks; cbv zeta.
  - cbn [Home.fetchParks fst snd calls length].
    split; [reflexivity|split; [intros H; contradiction|split; [intros d []|lia]]].
  - rewrite fetchParks_cons. destruct (Home.f_online r); cbn [negb].
    2:{ cbn [fst snd calls length].
        split; [reflexivity|split; [intros H; contradiction|split; [|lia]]].
        intros d [H|[]] Hd. injection H as <-. rewrite offline_dialog_icon in Hd.
        discriminate Hd. }
    destruct (Home.f_result r) as [ps|e] eqn:Er; cbv zeta.
    + cbn [fst snd]. split; [|split; [|split]].
      * cbn. discriminate.
      * intros _. right. exists r. split; [left; reflexivity | exact Er].
      * intros d Hd Hi. cbn [app] in Hd. destruct Hd as [H|Hd]; [discriminate H|].
        destruct (Nat.ltb_spec 0 (length ps)) as [Hl|Hl]; [|destruct Hd].
        destruct Hd as [H|[]]. injection H as <-.
        split; [|reflexivity]. intros ->. cbn in Hl. lia.
      * cbn [app calls]. destruct (0 <? length ps)%nat; cbn [length calls]; lia.
    + destruct (Home.f_retry r).
      * specialize (IH []). cbv zeta in IH.
        destruct (Home.fetchParks rest []) as [more parks'].
        cbn [fst snd] in *. destruct IH as (IH1 & IH2 & IH3 & IH4).
        cbn [app calls length]. split; [discriminate|split; [|split]].
        -- intros _. destruct (calls more) as [|c cs] eqn:Ec.
           ++ left. apply IH1. reflexivity.
           ++ destruct IH2 as [H|(r' & Hin & Hr')]; [discriminate | left; exact H|].
              right. exists r'. split; [right; exact Hin | exact Hr'].
        -- intros d [H|[H|Hd]] Hi; [discriminate H| |apply IH3; assumption].
           injection H as <-. rewrite failure_dialog_icon in Hi. discriminate Hi.
        -- lia.
      * cbn [fst snd calls length]. split; [discriminate|split; [|split]].
        -- intros _. left. reflexivity.
        -- intros d [H|[H|[]]] Hi; [discriminate H|].
           injection H as <-. rewrite failure_dialog_icon in Hi. discriminate Hi.
        -- lia.
Qed.

(** X16: a run of the home page's loader leaves the collection as it
    was when it issues no call (no answer yet, or offline at the
    start). Once a call has been issued the collection is either
    empty or exactly the list some call of the run delivered; a
    failed call empties it even when the user asks to retry. The
    success toast appears only with a non-empty collection and gives
    its size, and the run issues at most one call per invocation. *)
Theorem home_collection_after_fetch (script : list Home.fetch_round) (parks : list park) :
  let out := Home.fetchParks script parks in
  (calls out.1 = [] -> out.2 = parks)
  /\ (calls out.1 <> [] ->
        out.2 = [] \/ exists r, In r script /\ Home.f_result r = Home.Listed out.2)
  /\ (forall d, In (Fire d) out.1 -> d_icon d = Some success ->
        out.2 <> [] /\ d = Home.loaded_dialog (length out.2))
  /\ (length (calls out.1) <= length script)%nat.
Proof. apply fetchParks_collection. Qed.

Lemma home_collection_after_fetch_witness :
  (Home.fetchParks
     [Home.mkFetch true (Home.Failed Samples.server_error) true;
      Home.mkFetch false (Home.Listed Samples.three_parks) false]
     Samples.three_parks).2 = []
  \/ exists r,
       In r [Home.mkFetch true (Home.Failed Samples.server_error) true;
             Home.mkFetch false (Home.Listed Samples.three_parks) false]
       /\ Home.f_result r
          = Home.Listed
              (Home.fetchParks
                 [Home.mkFetch true (Home.Failed Samples.server_error) true;
                  Home.mkFetch false (Home.Listed Samples.three_parks) false]
                 Samples.three_parks).2.
Proof.
  apply (proj1 (proj2 (home_collection_after_fetch
           [Home.mkFetch true (Home.Failed Samples.server_error) true;
            Home.mkFetch false (Home.Listed Samples.three_parks) false]
           Samples.three_parks))).
  vm_compute. discriminate.
Defined.

(** *** The delete hook *)

Lemma first_truthy_nonempty xs d : d <> [] -> useDeletePark.first_truthy xs d <> [].
Proof.
  intros Hd. unfold useDeletePark.first_truthy.
  induction xs as [|[s|] xs IH]; cbn [foldr]; [exact Hd| |exact IH].
  destruct (truthy s) eqn:E; [|exact IH]. apply truthy_true. exact E.
Qed.

Lemma errorMessage_nonempty e : useDeletePark.errorMessage e <> [].
Proof.
  apply first_truthy_nonempty.
  assert (E : exists c r, js "Error desconocido al eliminar el parque" = c :: r)
    by (vm_compute; eauto).
  destruct E as (c & r & ->). discriminate.
Qed.

Lemma errorMessage_unexpected status :
  useDeletePark.errorMessage (useDeletePark.unexpected_status status)
  = js "Status inesperado: " ++ decimal_of_Z status.
Proof.
  assert (E : exists c r, js "Status inesperado: " = c :: r) by (vm_compute; eauto).
  destruct E as (c & r & E).
  unfold useDeletePark.errorMessage, useDeletePark.unexpected_status,
    useDeletePark.first_truthy.
  cbn [foldr e_data_message e_data_error e_message]. rewrite E. reflexivity.
Qed.

Lemma hook_cases parkId parkName r :
  let out := useDeletePark.deletePark parkId parkName r in
  (confirmed r = false
   /\ out = ([Fire useDeletePark.confirm_dialog], useDeletePark.cancelled))
  \/ (confirmed r = true
      /\ (result r = Resolved 200 \/ result r = Resolved 204)
      /\ out = ([Fire useDeletePark.confirm_dialog;
                 Call (useDeletePark.delete_call parkId);
                 Fire (useDeletePark.success_dialog parkName); Reload],
                useDeletePark.succeeded))
  \/ (confirmed r = true
      /\ (exists status, result r = Resolved status
                         /\ status <> 200%Z /\ status <> 204%Z
                         /\ out = ([Fire useDeletePark.confirm_dialog;
                                    Call (useDeletePark.delete_call parkId);
                                    Fire (useDeletePark.failure_dialog
                                      (js "Status inesperado: " ++ decimal_of_Z status))],
                                   useDeletePark.failed
                                     (js "Status inesperado: " ++ decimal_of_Z status))))
  \/ (confirmed r = true
      /\ (exists e, result r = Rejected e
                    /\ out = ([Fire useDeletePark.confirm_dialog;
                               Call (useDeletePark.delete_call parkId);
                               Fire (useDeletePark.failure_dialog
                                       (useDeletePark.errorMessage e))],
                              useDeletePark.failed (useDeletePark.errorMessage e)))).
Proof.
  cbv zeta. unfold useDeletePark.deletePark.
  destruct (confirmed r); cbn [negb]; [right|left; split; reflexivity].
  destruct (result r) as [status|e].
  - destruct (decide (status = 200%Z)) as [E1|E1];
      [|destruct (decide (status = 204%Z)) as [E2|E2]].
    + rewrite (bool_decide_eq_true_2 _ E1). cbn [orb]. subst status.
      left. split; [reflexivity|]. split; [left; reflexivity | reflexivity].
    + rewrite (bool_decide_eq_false_2 _ E1), (bool_decide_eq_true_2 _ E2).
      cbn [orb]. subst status.
      left. split; [reflexivity|]. split; [right; reflexivity | reflexivity].
    + rewrite (bool_decide_eq_false_2 _ E1), (bool_decide_eq_false_2 _ E2).
      cbn [orb]. rewrite errorMessage_unexpected.
      right. left. split; [reflexivity|]. exists status. auto.
  - right. right. split; [reflexivity|]. exists e. auto.
Qed.

(** X17: the delete hook issues its one call exactly when the user
    confirms. It reports success, and reloads the page, exactly when
    the call resolves with status 200 or 204; a call that resolves
    with any other status is reported as a failure naming the status.
    It reports a cancellation exactly when the user declines, and a
    failure always carries a non-empty message, the one its dialog
    shows. *)
Theorem hook_outcomes (parkId parkName : jsstring) (r : round) :
  let out := useDeletePark.deletePark parkId parkName r in
  calls out.1 = (if confirmed r then [useDeletePark.delete_call parkId] else [])
  /\ (out.2 = useDeletePark.succeeded
      <-> confirmed r = true
          /\ (result r = Resolved 200 \/ result r = Resolved 204))
  /\ (out.2 = useDeletePark.cancelled <-> confirmed r = false)
  /\ (In Reload out.1 <-> out.2 = useDeletePark.succeeded)
  /\ (forall m, out.2 = useDeletePark.failed m ->
        m <> [] /\ last out.1 = Some (Fire (useDeletePark.failure_dialog m)))
  /\ (forall status, confirmed r = true -> result r = Resolved status ->
        status <> 200%Z -> status <> 204%Z ->
        out.2 = useDeletePark.failed (js "Status inesperado: " ++ decimal_of_Z status)).
Proof.
  cbv zeta.
  destruct (hook_cases parkId parkName r)
    as [(Hc & ->)|[(Hc & Hs & ->)|[(Hc & s & Hr & N1 & N2 & ->)|(Hc & e & Hr & ->)]]];
    cbn [fst snd calls]; rewrite Hc;
    (split; [reflexivity|split; [|split; [|split; [|split]]]]).
  - split; [discriminate | intros [H _]; discriminate H].
  - split; reflexivity.
  - split; [intros [H|[]]; discriminate H | discriminate].
  - intros m H. discriminate H.
  - intros status H. discriminate H.
  - split; [intros _; split; [reflexivity | exact Hs] | reflexivity].
  - split; discriminate.
  - split; [reflexivity | intros _; do 3 right; left; reflexivity].
  - intros m H. discriminate H.
  - intros status _ Hr N1 N2. exfalso.
    destruct Hs as [Hs|Hs]; rewrite Hs in Hr; injection Hr as <-; contradiction.
  - split; [discriminate|].
    intros [_ [H|H]]; rewrite Hr in H; injection H as ->; contradiction.
  - split; discriminate.
  - split; [intros [H|[H|[H|[]]]]; discriminate H | discriminate].
  - intros m H.
    assert (E : js "Status inesperado: " ++ decimal_of_Z s = m) by congruence.
    subst m. split; [|reflexivity].
    rewrite <- errorMessage_unexpected. apply errorMessage_nonempty.
  - intros status _ Hr' _ _. rewrite Hr in Hr'. injection Hr' as <-. reflexivity.
  - split; [discriminate|]. intros [_ [H|H]]; rewrite Hr in H; discriminate H.
  - split; discriminate.
  - split; [intros [H|[H|[H|[]]]]; discriminate H | discriminate].
  - intros m H.
    assert (E : useDeletePark.errorMessage e = m) by congruence.
    subst m. split; [apply errorMessage_nonempty | reflexivity].
  - intros status _ Hr'. rewrite Hr in Hr'. discriminate Hr'.
Qed.

Lemma hook_outcomes_witness :
  (useDeletePark.deletePark (js "7") (js "Parque Metropolitano")
     Samples.smooth_round).2
  = useDeletePark.failed (js "Status inesperado: " ++ decimal_of_Z 201).
Proof.
  apply (proj2 (proj2 (proj2 (proj2 (proj2
           (hook_outcomes (js "7") (js "Parque Metropolitano") Samples.smooth_round)))))
           201%Z).
  - reflexivity.
  - reflexivity.
  - discriminate.
  - discriminate.
Defined.

End FetchFacts.

(** ** Loading the detail page (ParkDetail.jsx) *)

Module DetailFacts.
Import JSFacts Flow Park EditPage.

Lemma detail_fetchPark_cons id r rest st :
  DetailPage.fetchPark id (r :: rest) st
  = if negb (l_online r) then
      ([Fire DetailPage.offline_dialog], DetailPage.set_loading false st)
    else
      match DetailPage.received r with
      | inl p =>
        ([Call (ParkDetail.get_call id)],
         DetailPage.mkState (Some p) false
           (DetailPage.imageLoaded st) (DetailPage.imageError st))
      | inr e =>
        if status_is e 404 then
          ([Call (ParkDetail.get_call id); Fire (DetailPage.not_found_dialog id);
            DetailPage.home],
           DetailPage.set_loading false st)
        else
          let shown :=
            [Call (ParkDetail.get_call id);
             Fire (if status_is e 500 then DetailPage.server_dialog
                   else DetailPage.connection_dialog)] in
          if l_retry r then
            let '(more, st') :=
              DetailPage.fetchPark id rest (DetailPage.set_loading false st) in
            (shown ++ more, st')
          else (shown ++ [DetailPage.home], DetailPage.set_loading false st)
      end.
Proof. reflexivity. Qed.

Lemma received_inl r p :
  DetailPage.received r = inl p
  <-> l_response r = Got (Some p) /\ ParkCard.present (p_name p) = true.
Proof.
  unfold DetailPage.received. destruct (l_response r) as [[q|]|e].
  - destruct (ParkCard.present (p_name q)) eqn:E; split.
    + intros [= ->]. auto.
    + intros [[= ->] _]. reflexivity.
    + discriminate.
    + intros [[= ->] H]. congruence.
  - split; [discriminate | intros [H _]; discriminate H].
  - split; [discriminate | intros [H _]; discriminate H].
Qed.

Lemma retry_dialogs_offer_retry (b : bool) :
  offers_retry (if b then DetailPage.server_dialog else DetailPage.connection_dialog)
  = true.
Proof. destruct b; vm_compute; reflexivity. Qed.

Lemma not_found_no_retry id : offers_retry (DetailPage.not_found_dialog id) = false.
Proof. reflexivity. Qed.

Lemma retry_dialog_not_not_found (b : bool) id :
  Fire (if b then DetailPage.server_dialog else DetailPage.connection_dialog)
  <> Fire (DetailPage.not_found_dialog id).
Proof.
  intros H. apply (f_equal DetailPage.fired_cancel) in H. destruct b; discriminate H.
Qed.

Lemma offline_not_not_found id :
  Fire DetailPage.offline_dialog <> Fire (DetailPage.not_found_dialog id).
Proof. intros H. apply (f_equal DetailPage.fired_icon) in H. discriminate H. Qed.

Lemma last_cons2 {A} (a b : A) l x : last l = Some x -> last (a :: b :: l) = Some x.
Proof. destruct l as [|c l]; [discriminate|]. intros H. exact H. Qed.

Lemma detail_run id script : forall st,
  let out := DetailPage.fetchPark id script st in
  (Forall (fun c => c = ParkDetail.get_call id) (calls out.1)
   /\ (length (calls out.1) <= length script)%nat)
  /\ (DetailPage.park out.2 = DetailPage.park st
      \/ exists r p, In r script /\ l_response r = Got (Some p)
                     /\ ParkCard.present (p_name p) = true
                     /\ DetailPage.park out.2 = Some p)
  /\ (DetailPage.imageLoaded out.2 = DetailPage.imageLoaded st
      /\ DetailPage.imageError out.2 = DetailPage.imageError st
      /\ (script <> [] \/ DetailPage.loading st = false ->
          DetailPage.loading out.2 = false))
  /\ (forall d, In (Fire d) out.1 ->
        d = DetailPage.offline_dialog
        \/ d = DetailPage.not_found_dialog id
        \/ offers_retry d = true)
  /\ (In (Fire (DetailPage.not_found_dialog id)) out.1 ->
        last out.1 = Some DetailPage.home)
  /\ (In DetailPage.home out.1 ->
        last out.1 = Some DetailPage.home
        /\ DetailPage.park out.2 = DetailPage.park st).
Proof.
  induction script as [|r rest IH]; intros st; cbv zeta.
  - cbn [DetailPage.fetchPark fst snd calls length].
    split; [split; [constructor | lia]|].
    split; [left; reflexivity|].
    split; [split; [reflexivity|split; [reflexivity|]]|].
    { intros [H|H]; [contradiction | exact H]. }
    split; [intros d []|]. split; intros [].
  - rewrite detail_fetchPark_cons. destruct (l_online r); cbn [negb].
    2:{ cbn [fst snd calls length DetailPage.home].
        split; [split; [constructor | lia]|].
        split; [left; reflexivity|].
        split; [split; [reflexivity|split; [reflexivity|reflexivity]]|].
        split; [intros d [[= <-]|[]]; left; reflexivity|].
        split.
        - intros [H|[]]. contradiction (offline_not_not_found id H).
        - intros [H|[]]. discriminate H. }
    destruct (DetailPage.received r) as [p|e] eqn:Er.
    + apply received_inl in Er as [Er Hp]. cbn [fst snd calls length DetailPage.home].
      split; [split; [repeat constructor | lia]|].
      split; [right; exists r, p; repeat split; auto; left; reflexivity|].
      split; [split; [reflexivity|split; [reflexivity|reflexivity]]|].
      split; [intros d [H|[]]; discriminate H|].
      split; intros [H|[]]; discriminate H.
    + destruct (status_is e 404) eqn:E404.
      * cbn [fst snd calls length DetailPage.home].
        split; [split; [repeat constructor | lia]|].
        split; [left; reflexivity|].
        split; [split; [reflexivity|split; [reflexivity|reflexivity]]|].
        split.
        { intros d [H|[[= <-]|[H|[]]]]; try discriminate H. right. left. reflexivity. }
        split; [intros _; reflexivity|]. intros _. split; reflexivity.
      * cbv zeta. destruct (l_retry r).
        -- specialize (IH (DetailPage.set_loading false st)). cbv zeta in IH.
           destruct (DetailPage.fetchPark id rest (DetailPage.set_loading false st))
             as [more st'].
           cbn [fst snd] in *.
           destruct IH as ((C1 & C2) & P & (I1 & I2 & L) & D & N & Hm).
           cbn [app calls length DetailPage.home].
           split; [split; [constructor; [reflexivity | exact C1] | lia]|].
           split.
           { destruct P as [P|(r' & p & Hin & Hr & Hp & P)]; [left; exact P|].
             right. exists r', p. repeat split; auto. right. exact Hin. }
           split.
           { split; [exact I1|split; [exact I2|]]. intros _. apply L. right. reflexivity. }
           split.
           { intros d [H|[[= <-]|H]]; [discriminate H| |apply D, H].
             right. right. apply retry_dialogs_offer_retry. }
           split.
           { intros [H|[H|H]]; [discriminate H| |].
             - contradiction (retry_dialog_not_not_found _ _ H).
             - apply last_cons2, N, H. }
           intros [H|[H|H]]; [discriminate H|discriminate H|].
           destruct (Hm H) as [Hl Hp]. split; [apply last_cons2, Hl | exact Hp].
        -- cbn [fst snd app calls length DetailPage.home].
           split; [split; [repeat constructor | lia]|].
           split; [left; reflexivity|].
           split; [split; [reflexivity|split; [reflexivity|reflexivity]]|].
           split.
           { intros d [H|[[= <-]|[H|[]]]]; try discriminate H.
             right. right. apply retry_dialogs_offer_retry. }
           split; [intros _; reflexivity|]. intros _. split; reflexivity.
Qed.

(** X18: in any run of the detail page's loader every call is the
    GET of that park with the ten-second limit, at most one per
    invocation. The park shown afterwards is the one shown before or
    a park with a name that a call of the run delivered; the image
    flags are not touched and, once an invocation has run, the
    loading flag is false. Besides
    the offline notice, every dialog of the run either offers a retry
    or is the not-found dialog, which offers none; a run that shows
    the not-found dialog, or that navigates home at all, ends with
    the navigation home, and then shows no new park. *)
Theorem detail_load_run (id : jsstring) (script : list load_round)
    (st : DetailPage.state) :
  let out := DetailPage.fetchPark id script st in
  (Forall (fun c => c = ParkDetail.get_call id) (calls out.1)
   /\ (length (calls out.1) <= length script)%nat)
  /\ (DetailPage.park out.2 = DetailPage.park st
      \/ exists r p, In r script /\ l_response r = Got (Some p)
                     /\ ParkCard.present (p_name p) = true
                     /\ DetailPage.park out.2 = Some p)
  /\ (DetailPage.imageLoaded out.2 = DetailPage.imageLoaded st
      /\ DetailPage.imageError out.2 = DetailPage.imageError st
      /\ (script <> [] \/ DetailPage.loading st = false ->
          DetailPage.loading out.2 = false))
  /\ (forall d, In (Fire d) out.1 ->
        d = DetailPage.offline_dialog
        \/ d = DetailPage.not_found_dialog id
        \/ offers_retry d = true)
  /\ offers_retry (DetailPage.not_found_dialog id) = false
  /\ (In (Fire (DetailPage.not_found_dialog id)) out.1 ->
        last out.1 = Some DetailPage.home)
  /\ (In DetailPage.home out.1 ->
        last out.1 = Some DetailPage.home
        /\ DetailPage.park out.2 = DetailPage.park st).
Proof.
  cbv zeta. destruct (detail_run id script st) as (H1 & H2 & H3 & H4 & H5 & H6).
  cbv zeta in *.
  split; [exact H1|]. split; [exact H2|]. split; [exact H3|]. split; [exact H4|].
  split; [apply not_found_no_retry|]. split; [exact H5 | exact H6].
Qed.

Lemma detail_load_run_witness :
  last (DetailPage.fetchPark (js "7")
          [mkLoad true (GetFailed Samples.server_error) true;
           mkLoad true (GetFailed (mkError (Some 404%Z) None None None None)) true]
          DetailPage.initial).1
  = Some DetailPage.home.
Proof.
  apply (proj1 (proj2 (proj2 (proj2 (proj2 (proj2
           (detail_load_run (js "7")
              [mkLoad true (GetFailed Samples.server_error) true;
               mkLoad true (GetFailed (mkError (Some 404%Z) None None None None)) true]
              DetailPage.initial))))))).
  vm_compute. auto 10.
Defined.

End DetailFacts.

(** ** What a validated draft sends *)

Module PayloadFacts.
Import JSFacts Validation ValidationFacts Spec RuleSpec Payload.

Lemma trimStart_length s : (length (trimStart s) <= length s)%nat.
Proof.
  induction s as [|c s IH]; cbn [trimStart length]; [lia|].
  destruct (isWhiteSpace c); cbn [length]; lia.
Qed.

Lemma trim_length s : (length (trim s) <= length s)%nat.
Proof.
  unfold trim, trimEnd. rewrite length_rev.
  etransitivity; [apply trimStart_length|]. rewrite length_rev.
  apply trimStart_length.
Qed.

Lemma trimStart_head s :
  match trimStart s with [] => True | c :: _ => isWhiteSpace c = false end.
Proof.
  induction s as [|c s IH]; cbn [trimStart]; [exact I|].
  destruct (isWhiteSpace c) eqn:E; [exact IH | exact E].
Qed.

Lemma trimStart_idem s : trimStart (trimStart s) = trimStart s.
Proof.
  pose proof (trimStart_head s) as H. destruct (trimStart s) as [|c r]; [reflexivity|].
  cbn [trimStart]. rewrite H. reflexivity.
Qed.

Lemma trimEnd_idem s : trimEnd (trimEnd s) = trimEnd s.
Proof. unfold trimEnd. rewrite rev_involutive, trimStart_idem. reflexivity. Qed.

Lemma trimStart_keeps_last c : isWhiteSpace c = false ->
  forall l, exists l', trimStart (l ++ [c]) = l' ++ [c].
Proof.
  intros Hc. induction l as [|x l IH]; cbn [app trimStart].
  - exists []. rewrite Hc. reflexivity.
  - destruct (isWhiteSpace x); [exact IH|]. exists (x :: l). reflexivity.
Qed.

Lemma trimEnd_keeps_head c r : isWhiteSpace c = false ->
  exists r', trimEnd (c :: r) = c :: r'.
Proof.
  intros Hc. unfold trimEnd. cbn [rev].
  destruct (trimStart_keeps_last c Hc (rev r)) as [l' ->].
  exists (rev l'). rewrite rev_app_distr. reflexivity.
Qed.

(** Trimming leaves nothing to trim. *)
Lemma trim_idem s : trim (trim s) = trim s.
Proof.
  unfold trim. pose proof (trimStart_head s) as H.
  destruct (trimStart s) as [|c r]; [reflexivity|].
  destruct (trimEnd_keeps_head c r H) as [r' E].
  rewrite E. cbn [trimStart]. rewrite H, <- E. apply trimEnd_idem.
Qed.

Lemma nonempty_length {A} (l : list A) : l <> [] -> (1 <= length l)%nat.
Proof. destruct l; [contradiction | cbn [length]; lia]. Qed.

Lemma validateAll_true_rules ToNumber fd :
  (validateAll ToNumber fd).2 = true ->
  forall k, apply_rule ToNumber k (get fd k) = None.
Proof.
  rewrite validateAll_valid, forallb_forall. intros H k.
  specialize (H k (proj1 (list_elem_of_In _ _) (elem_of_keys k))).
  rewrite is_error_apply_rule in H. apply negb_true_iff, bool_decide_eq_false in H.
  destruct (apply_rule ToNumber k (get fd k)); [exfalso; apply H; discriminate|].
  reflexivity.
Qed.

Lemma digit_unit_In d : 48 <= d <= 57 -> In d digit_units.
Proof.
  intros H.
  assert (E : d = 48 \/ d = 49 \/ d = 50 \/ d = 51 \/ d = 52 \/ d = 53
              \/ d = 54 \/ d = 55 \/ d = 56 \/ d = 57) by lia.
  unfold digit_units. cbn [In]. intuition auto.
Qed.

Lemma regional_zip_listed v : regional_zip v -> In v regional_zips.
Proof.
  intros (d1 & d2 & d3 & d4 & -> & H1 & H2 & H3 & H4).
  unfold regional_zips.
  apply in_flat_map. exists d1. split; [cbn [In]; intuition auto|].
  apply in_flat_map. exists d2. split; [apply digit_unit_In, H2|].
  apply in_flat_map. exists d3. split; [apply digit_unit_In, H3|].
  apply in_map_iff. exists d4. split; [reflexivity | apply digit_unit_In, H4].
Qed.

Lemma regional_zips_round_trip : forallb zip_round_trip regional_zips = true.
Proof. vm_compute. reflexivity. Qed.

Lemma regional_zip_value v :
  regional_zip v ->
  exists z, Num.digits 0 v = Some (z, []) /\ (44000 <= z <= 45999)%Z
            /\ Flow.decimal_of_Z z = v /\ v <> [] /\ (length v <= 15)%nat.
Proof.
  intros H. pose proof (regional_zip_listed v H) as Hin.
  pose proof regional_zips_round_trip as Hall. rewrite forallb_forall in Hall.
  specialize (Hall v Hin). unfold zip_round_trip in Hall.
  destruct (Num.digits 0 v) as [[z [|c r]]|]; try discriminate Hall.
  apply andb_true_iff in Hall as [Hall E]. apply andb_true_iff in Hall as [L U].
  apply bool_decide_eq_true in E. exists z.
  split; [reflexivity|]. split; [lia|]. split; [exact E|].
  destruct H as (d1 & d2 & d3 & d4 & -> & _). split; [discriminate | cbn [length]; lia].
Qed.

Lemma leadingDigits_digits s v :
  s <> [] -> Num.digits 0 s = Some (v, []) -> leadingDigits s = Num.Fin (inject_Z v).
Proof.
  destruct s as [|c r]; [contradiction|]. intros _ H. unfold leadingDigits.
  destruct (Num.isDigit c) eqn:E.
  - rewrite H. reflexivity.
  - cbn [Num.digits] in H. rewrite E in H. discriminate H.
Qed.

Section Build.
Variable ToNumber : jsstring -> Num.jsnum.
Variable toUpperCase : jsstring -> jsstring.
Variable parseInt : jsstring -> Num.jsnum.
Variable parseFloat : jsstring -> Num.jsnum.

(** [parseInt] reads a short string of decimal digits as its value. *)
Hypothesis parseInt_digits : forall s v,
  s <> [] -> (length s <= 15)%nat -> Num.digits 0 s = Some (v, []) ->
  parseInt s = Num.Fin (inject_Z v).

(** X19: for a draft that [validateAll] accepts, the payload carries
    a name of 1 to 100 letters and spaces with nothing left to trim
    (the lower bound of three is checked on the untrimmed value, so a
    trimmed name may be shorter), the upper-cased form of 1 to 10
    letters as abbreviation, an address of 1 to 150 characters, one
    of the four cities, and as postal code an integer from 44000 to
    45999 whose decimal text is the one typed. *)
Theorem validated_payload (fd : formData_t) :
  (validateAll ToNumber fd).2 = true ->
  let p := dataToSend toUpperCase parseInt parseFloat fd in
  ((1 <= length (pl_park_name p) <= 100)%nat
   /\ Forall is_letter_or_space (pl_park_name p)
   /\ trim (pl_park_name p) = pl_park_name p)
  /\ (exists a, pl_park_abbreviation p = toUpperCase a
                /\ Forall is_letter a /\ (1 <= length a <= 10)%nat)
  /\ (1 <= length (pl_park_address p) <= 150)%nat
  /\ In (pl_park_city p) validCities
  /\ (exists z, pl_park_zip_code p = Num.Fin (inject_Z z)
                /\ (44000 <= z <= 45999)%Z
                /\ Flow.decimal_of_Z z = fd_park_zip_code fd).
Proof.
  intros Hv. cbv zeta. pose proof (validateAll_true_rules ToNumber fd Hv) as Hr.
  unfold dataToSend.
  cbn [pl_park_name pl_park_abbreviation pl_park_address pl_park_city pl_park_zip_code].
  pose proof (proj1 (RuleFacts.apply_rule_None_iff ToNumber _ _) (Hr park_name)) as Hn.
  pose proof (proj1 (RuleFacts.apply_rule_None_iff ToNumber _ _) (Hr park_abbreviation)) as Ha.
  pose proof (proj1 (RuleFacts.apply_rule_None_iff ToNumber _ _) (Hr park_address)) as Hd.
  pose proof (proj1 (RuleFacts.apply_rule_None_iff ToNumber _ _) (Hr park_city)) as Hc.
  pose proof (proj1 (RuleFacts.apply_rule_None_iff ToNumber _ _) (Hr park_zip_code)) as Hz.
  cbn [accepted get] in Hn, Ha, Hd, Hc, Hz.
  unfold within_bounds in Hn, Ha, Hd. cbn [bounds] in Hn, Ha, Hd.
  destruct Hn as (Hn1 & Hn2 & Hn3). destruct Ha as (Ha1 & Ha2 & Ha3).
  destruct Hd as (Hd1 & Hd2).
  split; [|split; [|split; [|split]]].
  - split; [|split; [exact Hn3 | apply trim_idem]].
    pose proof (trim_length (fd_park_name fd)).
    pose proof (nonempty_length _ Hn1). lia.
  - exists (trim (fd_park_abbreviation fd)). split; [reflexivity|]. split; [exact Ha3|].
    pose proof (trim_length (fd_park_abbreviation fd)).
    pose proof (nonempty_length _ Ha1). lia.
  - pose proof (trim_length (fd_park_address fd)).
    pose proof (nonempty_length _ Hd1). lia.
  - exact Hc.
  - destruct (regional_zip_value _ Hz) as (z & Hdig & Hrange & Htext & Hne & Hlen).
    exists z. split; [|split; [exact Hrange | exact Htext]].
    apply parseInt_digits; assumption.
Qed.

End Build.

Lemma validated_payload_witness :
  exists z,
    pl_park_zip_code (dataToSend (map asciiUpper) leadingDigits Num.decimal
                        Samples.metropolitano)
    = Num.Fin (inject_Z z)
    /\ (44000 <= z <= 45999)%Z
    /\ Flow.decimal_of_Z z = fd_park_zip_code Samples.metropolitano.
Proof.
  apply (validated_payload Num.decimal (map asciiUpper) leadingDigits Num.decimal
           (fun s v Hne _ Hd => leadingDigits_digits s v Hne Hd)
           Samples.metropolitano).
  vm_compute. reflexivity.
Defined.

End PayloadFacts.

(** ** The confirmation modal *)

Module ModalFacts.
Import Modal.

Lemma escape_is_not_enter : js "Escape" <> js "Enter".
Proof. intros H. apply (f_equal length) in H. vm_compute in H. discriminate H. Qed.

Lemma handleKeyPress_cases isDeleting key ctrlKey :
  handleKeyPress isDeleting key ctrlKey
  = if isDeleting then []
    else if bool_decide (key = js "Escape") then [onClose]
    else if bool_decide (key = js "Enter") && ctrlKey then [onConfirm]
    else [].
Proof. reflexivity. Qed.

(** X20: a modal that is closed, or whose deletion is under way,
    reacts to no key, click or button. Otherwise an input invokes at
    most one callback: the confirmation exactly for the confirm
    button and for Enter pressed with Ctrl, never for Enter alone in
    the key handler; the closing exactly for the close and cancel
    buttons, a click on the backdrop itself, and Escape. *)
Theorem modal_reactions (isOpen isDeleting : bool) (i : input) :
  (isOpen = false \/ isDeleting = true -> react isOpen isDeleting i = [])
  /\ (length (react isOpen isDeleting i) <= 1)%nat
  /\ (In onConfirm (react isOpen isDeleting i)
      <-> isOpen = true /\ isDeleting = false
          /\ (i = ConfirmButton \/ i = KeyDown (js "Enter") true))
  /\ (In onClose (react isOpen isDeleting i)
      <-> isOpen = true /\ isDeleting = false
          /\ (i = CloseButton \/ i = CancelButton \/ i = BackdropClick true
              \/ exists ctrlKey, i = KeyDown (js "Escape") ctrlKey)).
Proof.
  pose proof escape_is_not_enter as Hne.
  unfold react. destruct isOpen; cbn [negb].
  2:{ split; [reflexivity|]. split; [cbn; lia|].
      split; (split; [intros [] | intros [H _]; discriminate H]). }
  destruct isDeleting.
  { assert (E : match i with
               | KeyDown key ctrlKey => handleKeyPress true key ctrlKey
               | BackdropClick b => handleBackdropClick true b
               | CloseButton => button true onClose
               | CancelButton => button true onClose
               | ConfirmButton => button true onConfirm
               end = []).
    { destruct i as [key ctrl|b| | |]; try reflexivity.
      unfold handleBackdropClick. rewrite andb_false_r. reflexivity. }
    rewrite E. split; [reflexivity|]. split; [cbn; lia|].
    split; (split; [intros [] | intros (_ & H & _); discriminate H]). }
  split; [intros [H|H]; discriminate H|].
  destruct i as [key ctrl|b| | |].
  - rewrite handleKeyPress_cases.
    destruct (decide (key = js "Escape")) as [E1|E1].
    + rewrite (bool_decide_eq_true_2 _ E1). subst key.
      split; [cbn; lia|]. split; split.
      * intros [H|[]]. discriminate H.
      * intros (_ & _ & [H|H]); [discriminate H|]; try congruence.
      * intros _. split; [reflexivity|]. split; [reflexivity|].
        do 3 right. exists ctrl. reflexivity.
      * intros _. left. reflexivity.
    + rewrite (bool_decide_eq_false_2 _ E1).
      destruct (decide (key = js "Enter")) as [E2|E2].
      * rewrite (bool_decide_eq_true_2 _ E2). subst key. destruct ctrl; cbn [andb].
        -- split; [cbn; lia|]. split; split.
           ++ intros _. split; [reflexivity|]. split; [reflexivity|]. right. reflexivity.
           ++ intros _. left. reflexivity.
           ++ intros [H|[]]. discriminate H.
           ++ intros (_ & _ & [H|[H|[H|[c H]]]]); try discriminate H; try congruence.
        -- split; [cbn; lia|]. split; split.
           ++ intros [].
           ++ intros (_ & _ & [H|H]); discriminate H.
           ++ intros [].
           ++ intros (_ & _ & [H|[H|[H|[c H]]]]); try discriminate H; try congruence.
      * rewrite (bool_decide_eq_false_2 _ E2). cbn [andb].
        split; [cbn; lia|]. split; split.
        -- intros [].
        -- intros (_ & _ & [H|H]); [discriminate H|]; try congruence.
        -- intros [].
        -- intros (_ & _ & [H|[H|[H|[c H]]]]); try discriminate H; try congruence.
  - unfold handleBackdropClick. destruct b; cbn [andb negb].
    + split; [cbn; lia|]. split; split.
      * intros [H|[]]. discriminate H.
      * intros (_ & _ & [H|H]); discriminate H.
      * intros _. split; [reflexivity|]. split; [reflexivity|].
        right. right. left. reflexivity.
      * intros _. left. reflexivity.
    + split; [cbn; lia|]. split; split.
      * intros [].
      * intros (_ & _ & [H|H]); discriminate H.
      * intros [].
      * intros (_ & _ & [H|[H|[H|[c H]]]]); discriminate H.
  - cbn [button]. split; [cbn; lia|]. split; split.
    + intros [H|[]]. discriminate H.
    + intros (_ & _ & [H|H]); discriminate H.
    + intros _. split; [reflexivity|]. split; [reflexivity|]. left. reflexivity.
    + intros _. left. reflexivity.
  - cbn [button]. split; [cbn; lia|]. split; split.
    + intros [H|[]]. discriminate H.
    + intros (_ & _ & [H|H]); discriminate H.
    + intros _. split; [reflexivity|]. split; [reflexivity|]. right. left. reflexivity.
    + intros _. left. reflexivity.
  - cbn [button]. split; [cbn; lia|]. split; split.
    + intros _. split; [reflexivity|]. split; [reflexivity|]. left. reflexivity.
    + intros _. left. reflexivity.
    + intros [H|[]]. discriminate H.
    + intros (_ & _ & [H|[H|[H|[c H]]]]); discriminate H.
Qed.

Lemma modal_reactions_witness :
  react true true (KeyDown (js "Enter") true) = [].
Proof.
  apply (proj1 (modal_reactions true true (KeyDown (js "Enter") true))).
  right. reflexivity.
Defined.

End ModalFacts.

(** ** What the form handlers send *)

Module SendFacts.
Import JSFacts Validation ValidationFacts Flow FormFacts.

Lemma create_sends_valid ToNumber fd errs script st :
  calls (ParkForm.handleSubmit ToNumber fd errs script st).1 <> [] ->
  (validateAll ToNumber fd).2 = true.
Proof.
  destruct script as [|r rest]; [intros H; contradiction H; reflexivity|].
  rewrite RunFacts.create_handleSubmit_cons.
  destruct (online r); cbn [negb]; [|intros H; contradiction H; reflexivity].
  destruct (validateAll ToNumber fd) as [newErrors isValid]. cbn [snd].
  destruct isValid; cbn [negb]; [reflexivity|].
  intros H; contradiction H; reflexivity.
Qed.

Lemma edit_sends_valid ToNumber id fd orig errs script st :
  calls (ParkEditForm.handleSubmit ToNumber id fd orig errs script st).1 <> [] ->
  (validateAll ToNumber fd).2 = true /\ ParkEditForm.hasChanges fd orig = true.
Proof.
  destruct script as [|r rest]; [intros H; contradiction H; reflexivity|].
  rewrite edit_handleSubmit_cons.
  destruct (online r); cbn [negb]; [|intros H; contradiction H; reflexivity].
  destruct (validateAll ToNumber fd) as [newErrors isValid]. cbn [snd].
  destruct isValid; cbn [negb]; [|intros H; contradiction H; reflexivity].
  destruct (ParkEditForm.hasChanges fd orig); cbn [negb]; [split; reflexivity|].
  intros H; contradiction H; reflexivity.
Qed.

(** X21: whatever the state of the form when a retry runs, every call
    of a run of the create handler posts the draft of the render in
    which the submit started, and every call of a run of the edit
    handler puts that draft to that park's address: a retry repeats
    the request. A run issues a call only for a draft that
    [validateAll] accepts, and the edit handler only when it also
    differs from the snapshot. *)
Theorem only_the_validated_draft_is_sent (ToNumber : jsstring -> Num.jsnum)
    (id : jsstring) (fd : formData_t) (orig : option formData_t)
    (errs : errors_t) (script : list round) :
  (forall st,
     let sent := calls (ParkForm.handleSubmit ToNumber fd errs script st).1 in
     Forall (fun c => c = ParkForm.post_call fd) sent
     /\ (sent <> [] -> (validateAll ToNumber fd).2 = true))
  /\ (forall st,
        let sent := calls (ParkEditForm.handleSubmit ToNumber id fd orig errs script st).1 in
        Forall (fun c => c = ParkEditForm.put_call id fd) sent
        /\ (sent <> [] -> (validateAll ToNumber fd).2 = true
                          /\ ParkEditForm.hasChanges fd orig = true)).
Proof.
  split; intros st; cbv zeta; split.
  - apply create_calls_timeout.
  - apply create_sends_valid.
  - apply edit_calls_timeout.
  - apply edit_sends_valid.
Qed.

Lemma only_the_validated_draft_is_sent_witness :
  (validateAll Num.decimal Samples.metropolitano).2 = true.
Proof.
  apply (proj2 (proj1 (only_the_validated_draft_is_sent Num.decimal (js "7")
                         Samples.metropolitano None ∅
                         [Samples.timeout_then_retry; Samples.smooth_round])
                  ParkForm.initial)).
  vm_compute. discriminate.
Defined.

End SendFacts.
